(** * Walk-forward evaluation core of the trading bot

    Shallow embedding of
    - [common/signal_generation.py]: [performance_score] (trade simulator)
      and [find_interval_score] (interval scorer);
    - [scripts/generate_rolling_predictions.py]: the rolling train-predict
      loop of [main] (window scheduler, trainer dispatcher, orchestrator),
      the label cast before it and its score report;
    - [common/signal_generation.py]: the row predicates of
      [generate_signals], [generate_score_high_low] and
      [combined_relative_score];
    - [common/model_store.py]: [get_model] with the [models] table, and
      [load_models];
    - [common/feature_generation.py]: [add_threshold_feature].

    Python integers are unbounded, so they are [Z].  Prices are exact
    numbers ([Z]); scores and thresholds are exact rationals ([Q]) that
    are only compared; the arithmetic on score columns is kept abstract. *)

From Stdlib Require Import String.
From Stdlib Require Import List ZArith Lia Bool QArith.
From Stdlib Require Import Sorted Permutation Qabs.
Import ListNotations.
Open Scope Z_scope.

(* ================================================================== *)
(** * Trade simulator: [performance_score] *)
(* ================================================================== *)

Module Trade.

(** One tuple of [df.itertuples(name=None)] after the column selection
    [df[[sell_signal_column, buy_signal_column, price_column]]]:
    [(index, top_score, bot_score, price)]. *)
Record Row : Type := mkRow {
  index : Z;
  top_score : bool;   (* sell signal *)
  bot_score : bool;   (* buy signal *)
  price : Z
}.

(** The tuple [(index, is_buy_mode, price, profit)] appended to [longs] or
    [shorts]. *)
Record Event : Type := mkEvent {
  ev_index : Z;
  ev_mode : bool;
  ev_price : Z;
  ev_profit : Z
}.

(** The local variables of [performance_score]. *)
Record State : Type := mkState {
  is_buy_mode : bool;
  performance_long : Z;
  long_count : Z;
  long_profitable : Z;
  longs : list Event;
  performance_short : Z;
  short_count : Z;
  short_profitable : Z;
  shorts : list Event
}.

Definition init : State :=
  mkState true 0 0 0 [] 0 0 0 [].

(** [l[-1][2] - ... if len(l) > 0 else 0]: the price of the last recorded
    event, when there is one. *)
Definition last_price (l : list Event) : option Z :=
  match rev l with
  | [] => None
  | e :: _ => Some (ev_price e)
  end.

(** Body of the [for] loop. *)
Definition step (s : State) (r : Row) : State :=
  if is_buy_mode s then
    if bot_score r then
      let profit := match last_price (longs s) with
                    | Some p => p - price r
                    | None => 0
                    end in
      mkState false
              (performance_long s) (long_count s) (long_profitable s) (longs s)
              (performance_short s + profit)
              (short_count s + 1)
              (if 0 <? profit then short_profitable s + 1 else short_profitable s)
              (shorts s ++ [mkEvent (index r) (is_buy_mode s) (price r) profit])
    else s
  else
    if top_score r then
      let profit := match last_price (shorts s) with
                    | Some p => price r - p
                    | None => 0
                    end in
      mkState true
              (performance_long s + profit)
              (long_count s + 1)
              (if 0 <? profit then long_profitable s + 1 else long_profitable s)
              (longs s ++ [mkEvent (index r) (is_buy_mode s) (price r) profit])
              (performance_short s) (short_count s) (short_profitable s) (shorts s)
    else s.

(** The loop over the rows, from a given state. *)
Fixpoint run_from (s : State) (rows : list Row) : State :=
  match rows with
  | [] => s
  | r :: rows' => run_from (step s r) rows'
  end.

Definition run (rows : list Row) : State := run_from init rows.

(** The returned tuple. *)
Definition performance_score (rows : list Row)
  : Z * Z * Z * Z * Z * Z * list Event * list Event :=
  let s := run rows in
  (performance_long s, performance_short s, long_count s, short_count s,
   long_profitable s, short_profitable s, longs s, shorts s).

(** Rows built from three aligned columns under a default [RangeIndex]. *)
Fixpoint rows_from (i : Z) (sell buy : list bool) (prices : list Z) : list Row :=
  match sell, buy, prices with
  | s :: sell', b :: buy', p :: prices' =>
      mkRow i s b p :: rows_from (i + 1) sell' buy' prices'
  | _, _, _ => []
  end.

Definition sum_profit (l : list Event) : Z :=
  fold_right (fun e acc => ev_profit e + acc) 0 l.

(** The bookkeeping invariant of the simulator. *)
Record consistent (s : State) : Prop := mkConsistent {
  c_long_len : long_count s = Z.of_nat (length (longs s));
  c_short_len : short_count s = Z.of_nat (length (shorts s));
  c_long_sum : performance_long s = sum_profit (longs s);
  c_short_sum : performance_short s = sum_profit (shorts s);
  c_long_prof : 0 <= long_profitable s <= long_count s;
  c_short_prof : 0 <= short_profitable s <= short_count s;
  c_alternate : short_count s - long_count s = (if is_buy_mode s then 0 else 1)
}.

End Trade.

(* ================================================================== *)
(** * Python exceptions *)
(* ================================================================== *)

Module Py.

Inductive exn : Type :=
| KeyError                    (* missing column *)
| IndexError                  (* [iloc] position out of bounds *)
| ValueError (msg : string)
| ZeroDivisionError
| OtherError (msg : string).  (* any other exception *)

Inductive result (A : Type) : Type :=
| Ok (a : A)
| Raise (e : exn).

Arguments Ok {A} a.
Arguments Raise {A} e.

Definition bind {A B : Type} (r : result A) (k : A -> result B) : result B :=
  match r with
  | Ok a => k a
  | Raise e => Raise e
  end.

Definition of_option {A : Type} (e : exn) (o : option A) : result A :=
  match o with
  | Some a => Ok a
  | None => Raise e
  end.

End Py.

Notation "x <- c1 ;; c2" := (Py.bind c1 (fun x => c2))
  (at level 61, c1 at next level, right associativity).

(* ================================================================== *)
(** * Data frames *)
(* ================================================================== *)

Module Frame.
Import Py.

(** A scalar of a column. *)
Inductive scalar : Type :=
| SBool (b : bool)
| SInt (z : Z)
| SNum (q : Q).

(** A column with its dtype.  Missing values are outside the model. *)
Inductive Series : Type :=
| BoolCol (l : list bool)
| IntCol (l : list Z)
| NumCol (l : list Q).

(** A table: its named columns, in column order. *)
Definition DataFrame : Type := list (string * Series).

Definition series_length (s : Series) : nat :=
  match s with
  | BoolCol l => length l
  | IntCol l => length l
  | NumCol l => length l
  end.

Definition columns {S : Type} (df : list (string * S)) : list string :=
  map fst df.

(** [df[c]] as an expression; [None] is Python's [KeyError].  The column
    names of a table are taken to be distinct ([df[c]] on a repeated name is
    a frame, which is not modelled). *)
Fixpoint get_column {S : Type} (df : list (string * S)) (c : string)
  : option S :=
  match df with
  | [] => None
  | (c', s) :: df' => if String.eqb c' c then Some s else get_column df' c
  end.

(** [df[c] = s]: replaces the column in place when it exists, else appends
    it as the last column. *)
Fixpoint set_column {S : Type} (df : list (string * S)) (c : string) (s : S)
  : list (string * S) :=
  match df with
  | [] => [(c, s)]
  | (c', s') :: df' =>
      if String.eqb c' c then (c', s) :: df'
      else (c', s') :: set_column df' c s
  end.

Definition nrows (df : DataFrame) : nat :=
  match df with
  | [] => O
  | (_, s) :: _ => series_length s
  end.

End Frame.

(* ================================================================== *)
(** * Interval scorer: [find_interval_score] *)
(* ================================================================== *)

Module Interval.
Import Py Frame.

Definition interval_no_column : string := "interval_no".

Definition greater_than_threshold (score_column : string) : string :=
  String.append score_column "_greater_than_threshold".

Definition int_of_bool (b : bool) : Z := if b then 1 else 0.

(** [Series.diff()]: the first entry is missing; on a boolean column the
    others are the exclusive or with the previous row, on a numeric column
    the difference to it. *)
Fixpoint diff_bool (prev : bool) (l : list bool) : list (option scalar) :=
  match l with
  | [] => []
  | b :: l' => Some (SBool (xorb b prev)) :: diff_bool b l'
  end.

Fixpoint diff_int (prev : Z) (l : list Z) : list (option scalar) :=
  match l with
  | [] => []
  | z :: l' => Some (SNum (inject_Z (z - prev))) :: diff_int z l'
  end.

Fixpoint diff_num (prev : Q) (l : list Q) : list (option scalar) :=
  match l with
  | [] => []
  | q :: l' => Some (SNum (q - prev)%Q) :: diff_num q l'
  end.

Definition diff (s : Series) : list (option scalar) :=
  match s with
  | BoolCol [] | IntCol [] | NumCol [] => []
  | BoolCol (b :: l) => None :: diff_bool b l
  | IntCol (z :: l) => None :: diff_int z l
  | NumCol (q :: l) => None :: diff_num q l
  end.

(** [out.iloc[0] = v]. *)
Definition iloc0_set (out : list (option scalar)) (v : scalar)
  : result (list (option scalar)) :=
  match out with
  | [] => Raise IndexError
  | _ :: out' => Ok (Some v :: out')
  end.

(** [astype(int)] of one value: booleans become 0/1, floats are truncated
    towards zero, a missing value cannot be converted. *)
Definition int_of_scalar (v : option scalar) : result Z :=
  match v with
  | None => Raise (ValueError "cannot convert missing value to integer")
  | Some (SBool b) => Ok (int_of_bool b)
  | Some (SInt z) => Ok z
  | Some (SNum q) => Ok (Z.quot (Qnum q) (Zpos (Qden q)))
  end.

Fixpoint astype_int (out : list (option scalar)) : result (list Z) :=
  match out with
  | [] => Ok []
  | v :: out' =>
      z <- int_of_scalar v ;;
      zs <- astype_int out' ;;
      Ok (z :: zs)
  end.

(** [cumsum()]: inclusive running sum. *)
Fixpoint cumsum_from (acc : Z) (l : list Z) : list Z :=
  match l with
  | [] => []
  | x :: l' => (acc + x) :: cumsum_from (acc + x) l'
  end.

Definition cumsum (l : list Z) : list Z := cumsum_from 0 l.

(** [df[score_column] >= threshold], row by row. *)
Definition ge_threshold (s : Series) (threshold : Q) : list bool :=
  match s with
  | BoolCol l => map (fun b => Qle_bool threshold (inject_Z (int_of_bool b))) l
  | IntCol l => map (fun z => Qle_bool threshold (inject_Z z)) l
  | NumCol l => map (fun q => Qle_bool threshold q) l
  end.

(** Group keys of [groupby]: the distinct key values in ascending order. *)
Fixpoint insert_key (k : Z) (keys : list Z) : list Z :=
  match keys with
  | [] => [k]
  | k' :: keys' =>
      if k <? k' then k :: k' :: keys'
      else if k =? k' then k' :: keys'
      else k' :: insert_key k keys'
  end.

Definition group_keys (ids : list Z) : list Z :=
  fold_right insert_key [] ids.

(** The values of the rows whose key is [k], in row order. *)
Definition select {A : Type} (ids : list Z) (vals : list A) (k : Z) : list A :=
  map snd (filter (fun p => fst p =? k) (combine ids vals)).

Definition max_bool (l : list bool) : bool := existsb (fun b => b) l.

Definition max_Z (l : list Z) : Z :=
  match l with
  | [] => 0
  | z :: l' => fold_left Z.max l' z
  end.

Definition Qmax (a b : Q) : Q := if Qle_bool a b then b else a.

Definition max_Q (l : list Q) : Q :=
  match l with
  | [] => 0%Q
  | q :: l' => fold_left Qmax l' q
  end.

(** [df.groupby(key)[column].max()]: one value per group, groups in key
    order; the dtype of the column is kept. *)
Definition groupby_max (ids : list Z) (s : Series) : Series :=
  match s with
  | BoolCol l => BoolCol (map (fun k => max_bool (select ids l k)) (group_keys ids))
  | IntCol l => IntCol (map (fun k => max_Z (select ids l k)) (group_keys ids))
  | NumCol l => NumCol (map (fun k => max_Q (select ids l k)) (group_keys ids))
  end.

(** [find_interval_score(df, label_column, score_column, threshold)].
    The caller's [df] is modified in place (two helper columns), so the
    result is the pair of the caller's table after the call and the
    returned [interval_df]. *)
Definition find_interval_score
  (df : DataFrame) (label_column score_column : string) (threshold : Q)
  : result (DataFrame * DataFrame) :=
  labels <- of_option KeyError (get_column df label_column) ;;
  out <- iloc0_set (diff labels) (SBool false) ;;
  out <- astype_int out ;;
  let ids := cumsum out in
  let df := set_column df interval_no_column (IntCol ids) in
  scores <- of_option KeyError (get_column df score_column) ;;
  let df := set_column df (greater_than_threshold score_column)
                       (BoolCol (ge_threshold scores threshold)) in
  (* by_interval = df.groupby(interval_no_column): the key column holds
     [ids], the second helper name never being interval_no *)
  labels <- of_option KeyError (get_column df label_column) ;;
  let interval_label := groupby_max ids labels in
  flags <- of_option KeyError
             (get_column df (greater_than_threshold score_column)) ;;
  let interval_score := groupby_max ids flags in
  (* concat, then reset_index(drop=False): the index becomes the first
     column and must not clash with an existing column name *)
  if String.eqb label_column interval_no_column
     || String.eqb score_column interval_no_column
  then Raise (ValueError "cannot insert interval_no, already exists")
  else Ok (df, [(interval_no_column, IntCol (group_keys ids));
                (label_column, interval_label);
                (score_column, interval_score)]).

(** ** Specification vocabulary: maximal runs of equal labels *)

(** The rows split into runs of consecutive rows with equal label, each
    run paired with its label. *)
Fixpoint runs_of {A : Type} (rows : list (bool * A))
  : list (bool * list (bool * A)) :=
  match rows with
  | [] => []
  | r :: rows' =>
      match runs_of rows' with
      | [] => [(fst r, [r])]
      | (b, run) :: rest =>
          if Bool.eqb (fst r) b then (b, r :: run) :: rest
          else (fst r, [r]) :: (b, run) :: rest
      end
  end.

Fixpoint alternating (bs : list bool) : Prop :=
  match bs with
  | b1 :: ((b2 :: _) as bs') => b1 <> b2 /\ alternating bs'
  | _ => True
  end.

(** [runs] are the maximal runs of [rows]: they concatenate to [rows], each
    is non-empty with one constant label, and neighbouring runs have
    different labels. *)
Definition maximal_runs {A : Type} (rows : list (bool * A))
  (runs : list (bool * list (bool * A))) : Prop :=
  concat (map snd runs) = rows
  /\ Forall (fun br => snd br <> [] /\ Forall (fun r => fst r = fst br) (snd br)) runs
  /\ alternating (map fst runs).

(** [c, c+1, ..., c+n-1]. *)
Fixpoint zrange (c : Z) (n : nat) : list Z :=
  match n with
  | O => []
  | S n' => c :: zrange (c + 1) n'
  end.

(** The inclusive running count of label transitions, row by row, after a
    row with label [prev] and count [c]. *)
Fixpoint transition_count (c : Z) (prev : bool) (labels : list bool) : list Z :=
  match labels with
  | [] => []
  | b :: labels' =>
      let c' := if Bool.eqb b prev then c else c + 1 in
      c' :: transition_count c' b labels'
  end.

(** The interval id of every row; the first row counts as no transition. *)
Definition interval_ids (labels : list bool) : list Z :=
  match labels with
  | [] => []
  | b :: labels' => 0 :: transition_count 0 b labels'
  end.

Definition hit (threshold : Q) (r : bool * Q) : bool :=
  Qle_bool threshold (snd r).

End Interval.

(* ================================================================== *)
(** * Rolling predictions: the train-predict loop of [main] *)
(* ================================================================== *)

Module Rolling.
Import Py Frame.

(** Python's [l[start:stop]] and [df.iloc[start:stop]]: a negative bound
    counts from the end, and bounds are clipped to the length. *)
Definition slice_bound (n x : Z) : Z :=
  if x <? 0 then Z.max (x + n) 0 else Z.min x n.

Definition iloc {A : Type} (l : list A) (start stop : Z) : list A :=
  let n := Z.of_nat (length l) in
  skipn (Z.to_nat (slice_bound n start))
        (firstn (Z.to_nat (slice_bound n stop)) l).

(** [range(n)]. *)
Definition range (n : Z) : list Z := map Z.of_nat (seq 0 (Z.to_nat n)).

(** [not steps] for [steps] being [None] or an integer. *)
Definition falsy (steps : option Z) : bool :=
  match steps with
  | None => true
  | Some z => z =? 0
  end.

(** The class [P] of module-level parameters. *)
Record Params : Type := mkParams {
  feature_sets : list string;
  algorithms : list string;
  kline_train_length : Z;
  futur_train_length : Z;
  prediction_length : Z;
  prediction_count : option Z;
  use_multiprocessing : bool;
  max_workers : option Z      (* [None]: the number of processors *)
}.

(** What [main] reads from [App.config]. *)
Record Config : Type := mkConfig {
  label_horizon : Z;
  labels : list string;
  features_kline : list string;
  features_futur : list string
}.

(** The spans of one iteration for one feature set, as row positions. *)
Record WindowDescriptor : Type := mkWindow {
  train_start : Z;
  train_end : Z;
  predict_start : Z;
  predict_end : Z
}.

Definition steps_too_high : string :=
  "Number of steps is too high (not enough data after start)".

Definition length_mismatch : string :=
  "Length of values does not match length of index".

Definition bad_max_workers : string :=
  "max_workers must be greater than 0".

(** [ProcessPoolExecutor(max_workers=P.max_workers)]: the constructor
    rejects a pool size that is not positive. *)
Definition executor (p : Params) : result unit :=
  match max_workers p with
  | Some w => if w <=? 0 then Raise (ValueError bad_max_workers) else Ok tt
  | None => Ok tt
  end.

(** Lines 140-146: the number of steps, and the check that the data after
    [prediction_start] suffices.  [n] is [len(df)]. *)
Definition effective_steps (p : Params) (n prediction_start : Z) : result Z :=
  let stride := prediction_length p in
  if falsy (prediction_count p) then
    if stride =? 0 then Raise ZeroDivisionError
    else Ok ((n - prediction_start) / stride)
  else
    match prediction_count p with
    | Some steps => Ok steps
    | None => Ok 0
    end.

Definition configure (p : Params) (n prediction_start : Z) : result Z :=
  steps <- effective_steps p n prediction_start ;;
  if n - prediction_start <? steps * prediction_length p
  then Raise (ValueError steps_too_high)
  else Ok steps.

(** Lines 159-160 and 187-189: the spans computed in iteration [step]
    for a feature set with the given [train_length]. *)
Definition step_predict_start (p : Params) (prediction_start step : Z) : Z :=
  prediction_start + step * prediction_length p.

Definition step_predict_end (p : Params) (prediction_start step : Z) : Z :=
  step_predict_start p prediction_start step + prediction_length p.

Definition step_train_end (c : Config) (predict_start : Z) : Z :=
  predict_start - label_horizon c - 1.

Definition step_train_start (train_end train_length : Z) : Z :=
  let train_start := train_end - train_length in
  if train_start <? 0 then 0 else train_start.

Definition window (p : Params) (c : Config) (prediction_start train_length step : Z)
  : WindowDescriptor :=
  let predict_start := step_predict_start p prediction_start step in
  let train_end := step_train_end c predict_start in
  mkWindow (step_train_start train_end train_length) train_end
           predict_start (step_predict_end p prediction_start step).

(** The windows of the loop [for step in range(steps)]. *)
Definition windows (p : Params) (c : Config) (prediction_start train_length steps : Z)
  : list WindowDescriptor :=
  map (window p c prediction_start train_length) (range steps).

(** The order in which the tasks submitted to one pool complete: the
    entries of [order] that name a submitted task, then (the pool is shut
    down with [wait=True]) every remaining task. *)
Definition completion_order (order : list nat) (n : nat) : list nat :=
  let named := nodup Nat.eq_dec (filter (fun i => Nat.ltb i n) order) in
  named ++ filter (fun i => negb (existsb (Nat.eqb i) named)) (seq 0 n).

Section Main.

(** A row of the feature matrix and a predicted score. *)
Variable Row : Type.
Variable Pred : Type.

(** A score line of the report. *)
Variable Score : Type.

(** [dropna(subset=features)] drops the rows for which this holds. *)
Variable has_na : list string -> Row -> bool.

(** The trainer adapters [train_predict_gb], [train_predict_nn] and
    [train_predict_lc] of [common.classifiers] with their model
    configuration [get_model(algorithm)]:
    [train_predict algorithm features label train_rows test_rows] stands for
    [train_predict_<algorithm>(df_X, df_y, df_X_test, get_model(algorithm))]
    with [df_X = train_df[features]], [df_y = train_df[label]] and
    [df_X_test = predict_df[features]].  It returns an array of
    predictions or raises. *)
Variable train_predict :
  string -> list string -> string -> list Row -> list Row -> result (list Pred).

(** A table of predictions over the rows [frame_index]. *)
Record PredFrame : Type := mkFrame {
  frame_index : list Z;
  frame_columns : list (string * list Pred)
}.

(** [compute_scores] and the formatting of one report line for a
    prediction column of the accumulated table. *)
Variable compute_scores : string -> list PredFrame -> result Score.

(** Observable events of a run. *)
Inductive Event : Type :=
| Trained (step : Z) (column : string)          (* a train-predict task ran *)
| StoredPredictions (frames : list PredFrame)   (* [out_df.to_csv] *)
| AppendedScores (lines : list Score).          (* the report file *)

(** Computations that log events and may raise. *)
Definition M (A : Type) : Type := list Event * result A.

Definition ret {A : Type} (a : A) : M A := ([], Ok a).

Definition raise {A : Type} (e : exn) : M A := ([], Raise e).

Definition log (ev : list Event) : M unit := (ev, Ok tt).

Definition lift {A : Type} (r : result A) : M A := ([], r).

Definition mbind {A B : Type} (m : M A) (k : A -> M B) : M B :=
  match m with
  | (t, Ok a) => let (t', r) := k a in (t ++ t', r)
  | (t, Raise e) => (t, Raise e)
  end.

Notation "x <~ c1 ;; c2" := (mbind c1 (fun x => c2))
  (at level 61, c1 at next level, right associativity).

(** A [for] loop threading a value. *)
Fixpoint for_each {A B : Type} (l : list A) (body : B -> A -> M B) (acc : B)
  : M B :=
  match l with
  | [] => ret acc
  | x :: l' => acc' <~ body acc x ;; for_each l' body acc'
  end.

(** [predict_labels_df[name] = y_hat] for an array [y_hat]. *)
Definition assign (df : PredFrame) (name : string) (y_hat : list Pred)
  : M PredFrame :=
  if Nat.eqb (length y_hat) (length (frame_index df))
  then ret (mkFrame (frame_index df) (set_column (frame_columns df) name y_hat))
  else raise (ValueError length_mismatch).

Definition mem (a : string) (l : list string) : bool :=
  existsb (String.eqb a) l.

(** The algorithms of one label in the order of the three [if] blocks. *)
Definition enabled_algorithms (p : Params) : list string :=
  filter (fun a => mem a (algorithms p)) ["gb"; "nn"; "lc"]%string.

Definition score_column_name (label name_tag algorithm : string) : string :=
  String.append label (String.append name_tag algorithm).

Section Label.

Variable p : Params.
Variable schedule : option Z -> Z -> string -> string -> list nat.
Variable step : Z.
Variable features : list string.
Variable name_tag : string.
Variable train_df predict_df : list Row.
Variable label : string.

Definition task (algorithm : string) : result (list Pred) :=
  train_predict algorithm features label train_df predict_df.

(** The pool: the submitted tasks run in worker processes and complete in
    some order; each completed task is recorded under its future. *)
Definition completed (tasks : list string) : list (nat * string * result (list Pred)) :=
  flat_map
    (fun i => match nth_error tasks i with
              | Some a => [(i, a, task a)]
              | None => []
              end)
    (completion_order (schedule (max_workers p) step name_tag label)
                      (length tasks)).

(** [future.result()] of the [i]-th submitted task: its value, or its
    exception raised again (so the [if future.exception()] after it never
    fires). *)
Definition future_result (done : list (nat * string * result (list Pred))) (i : nat)
  : result (list Pred) :=
  match find (fun d => Nat.eqb (fst (fst d)) i) done with
  | Some (_, _, r) => r
  | None => Raise (OtherError "CancelledError")
  end.

(** [execution_results.items()]: the futures in submission order. *)
Fixpoint items (i : nat) (tasks : list string) : list (string * nat) :=
  match tasks with
  | [] => []
  | a :: tasks' => (score_column_name label name_tag a, i) :: items (S i) tasks'
  end.

(** The body of [for label in labels]. *)
Definition train_predict_label (predict_labels_df : PredFrame) : M PredFrame :=
  if use_multiprocessing p then
    _ <~ lift (executor p) ;;
    let tasks := enabled_algorithms p in
    let done := completed tasks in
    _ <~ log (map (fun d => Trained step
                              (score_column_name label name_tag (snd (fst d))))
                  done) ;;
    for_each (items 0 tasks)
      (fun df item =>
         y_hat <~ lift (future_result done (snd item)) ;;
         assign df (fst item) y_hat)
      predict_labels_df
  else
    for_each (enabled_algorithms p)
      (fun df a =>
         _ <~ log [Trained step (score_column_name label name_tag a)] ;;
         y_hat <~ lift (task a) ;;
         assign df (score_column_name label name_tag a) y_hat)
      predict_labels_df.

End Label.

Section Step.

Variable p : Params.
Variable c : Config.
Variable schedule : option Z -> Z -> string -> string -> list nat.
Variable df : list Row.
Variable prediction_start : Z.

(** One feature-set block of an iteration. *)
Definition feature_set_block (step : Z) (features : list string)
  (name_tag : string) (train_length : Z) (predict_df : list Row)
  (predict_labels_df : PredFrame) : M PredFrame :=
  let w := window p c prediction_start train_length step in
  let train_df := iloc df (train_start w) (train_end w) in
  let train_df := filter (fun r => negb (has_na features r)) train_df in
  for_each (labels c)
    (fun acc label =>
       train_predict_label p schedule step features name_tag
                           train_df predict_df label acc)
    predict_labels_df.

(** The per-window prediction table of iteration [step]. *)
Definition predict_window (step : Z) : M PredFrame :=
  let predict_start := step_predict_start p prediction_start step in
  let predict_end := step_predict_end p prediction_start step in
  let predict_df := iloc df predict_start predict_end in
  let index := iloc (range (Z.of_nat (length df))) predict_start predict_end in
  let predict_labels_df := mkFrame index [] in
  predict_labels_df <~
    (if mem "kline" (feature_sets p)
     then feature_set_block step (features_kline c) "_k_"
                            (kline_train_length p) predict_df predict_labels_df
     else ret predict_labels_df) ;;
  if mem "futur" (feature_sets p)
  then feature_set_block step (features_futur c) "_f_"
                         (futur_train_length p) predict_df predict_labels_df
  else ret predict_labels_df.

(** The loop over the steps: each window's table is appended below the
    tables of the earlier windows; the accumulated table is kept as the
    list of its row blocks. *)
Definition rolling_loop (steps : Z) : M (list PredFrame) :=
  for_each (range steps)
    (fun labels_hat_df step =>
       predict_labels_df <~ predict_window step ;;
       ret (labels_hat_df ++ [predict_labels_df]))
    [].

(** The columns of the accumulated table; every window of a run has the
    same columns. *)
Definition hat_columns (labels_hat_df : list PredFrame) : list string :=
  match labels_hat_df with
  | [] => []
  | f :: _ => columns (frame_columns f)
  end.

(** [main] from the rolling loop on: configuration check, loop, storing
    the predictions, then the score report. *)
Definition main : M unit :=
  steps <~ lift (configure p (Z.of_nat (length df)) prediction_start) ;;
  labels_hat_df <~ rolling_loop steps ;;
  _ <~ log [StoredPredictions labels_hat_df] ;;
  score_lines <~ for_each (hat_columns labels_hat_df)
                   (fun lines name =>
                      line <~ lift (compute_scores name labels_hat_df) ;;
                      ret (lines ++ [line]))
                   [] ;;
  log [AppendedScores score_lines].

End Step.

(** ** Specification vocabulary *)

(** The feature-set blocks an iteration runs, in order: features, name
    tag, train length. *)
Definition feature_set_blocks (p : Params) (c : Config)
  : list (list string * string * Z) :=
  (if mem "kline" (feature_sets p)
   then [(features_kline c, "_k_"%string, kline_train_length p)] else [])
  ++ (if mem "futur" (feature_sets p)
      then [(features_futur c, "_f_"%string, futur_train_length p)] else []).

(** What the train-predict task of one (window, feature set, label,
    algorithm) returns. *)
Definition window_task (p : Params) (c : Config) (df : list Row)
  (prediction_start step : Z) (block : list string * string * Z)
  (label algorithm : string) : result (list Pred) :=
  let '(features, _, train_length) := block in
  let w := window p c prediction_start train_length step in
  train_predict algorithm features label
    (filter (fun r => negb (has_na features r))
            (iloc df (train_start w) (train_end w)))
    (iloc df (predict_start w) (predict_end w)).

(** Some train-predict task of some window of the run raises. *)
Definition some_task_raises (p : Params) (c : Config) (df : list Row)
  (prediction_start steps : Z) : Prop :=
  exists step block label algorithm e,
    In step (range steps)
    /\ In block (feature_set_blocks p c)
    /\ In label (labels c)
    /\ In algorithm (enabled_algorithms p)
    /\ window_task p c df prediction_start step block label algorithm
       = Raise e.

(** A trace without output: nothing stored, no report written. *)
Definition is_training (ev : Event) : Prop :=
  match ev with
  | Trained _ _ => True
  | _ => False
  end.

Definition no_output (trace : list Event) : Prop := Forall is_training trace.

(** Column names in order of first assignment. *)
Definition add_name (cols : list string) (name : string) : list string :=
  if mem name cols then cols else cols ++ [name].

(** The (label, algorithm) pairs of a window in iteration order, as
    column names. *)
Definition iteration_names (p : Params) (c : Config) : list string :=
  flat_map
    (fun block : list string * string * Z =>
       flat_map
         (fun label =>
            map (score_column_name label (snd (fst block)))
                (enabled_algorithms p))
         (labels c))
    (feature_set_blocks p c).

Definition window_columns (p : Params) (c : Config) : list string :=
  fold_left add_name (iteration_names p c) [].

(** Every column has one value per row of the index. *)
Definition aligned (f : PredFrame) : Prop :=
  Forall (fun col => length (snd col) = length (frame_index f))
         (frame_columns f).

End Main.

(** The check a label's dispatch starts with: creating the pool. *)
Definition pool_check (p : Params) : result unit :=
  if use_multiprocessing p then executor p else Ok tt.

(** A worker-pool size the pool accepts. *)
Definition valid_pool_size (w : option Z) : Prop :=
  match w with
  | Some n => 0 < n
  | None => True
  end.


Arguments mkFrame {Pred}.
Arguments frame_index {Pred}.
Arguments frame_columns {Pred}.
Arguments Trained {Pred}.
Arguments StoredPredictions {Pred}.
Arguments AppendedScores {Pred Score}.
Arguments ret {Pred Score A}.
Arguments raise {Pred Score A}.
Arguments log {Pred Score}.
Arguments lift {Pred Score A}.
Arguments mbind {Pred Score A B}.
Arguments for_each {Pred Score A B}.
Arguments assign {Pred Score}.
Arguments task {Row Pred}.
Arguments completed {Row Pred}.
Arguments future_result {Pred}.
Arguments train_predict_label {Row Pred Score}.
Arguments feature_set_block {Row Pred Score}.
Arguments predict_window {Row Pred Score}.
Arguments rolling_loop {Row Pred Score}.
Arguments hat_columns {Pred}.
Arguments main {Row Pred Score}.
Arguments window_task {Row Pred}.
Arguments some_task_raises {Row Pred}.
Arguments is_training {Pred Score}.
Arguments no_output {Pred Score}.
Arguments aligned {Pred}.

End Rolling.

(* ================================================================== *)
(** * Trade simulator: vocabulary for the recorded trades *)
(* ================================================================== *)

Module TradeLog.
Import Trade.

(** The trades pair up: the k-th long closes the k-th short, the next short
    closes the k-th long, and a short is open exactly outside buy mode. *)
Record paired (s : State) : Prop := mkPaired {
  p_len : length (shorts s)
          = (length (longs s) + (if is_buy_mode s then 0 else 1))%nat;
  p_first : forall e, nth_error (shorts s) 0 = Some e -> ev_profit e = 0;
  p_long : forall k e, nth_error (longs s) k = Some e ->
             exists sh, nth_error (shorts s) k = Some sh
                        /\ ev_profit e = ev_price e - ev_price sh;
  p_short : forall k e, nth_error (shorts s) (S k) = Some e ->
              exists lo, nth_error (longs s) k = Some lo
                         /\ ev_profit e = ev_price lo - ev_price e
}.

(** The number of entries with a positive profit. *)
Definition profitable (l : list Event) : Z :=
  Z.of_nat (length (filter (fun e => 0 <? ev_profit e) l)).

(** [e] was recorded from the row [r] in mode [mode]. *)
Definition recorded_from (mode : bool) (e : Event) (r : Row) : Prop :=
  ev_index e = index r /\ ev_price e = price r /\ ev_mode e = mode.

(** The recorded events are taken from [rows]: shorts from rows with a buy
    signal, longs from rows with a sell signal. *)
Record sourced (rows : list Row) (s : State) : Prop := mkSourced {
  src_short : Forall (fun e => exists r, In r rows /\ bot_score r = true
                                         /\ recorded_from true e r)
                     (shorts s);
  src_long : Forall (fun e => exists r, In r rows /\ top_score r = true
                                        /\ recorded_from false e r)
                    (longs s);
  src_profitable_short : short_profitable s = profitable (shorts s);
  src_profitable_long : long_profitable s = profitable (longs s)
}.

End TradeLog.

(* ================================================================== *)
(** * The writes of the core into a table it is handed *)
(* ================================================================== *)

Module InPlace.
Import Py Frame Interval.

(** [find_interval_score] together with the state of the caller's table:
    the first component is [df] as the call leaves it, whether the call
    returns or raises, the second the outcome of the call.  The two
    assignments to [df] are the ones of lines 253 and 260; a statement
    that raises before line 253 leaves the table as it was, and one that
    raises later leaves what was written so far. *)
Definition find_interval_score_in_place
  (df : DataFrame) (label_column score_column : string) (threshold : Q)
  : DataFrame * result DataFrame :=
  match (labels <- of_option KeyError (get_column df label_column) ;;
         out <- iloc0_set (diff labels) (SBool false) ;;
         astype_int out) with
  | Raise e => (df, Raise e)
  | Ok out =>
      let ids := cumsum out in
      (* line 253 *)
      let df := set_column df interval_no_column (IntCol ids) in
      match get_column df score_column with
      | None => (df, Raise KeyError)
      | Some scores =>
          (* line 260 *)
          let df := set_column df (greater_than_threshold score_column)
                               (BoolCol (ge_threshold scores threshold)) in
          (df,
           labels <- of_option KeyError (get_column df label_column) ;;
           let interval_label := groupby_max ids labels in
           flags <- of_option KeyError
                      (get_column df (greater_than_threshold score_column)) ;;
           let interval_score := groupby_max ids flags in
           if String.eqb label_column interval_no_column
              || String.eqb score_column interval_no_column
           then Raise (ValueError "cannot insert interval_no, already exists")
           else Ok [(interval_no_column, IntCol (group_keys ids));
                    (label_column, interval_label);
                    (score_column, interval_score)])
      end
  end.

(** [s.astype(int)] of a column: booleans become 0/1, integers stay, floats
    are truncated towards zero (a column of the model holds no missing
    value, on which the conversion raises). *)
Definition astype_int_column (s : Series) : Series :=
  match s with
  | BoolCol l => IntCol (map int_of_bool l)
  | IntCol l => IntCol l
  | NumCol l => IntCol (map (fun q => Z.quot (Qnum q) (Zpos (Qden q))) l)
  end.

(** Lines 124-125 of [scripts/generate_rolling_predictions.py]:
    [for label in labels: df[label] = df[label].astype(int)],
    with the table as the loop leaves it, whether it ends or raises on a
    label that is not a column. *)
Fixpoint cast_labels (df : DataFrame) (labels : list string)
  : DataFrame * result unit :=
  match labels with
  | [] => (df, Ok tt)
  | label :: labels' =>
      match get_column df label with
      | None => (df, Raise KeyError)
      | Some s => cast_labels (set_column df label (astype_int_column s)) labels'
      end
  end.

(** The value of a column entry as a number ([True] is 1). *)
Definition values (s : Series) : list Q :=
  match s with
  | BoolCol l => map (fun b => inject_Z (int_of_bool b)) l
  | IntCol l => map inject_Z l
  | NumCol l => l
  end.

End InPlace.

(* ================================================================== *)
(** * Rolling predictions: the score report and the two dispatch modes *)
(* ================================================================== *)

Module Report.
Import Py Frame Rolling.

(** [s[0:-5]]: the string without its last five characters (empty when it
    has at most five). *)
Definition drop_last5 (s : string) : string :=
  substring 0 (String.length s - 5) s.

(** Line 363: the label column a score column is compared with. *)
Definition label_column_of (score_column_name : string) : string :=
  drop_last5 score_column_name.

(** The same parameters with [use_multiprocessing] set. *)
Definition with_multiprocessing (p : Params) (b : bool) : Params :=
  mkParams (feature_sets p) (algorithms p) (kline_train_length p)
           (futur_train_length p) (prediction_length p) (prediction_count p)
           b (max_workers p).

(** The events of a trace that write a file: the stored predictions and
    the appended score report. *)
Definition is_output {Pred Score : Type} (ev : Event Pred Score) : bool :=
  match ev with
  | Trained _ _ _ => false
  | _ => true
  end.

Definition outputs {Pred Score : Type} (trace : list (Event Pred Score))
  : list (Event Pred Score) :=
  filter is_output trace.

Section Tasks.

Variables Row Pred : Type.
Variable has_na : list string -> Row -> bool.
Variable train_predict :
  string -> list string -> string -> list Row -> list Row -> result (list Pred).

(** The train-predict task of one (window, feature set, label, algorithm)
    returns an array with one prediction per row of the window's
    prediction slice. *)
Definition task_returns (p : Params) (c : Config) (df : list Row)
  (prediction_start step : Z) (block : list string * string * Z)
  (label algorithm : string) : Prop :=
  exists y,
    window_task has_na train_predict p c df prediction_start step block
                label algorithm = Ok y
    /\ length y
       = length (iloc df (step_predict_start p prediction_start step)
                         (step_predict_end p prediction_start step)).

(** Every task of every window of the run does. *)
Definition all_tasks_return (p : Params) (c : Config) (df : list Row)
  (prediction_start steps : Z) : Prop :=
  forall step block label algorithm,
    In step (range steps) -> In block (feature_set_blocks p c) ->
    In label (labels c) -> In algorithm (enabled_algorithms p) ->
    task_returns p c df prediction_start step block label algorithm.

End Tasks.

Arguments task_returns {Row Pred}.
Arguments all_tasks_return {Row Pred}.

End Report.

(* ================================================================== *)
(** * Rule-based signals: the row predicates of [generate_signals] *)
(* ================================================================== *)

Module Signals.
Import Py Frame.

(** A value of a row: a number (a boolean counts as 0 or 1), the missing
    number [nan], or a value that is no number (a string, a timestamp). *)
Inductive Cell : Type :=
| Num (q : Q)
| NaN
| NotNumber.

(** A row handed to the predicate by [df.apply(fn, axis=1)]: its labelled
    values.  [row.get(field)] is [None] for a label the row does not
    have. *)
Definition Row : Type := list (string * Cell).

(** [model.items()]: the fields with their numeric thresholds, in the
    order of the dictionary. *)
Definition Model : Type := list (string * Q).

(** Comparing [None] or a value that is no number with a number. *)
Definition TypeError : exn := OtherError "TypeError".

(** [x >= value] and [x <= value] for [x = row.get(field)]; every
    comparison with [nan] is false. *)
Definition ge (x : option Cell) (value : Q) : result bool :=
  match x with
  | Some (Num q) => Ok (Qle_bool value q)
  | Some NaN => Ok false
  | Some NotNumber => Raise TypeError
  | None => Raise TypeError
  end.

Definition le (x : option Cell) (value : Q) : result bool :=
  match x with
  | Some (Num q) => Ok (Qle_bool q value)
  | Some NaN => Ok false
  | Some NotNumber => Raise TypeError
  | None => Raise TypeError
  end.

Fixpoint all_higher_fn (row : Row) (model : Model) : result Z :=
  match model with
  | [] => Ok 1
  | (field, value) :: model' =>
      b <- ge (get_column row field) value ;;
      if b then all_higher_fn row model' else Ok 0
  end.

Fixpoint all_lower_fn (row : Row) (model : Model) : result Z :=
  match model with
  | [] => Ok 1
  | (field, value) :: model' =>
      b <- le (get_column row field) value ;;
      if b then all_lower_fn row model' else Ok 0
  end.

(** The predicate chosen for a signal name; [None] is [fn = None]. *)
Definition signal_fn (signal : string) : option (Row -> Model -> result Z) :=
  if String.eqb signal "buy" then Some all_higher_fn
  else if String.eqb signal "sell" then Some all_lower_fn
  else None.

(** ** Specification vocabulary *)

(** The row has a number for the field and it reaches (stays under) the
    threshold. *)
Definition reaches (row : Row) (fv : string * Q) : Prop :=
  exists q, get_column row (fst fv) = Some (Num q) /\ (snd fv <= q)%Q.

Definition stays_under (row : Row) (fv : string * Q) : Prop :=
  exists q, get_column row (fst fv) = Some (Num q) /\ (q <= snd fv)%Q.

(** The row has a number or [nan] for the field. *)
Definition comparable (row : Row) (fv : string * Q) : Prop :=
  match get_column row (fst fv) with
  | Some (Num _) | Some NaN => True
  | _ => False
  end.

(** The comparisons as booleans, for a comparable field. *)
Definition reaches_b (row : Row) (fv : string * Q) : bool :=
  match get_column row (fst fv) with
  | Some (Num q) => Qle_bool (snd fv) q
  | _ => false
  end.

Definition stays_under_b (row : Row) (fv : string * Q) : bool :=
  match get_column row (fst fv) with
  | Some (Num q) => Qle_bool q (snd fv)
  | _ => false
  end.

End Signals.

(* ================================================================== *)
(** * Score aggregation: [generate_score_high_low] and
      [combined_relative_score] *)
(* ================================================================== *)

Module Scores.
Import Py Frame.

Section Columns.

(** A numeric column and the element-wise arithmetic of pandas on the
    columns of one table; the floating-point operations themselves are
    left abstract. *)
Variable Col : Type.
Variable add : Col -> Col -> Col.       (* [a + b] *)
Variable div : Col -> Col -> Col.       (* [a / b] *)
Variable div_by : Col -> Z -> Col.      (* [a / 9], [a / 3] *)
Variable times : Col -> Z -> Col.       (* [a * 2] *)
Variable minus : Col -> Q -> Col.       (* [a - 1.0] *)

Definition Table : Type := list (string * Col).

(** [df[name]] as an expression. *)
Definition col (df : Table) (name : string) : result Col :=
  of_option KeyError (get_column df name).

(** [df[n1] + df[n2] + ...], evaluated from left to right. *)
Fixpoint sum_from (df : Table) (acc : Col) (names : list string) : result Col :=
  match names with
  | [] => Ok acc
  | n :: names' => c <- col df n ;; sum_from df (add acc c) names'
  end.

Definition sum_columns (df : Table) (first : string) (others : list string)
  : result Col :=
  c <- col df first ;; sum_from df c others.

(** [((high / (high + low)) * 2) - 1.0]. *)
Definition relative (high low : Col) : Col :=
  minus (times (div high (add high low)) 2) 1.

(** [combined_relative_score]: returns the name of the column it wrote,
    with the table. *)
Definition combined_relative_score (df : Table)
  (buy_column sell_column buy_sell_column : string) : result (Table * string) :=
  b <- col df buy_column ;;
  s <- col df sell_column ;;
  let high_and_low := add b s in
  b' <- col df buy_column ;;
  let buy_sell_score := minus (times (div b' high_and_low) 2) 1 in
  Ok (set_column df buy_sell_column buy_sell_score, buy_sell_column).

(** [df[out] = (sum of the nine columns); df[out] /= 9]. *)
Definition average9 (df : Table) (out first : string) (others : list string)
  : result Table :=
  s <- sum_columns df first others ;;
  let df := set_column df out s in
  c <- col df out ;;
  Ok (set_column df out (div_by c 9)).

(** [df[out] = (a + b + c) / 3]. *)
Definition average3 (df : Table) (out first : string) (others : list string)
  : result Table :=
  s <- sum_columns df first others ;;
  Ok (set_column df out (div_by s 3)).

Definition kline_block (df : Table) : result Table :=
  df <- average9 df "high_k" "high_10_k_gb"
          ["high_10_k_nn"; "high_10_k_lc";
           "high_15_k_gb"; "high_15_k_nn"; "high_15_k_lc";
           "high_20_k_gb"; "high_20_k_nn"; "high_20_k_lc"]%string ;;
  df <- average9 df "low_k" "low_10_k_gb"
          ["low_10_k_nn"; "low_10_k_lc";
           "low_15_k_gb"; "low_15_k_nn"; "low_15_k_lc";
           "low_20_k_gb"; "low_20_k_nn"; "low_20_k_lc"]%string ;;
  df <- average3 df "high_k_nn" "high_10_k_nn"
          ["high_15_k_nn"; "high_20_k_nn"]%string ;;
  average3 df "low_k_nn" "low_10_k_nn" ["low_15_k_nn"; "low_20_k_nn"]%string.

Definition futur_block (df : Table) : result Table :=
  df <- average9 df "high_f" "high_10_f_gb"
          ["high_10_f_nn"; "high_10_f_lc";
           "high_15_f_gb"; "high_15_f_nn"; "high_15_f_lc";
           "high_20_f_gb"; "high_20_f_nn"; "high_20_f_lc"]%string ;;
  df <- average9 df "low_f" "low_10_f_gb"
          ["low_10_f_nn"; "low_10_f_lc";
           "low_15_f_gb"; "low_15_f_nn"; "low_15_f_lc";
           "low_20_f_gb"; "low_20_f_nn"; "low_20_f_lc"]%string ;;
  df <- average3 df "high_f_nn" "high_10_f_nn"
          ["high_15_f_nn"; "high_20_f_nn"]%string ;;
  average3 df "low_f_nn" "low_10_f_nn" ["low_15_f_nn"; "low_20_f_nn"]%string.

(** ["kline" in feature_sets] for a list of names. *)
Definition mem (a : string) (l : list string) : bool :=
  existsb (String.eqb a) l.

Definition generate_score_high_low (df : Table) (feature_sets : list string)
  : result Table :=
  df <- (if mem "kline" feature_sets then kline_block df else Ok df) ;;
  df <- (if mem "futur" feature_sets then futur_block df else Ok df) ;;
  high_k <- col df "high_k" ;;
  let df := set_column df "high" high_k in
  low_k <- col df "low_k" ;;
  let df := set_column df "low" low_k in
  high <- col df "high" ;;
  low <- col df "low" ;;
  let high_and_low := add high low in
  high' <- col df "high" ;;
  Ok (set_column df "score" (minus (times (div high' high_and_low) 2) 1)).

(** ** Specification vocabulary *)

Definition high_k_inputs : list string :=
  ["high_10_k_gb"; "high_10_k_nn"; "high_10_k_lc";
   "high_15_k_gb"; "high_15_k_nn"; "high_15_k_lc";
   "high_20_k_gb"; "high_20_k_nn"; "high_20_k_lc"]%string.

Definition low_k_inputs : list string :=
  ["low_10_k_gb"; "low_10_k_nn"; "low_10_k_lc";
   "low_15_k_gb"; "low_15_k_nn"; "low_15_k_lc";
   "low_20_k_gb"; "low_20_k_nn"; "low_20_k_lc"]%string.

Definition high_f_inputs : list string :=
  ["high_10_f_gb"; "high_10_f_nn"; "high_10_f_lc";
   "high_15_f_gb"; "high_15_f_nn"; "high_15_f_lc";
   "high_20_f_gb"; "high_20_f_nn"; "high_20_f_lc"]%string.

Definition low_f_inputs : list string :=
  ["low_10_f_gb"; "low_10_f_nn"; "low_10_f_lc";
   "low_15_f_gb"; "low_15_f_nn"; "low_15_f_lc";
   "low_20_f_gb"; "low_20_f_nn"; "low_20_f_lc"]%string.

Definition high_k_nn_inputs : list string :=
  ["high_10_k_nn"; "high_15_k_nn"; "high_20_k_nn"]%string.

Definition low_k_nn_inputs : list string :=
  ["low_10_k_nn"; "low_15_k_nn"; "low_20_k_nn"]%string.

Definition high_f_nn_inputs : list string :=
  ["high_10_f_nn"; "high_15_f_nn"; "high_20_f_nn"]%string.

Definition low_f_nn_inputs : list string :=
  ["low_10_f_nn"; "low_15_f_nn"; "low_20_f_nn"]%string.

(** The sum of the named columns of a table. *)
Definition total (df : Table) (names : list string) : result Col :=
  match names with
  | [] => Raise KeyError
  | first :: others => sum_columns df first others
  end.

(** What the last part of the function does to the table it finds:
    [high] and [low] are copies of [high_k] and [low_k], [score] is their
    relative score. *)
Definition finish (df : Table) : result Table :=
  hk <- col df "high_k" ;;
  lk <- col df "low_k" ;;
  Ok (set_column (set_column (set_column df "high" hk) "low" lk)
                 "score" (relative hk lk)).

(** The input columns the call reads. *)
Definition inputs (feature_sets : list string) : list string :=
  (if mem "kline" feature_sets then high_k_inputs ++ low_k_inputs
   else ["high_k"; "low_k"]%string)
  ++ (if mem "futur" feature_sets then high_f_inputs ++ low_f_inputs else []).

(** The columns the call writes, in the order of their first
    assignment. *)
Definition outputs (feature_sets : list string) : list string :=
  (if mem "kline" feature_sets
   then ["high_k"; "low_k"; "high_k_nn"; "low_k_nn"]%string else [])
  ++ (if mem "futur" feature_sets
      then ["high_f"; "low_f"; "high_f_nn"; "low_f_nn"]%string else [])
  ++ ["high"; "low"; "score"]%string.

Definition present (df : Table) (name : string) : Prop :=
  get_column df name <> None.

(** The table after the assignments [df[name] = value] of a list, in its
    order. *)
Definition write_all (df : Table) (values : list (string * Col)) : Table :=
  fold_left (fun d nv => set_column d (fst nv) (snd nv)) values df.

(** Two tables with the same columns under the given names. *)
Definition agree (df1 df2 : Table) (names : list string) : Prop :=
  Forall (fun n => get_column df1 n = get_column df2 n) names.

End Columns.

Arguments col {Col}.
Arguments present {Col}.
Arguments write_all {Col}.
Arguments agree {Col}.

(** Columns of exact rationals with the element-wise operations, as an
    instance of the abstract columns. *)
Definition QCol : Type := list Q.

Definition qzip (f : Q -> Q -> Q) (a b : QCol) : QCol :=
  map (fun xy => f (fst xy) (snd xy)) (combine a b).

Definition q_add : QCol -> QCol -> QCol := qzip Qplus.
Definition q_div : QCol -> QCol -> QCol := qzip Qdiv.
Definition q_div_by (a : QCol) (z : Z) : QCol :=
  map (fun x => (x / inject_Z z)%Q) a.
Definition q_times (a : QCol) (z : Z) : QCol :=
  map (fun x => (x * inject_Z z)%Q) a.
Definition q_minus (a : QCol) (q : Q) : QCol := map (fun x => (x - q)%Q) a.

(** A table with the given columns, all holding [value]. *)
Definition constant_table (names : list string) (value : QCol)
  : Table QCol :=
  map (fun n => (n, value)) names.

End Scores.

(* ================================================================== *)
(** * Model store: [get_model] and [load_models] *)
(* ================================================================== *)

Module ModelStore.
Import Py Frame.

(** The values of the model descriptions: [None], booleans, integers,
    decimal numbers (the literal, as an exact rational), strings, lists and
    dictionaries. *)
#[warnings="-register-all"]
Inductive Value : Type :=
| VNone
| VBool (b : bool)
| VInt (z : Z)
| VFloat (q : Q)
| VStr (s : string)
| VList (l : list Value)
| VDict (d : list (string * Value)).

Definition Dict : Type := list (string * Value).

(** Raised by [next] on an exhausted generator. *)
Definition StopIteration : exn := OtherError "StopIteration".

(** [x.get(key)]: [None] for a missing key. *)
Definition get (x : Dict) (key : string) : Value :=
  match get_column x key with
  | Some v => v
  | None => VNone
  end.

(** [v == name] for a string [name]. *)
Definition eq_str (v : Value) (name : string) : bool :=
  match v with
  | VStr s => String.eqb s name
  | _ => false
  end.

(** [int(1.5 * 525_600)], [int(1.0 * 525_600)] and [int(0.5 * 525_600)]:
    the products are whole numbers. *)
Definition minutes_18_months : Z := 788400.
Definition minutes_12_months : Z := 525600.
Definition minutes_6_months : Z := 262800.

Definition train (is_scale : bool) (length : Z) : Value :=
  VDict [("is_scale"%string, VBool is_scale); ("length"%string, VInt length);
         ("shifts"%string, VList [])].

Definition nn_params (n_epochs : Z) : Value :=
  VDict [("layers"%string, VList [VInt 29]);
         ("learning_rate"%string, VFloat (1 # 1000));
         ("n_epochs"%string, VInt n_epochs);
         ("bs"%string, VInt 128)].

(** The module-level list [models]. *)
Definition models : list Dict :=
  [ [("name", VStr "nn"); ("algo", VStr "nn");
     ("params", nn_params 15);
     ("train", train true minutes_18_months);
     ("predict", VDict [("length", VStr "1w")])];
    [("name", VStr "lc"); ("algo", VStr "lc");
     ("params", VDict [("penalty", VStr "l2"); ("C", VFloat 1);
                       ("class_weight", VNone); ("solver", VStr "sag");
                       ("max_iter", VInt 200)]);
     ("train", train true minutes_18_months);
     ("predict", VDict [("length", VInt 1440)])];
    [("name", VStr "gb"); ("algo", VStr "gb");
     ("params", VDict [("objective", VStr "cross_entropy");
                       ("max_depth", VInt 1);
                       ("learning_rate", VFloat (1 # 100));
                       ("num_boost_round", VInt 1500);
                       ("lambda_l1", VFloat 1); ("lambda_l2", VFloat 1)]);
     ("train", train false minutes_18_months);
     ("predict", VDict [("length", VInt 1440)])];
    [("name", VStr "nn_long"); ("algo", VStr "nn");
     ("params", nn_params 20);
     ("train", train true minutes_18_months);
     ("predict", VDict [("length", VInt 0)])];
    [("name", VStr "nn_middle"); ("algo", VStr "nn");
     ("params", nn_params 20);
     ("train", train true minutes_12_months);
     ("predict", VDict [("length", VInt 0)])];
    [("name", VStr "nn_short"); ("algo", VStr "nn");
     ("params", nn_params 20);
     ("train", train true minutes_6_months);
     ("predict", VDict [("length", VInt 0)])]
  ]%string.

(** [next(x for x in l if x.get("name") == name)]. *)
Fixpoint next_named (l : list Dict) (name : string) : result Dict :=
  match l with
  | [] => Raise StopIteration
  | x :: l' =>
      if eq_str (get x "name") name then Ok x else next_named l' name
  end.

Definition get_model (name : string) : result Dict :=
  next_named models name.

(** [itertools.product(labels, train_features, algorithms)]: the last
    component varies fastest. *)
Definition product (labels train_features algorithms : list string)
  : list (string * string * string) :=
  flat_map
    (fun label =>
       flat_map
         (fun train_feature =>
            map (fun algorithm => (label, train_feature, algorithm))
                algorithms)
         train_features)
    labels.

(** [s[0]] for a string. *)
Definition first_char (s : string) : result string :=
  match s with
  | EmptyString => Raise IndexError
  | String ch _ => Ok (String ch EmptyString)
  end.

(** [predicted_label[0] + "_" + predicted_label[1][0] + "_" +
    predicted_label[2]]. *)
Definition score_column_name (predicted_label : string * string * string)
  : result string :=
  let '(label, train_feature, algorithm) := predicted_label in
  ch <- first_char train_feature ;;
  Ok (String.append
        (String.append (String.append (String.append label "_") ch) "_")
        algorithm).

Section Load.

(** A loaded model pair, and [load_model_pair(model_path, name)] for the
    [model_path] of the call: it reads two files and returns the pair or
    raises. *)
Variable Pair : Type.
Variable load_model_pair : string -> result Pair.

(** The loop of [load_models] from a dictionary filled so far. *)
Fixpoint load_from (models : list (string * Pair))
  (todo : list (string * string * string)) : result (list (string * Pair)) :=
  match todo with
  | [] => Ok models
  | predicted_label :: todo' =>
      name <- score_column_name predicted_label ;;
      model_pair <- load_model_pair name ;;
      load_from (set_column models name model_pair) todo'
  end.

Definition load_models (labels train_features algorithms : list string)
  : result (list (string * Pair)) :=
  load_from [] (product labels train_features algorithms).

(** ** Specification vocabulary *)

(** The combination has a name and its model pair loads. *)
Definition loads (predicted_label : string * string * string) : Prop :=
  exists name pair,
    score_column_name predicted_label = Ok name
    /\ load_model_pair name = Ok pair.

(** What a dictionary of model pairs may hold: pairs loaded under the
    name of one of the combinations [all]. *)
Definition sound (all : list (string * string * string))
  (m : list (string * Pair)) : Prop :=
  forall n p, get_column m n = Some p ->
              load_model_pair n = Ok p
              /\ exists t, In t all /\ score_column_name t = Ok n.

End Load.

(** The names under which a model description is registered. *)
Definition registered : list string :=
  ["nn"; "lc"; "gb"; "nn_long"; "nn_middle"; "nn_short"]%string.

(** The feature sets the rolling predictions run, by name and in order. *)
Definition trained_feature_sets (p : Rolling.Params) : list string :=
  (if Rolling.mem "kline" (Rolling.feature_sets p) then ["kline"%string]
   else [])
  ++ (if Rolling.mem "futur" (Rolling.feature_sets p) then ["futur"%string]
      else []).

End ModelStore.

(* ================================================================== *)
(** * Threshold features: [add_threshold_feature] *)
(* ================================================================== *)

Module Thresholds.
Import Py Frame Interval.

(** [df[column_name] <= threshold], row by row. *)
Definition le_threshold (s : Series) (threshold : Q) : list bool :=
  match s with
  | BoolCol l => map (fun b => Qle_bool (inject_Z (int_of_bool b)) threshold) l
  | IntCol l => map (fun z => Qle_bool (inject_Z z) threshold) l
  | NumCol l => map (fun q => Qle_bool q threshold) l
  end.

(** [threshold > 0.0] and [abs(threshold) >= 0.75]. *)
Definition positive (threshold : Q) : bool := negb (Qle_bool threshold 0).

Definition large (threshold : Q) : bool := Qle_bool (3 # 4) (Qabs threshold).

(** The column assigned for one threshold. *)
Definition flag (column : Series) (threshold : Q) : Series :=
  if positive threshold then
    if large threshold then BoolCol (ge_threshold column threshold)
    else BoolCol (le_threshold column threshold)
  else
    if large threshold then BoolCol (le_threshold column threshold)
    else BoolCol (ge_threshold column threshold).

(** The loop [for i, threshold in enumerate(thresholds)], from index [i]. *)
Fixpoint loop (df : DataFrame) (column_name : string) (i : nat)
  (thresholds : list Q) (out_names : list string) : result DataFrame :=
  match thresholds with
  | [] => Ok df
  | threshold :: thresholds' =>
      out_name <- of_option IndexError (nth_error out_names i) ;;
      column <- of_option KeyError (get_column df column_name) ;;
      loop (set_column df out_name (flag column threshold)) column_name
           (S i) thresholds' out_names
  end.

(** The table after the call, and the returned list of names. *)
Definition add_threshold_feature (df : DataFrame) (column_name : string)
  (thresholds : list Q) (out_names : list string)
  : result (DataFrame * list string) :=
  df' <- loop df column_name 0 thresholds out_names ;;
  Ok (df', out_names).

(** ** Specification vocabulary *)

(** The names the call assigns: one per threshold. *)
Definition written (thresholds : list Q) (out_names : list string)
  : list string :=
  firstn (length thresholds) out_names.

(** The column with every value negated. *)
Definition negate (s : Series) : Series :=
  match s with
  | BoolCol l => IntCol (map (fun b => - int_of_bool b) l)
  | IntCol l => IntCol (map Z.opp l)
  | NumCol l => NumCol (map Qopp l)
  end.

End Thresholds.

(* ================================================================== *)
(** * Properties of the trade simulator *)
(* ================================================================== *)

Module TradeProofs.
Import Trade.

Lemma last_price_snoc (l : list Event) (e : Event) :
  last_price (l ++ [e]) = Some (ev_price e).
Proof. unfold last_price. rewrite rev_app_distr. reflexivity. Qed.

Lemma last_price_none (l : list Event) :
  last_price l = None <-> l = [].
Proof.
  unfold last_price. split.
  - destruct (rev l) eqn:E; [|discriminate].
    intros _. apply (f_equal (@rev Event)) in E.
    rewrite rev_involutive in E. exact E.
  - intros ->. reflexivity.
Qed.

Lemma run_from_app (s : State) (rows1 rows2 : list Row) :
  run_from s (rows1 ++ rows2) = run_from (run_from s rows1) rows2.
Proof.
  revert s. induction rows1 as [|r rows1 IH]; intros s; simpl.
  - reflexivity.
  - apply IH.
Qed.

Lemma run_snoc (rows : list Row) (r : Row) :
  run (rows ++ [r]) = step (run rows) r.
Proof. unfold run. rewrite run_from_app. reflexivity. Qed.

Lemma sum_profit_snoc (l : list Event) (e : Event) :
  sum_profit (l ++ [e]) = sum_profit l + ev_profit e.
Proof.
  induction l as [|x l IH]; simpl.
  - lia.
  - rewrite IH. lia.
Qed.

Lemma consistent_init : consistent init.
Proof. constructor; simpl; lia. Qed.

Lemma consistent_step (s : State) (r : Row) :
  consistent s -> consistent (step s r).
Proof.
  intros [Hl Hs Hpl Hps Hlp Hsp Halt].
  unfold step.
  destruct (is_buy_mode s) eqn:Hm.
  - destruct (bot_score r); [|constructor; try rewrite Hm; assumption].
    constructor; simpl; try assumption.
    + rewrite length_app, Nat2Z.inj_add. simpl. lia.
    + rewrite sum_profit_snoc. simpl. lia.
    + destruct (0 <? _); lia.
    + lia.
  - destruct (top_score r); [|constructor; try rewrite Hm; assumption].
    constructor; simpl; try assumption.
    + rewrite length_app, Nat2Z.inj_add. simpl. lia.
    + rewrite sum_profit_snoc. simpl. lia.
    + destruct (0 <? _); lia.
    + lia.
Qed.

Lemma consistent_run_from (s : State) (rows : list Row) :
  consistent s -> consistent (run_from s rows).
Proof.
  revert s. induction rows as [|r rows IH]; intros s Hs; simpl.
  - exact Hs.
  - apply IH, consistent_step, Hs.
Qed.

(** The price of the last recorded event, read off the list directly. *)
Lemma last_price_last (l : list Event) (d : Event) :
  last_price l = match l with
                 | [] => None
                 | _ :: _ => Some (ev_price (last l d))
                 end.
Proof.
  destruct l as [|x l]; [reflexivity|].
  destruct (exists_last (l := x :: l)) as [l' [e E]]; [discriminate|].
  rewrite E, last_price_snoc, last_last. reflexivity.
Qed.

(** C2. [performance_score] starts in buy mode with empty bookkeeping and
    makes one pass over the rows in order (processing [rows ++ [r]] is
    processing [rows] and then [r]).  In buy mode a true buy signal records
    a short trade whose profit is the last recorded long price minus the
    current price (0 without a prior long), updates the short totals and
    flips the mode; in the other mode a true sell signal symmetrically
    records a long trade against the last recorded short price; every other
    row leaves the state unchanged.  On buy=[F,T,F,F,T], sell=[F,F,T,F,F],
    price=[10,9,11,10,8] the result is performance_long=2,
    performance_short=3, long_count=1, short_count=2. *)
Theorem performance_score_one_pass :
  run [] = mkState true 0 0 0 [] 0 0 0 []
  /\ (forall rows r, run (rows ++ [r]) = step (run rows) r)
  /\ (forall s r d,
        is_buy_mode s = true -> bot_score r = true ->
        let profit := match longs s with
                      | [] => 0
                      | _ :: _ => ev_price (last (longs s) d) - price r
                      end in
        step s r =
          mkState false
            (performance_long s) (long_count s) (long_profitable s) (longs s)
            (performance_short s + profit) (short_count s + 1)
            (short_profitable s + (if 0 <? profit then 1 else 0))
            (shorts s ++ [mkEvent (index r) true (price r) profit]))
  /\ (forall s r d,
        is_buy_mode s = false -> top_score r = true ->
        let profit := match shorts s with
                      | [] => 0
                      | _ :: _ => price r - ev_price (last (shorts s) d)
                      end in
        step s r =
          mkState true
            (performance_long s + profit) (long_count s + 1)
            (long_profitable s + (if 0 <? profit then 1 else 0))
            (longs s ++ [mkEvent (index r) false (price r) profit])
            (performance_short s) (short_count s) (short_profitable s)
            (shorts s))
  /\ (forall s r,
        (if is_buy_mode s then bot_score r else top_score r) = false ->
        step s r = s)
  /\ performance_score
       (rows_from 0 [false; false; true; false; false]
                    [false; true; false; false; true]
                    [10; 9; 11; 10; 8])
     = (2, 3, 1, 2, 1, 1,
        [mkEvent 2 false 11 2],
        [mkEvent 1 true 9 0; mkEvent 4 true 8 3]).
Proof.
  split; [reflexivity|].
  split; [exact run_snoc|].
  split.
  { intros s r d Hm Hb profit. unfold step. rewrite Hm, Hb.
    rewrite (last_price_last (longs s) d). subst profit.
    destruct (longs s) as [|x l]; cbv zeta.
    - simpl. f_equal; lia.
    - destruct (0 <? _); f_equal; lia. }
  split.
  { intros s r d Hm Ht profit. unfold step. rewrite Hm, Ht.
    rewrite (last_price_last (shorts s) d). subst profit.
    destruct (shorts s) as [|x l]; cbv zeta.
    - simpl. f_equal; lia.
    - destruct (0 <? _); f_equal; lia. }
  split.
  { intros s r H. unfold step.
    destruct (is_buy_mode s); rewrite H; reflexivity. }
  reflexivity.
Qed.

Lemma performance_score_one_pass_witness :
  step (mkState true 2 1 1 [mkEvent 2 false 11 2] 0 1 0 [mkEvent 1 true 9 0])
       (mkRow 4 false true 8)
  = mkState false 2 1 1 [mkEvent 2 false 11 2] 3 2 1
            [mkEvent 1 true 9 0; mkEvent 4 true 8 3].
Proof.
  exact (proj1 (proj2 (proj2 performance_score_one_pass))
           (mkState true 2 1 1 [mkEvent 2 false 11 2] 0 1 0 [mkEvent 1 true 9 0])
           (mkRow 4 false true 8) (mkEvent 0 true 0 0)
           eq_refl eq_refl).
Defined.

Lemma firstn_succ_snoc {A : Type} (l : list A) : forall n x,
  nth_error l n = Some x -> firstn (S n) l = firstn n l ++ [x].
Proof.
  induction l as [|y l IH]; intros [|n] x H; simpl in *; try discriminate.
  - injection H as ->. reflexivity.
  - f_equal. apply IH. exact H.
Qed.

Lemma step_cases (s : State) (r : Row) :
  step s r = s
  \/ (is_buy_mode s = true /\ is_buy_mode (step s r) = false
      /\ short_count (step s r) = short_count s + 1
      /\ long_count (step s r) = long_count s)
  \/ (is_buy_mode s = false /\ is_buy_mode (step s r) = true
      /\ long_count (step s r) = long_count s + 1
      /\ short_count (step s r) = short_count s).
Proof.
  unfold step. destruct (is_buy_mode s) eqn:Hm.
  - destruct (bot_score r); [|left; reflexivity].
    right. left. simpl. auto.
  - destruct (top_score r); [|left; reflexivity].
    right. right. simpl. auto.
Qed.

(** C10. After every prefix of the input rows the bookkeeping of
    [performance_score] is consistent: the counts are the lengths of
    [longs] and [shorts], the performance totals are the sums of their
    profit entries, the profitable counts lie between 0 and the counts, and
    trades alternate starting with a short: [short_count - long_count] is 0
    (in buy mode) or 1 (otherwise), and the next row records at most one
    trade, a short exactly when the counts are equal. *)
Theorem performance_score_bookkeeping (rows : list Row) (n : nat) :
  let s := run (firstn n rows) in
  long_count s = Z.of_nat (length (longs s))
  /\ short_count s = Z.of_nat (length (shorts s))
  /\ performance_long s = sum_profit (longs s)
  /\ performance_short s = sum_profit (shorts s)
  /\ 0 <= long_profitable s <= long_count s
  /\ 0 <= short_profitable s <= short_count s
  /\ (short_count s - long_count s = 0 \/ short_count s - long_count s = 1)
  /\ (is_buy_mode s = true <-> short_count s = long_count s)
  /\ (forall r, nth_error rows n = Some r ->
        let s' := run (firstn (S n) rows) in
        s' = s
        \/ (short_count s = long_count s
            /\ short_count s' = short_count s + 1
            /\ long_count s' = long_count s)
        \/ (short_count s = long_count s + 1
            /\ long_count s' = long_count s + 1
            /\ short_count s' = short_count s)).
Proof.
  intros s.
  destruct (consistent_run_from init (firstn n rows) consistent_init)
    as [Hl Hs Hpl Hps Hlp Hsp Halt].
  fold (run (firstn n rows)) in *. fold s in Hl, Hs, Hpl, Hps, Hlp, Hsp, Halt.
  repeat split; try assumption; try lia.
  - destruct (is_buy_mode s); lia.
  - intros Hm. rewrite Hm in Halt. lia.
  - intros E. destruct (is_buy_mode s); [reflexivity|lia].
  - intros r Hr s'. unfold s'.
    rewrite (firstn_succ_snoc rows n r Hr), run_snoc. fold s.
    destruct (step_cases s r) as [H|[[Hm [_ [H1 H2]]]|[Hm [_ [H1 H2]]]]].
    + left. exact H.
    + right. left. rewrite Hm in Halt. repeat split; [lia|exact H1|exact H2].
    + right. right. rewrite Hm in Halt. repeat split; [lia|exact H1|exact H2].
Qed.

Lemma performance_score_bookkeeping_witness :
  run (firstn 2 (rows_from 0 [false; false; true] [false; true; false]
                           [10; 9; 11]))
  = run (firstn 1 (rows_from 0 [false; false; true] [false; true; false]
                             [10; 9; 11]))
  \/ (short_count (run (firstn 1 (rows_from 0 [false; false; true]
                                   [false; true; false] [10; 9; 11])))
      = long_count (run (firstn 1 (rows_from 0 [false; false; true]
                                     [false; true; false] [10; 9; 11])))
      /\ short_count (run (firstn 2 (rows_from 0 [false; false; true]
                                      [false; true; false] [10; 9; 11])))
         = short_count (run (firstn 1 (rows_from 0 [false; false; true]
                                         [false; true; false] [10; 9; 11])))
           + 1
      /\ long_count (run (firstn 2 (rows_from 0 [false; false; true]
                                     [false; true; false] [10; 9; 11])))
         = long_count (run (firstn 1 (rows_from 0 [false; false; true]
                                        [false; true; false] [10; 9; 11]))))
  \/ (short_count (run (firstn 1 (rows_from 0 [false; false; true]
                                   [false; true; false] [10; 9; 11])))
      = long_count (run (firstn 1 (rows_from 0 [false; false; true]
                                     [false; true; false] [10; 9; 11])))
        + 1
      /\ long_count (run (firstn 2 (rows_from 0 [false; false; true]
                                     [false; true; false] [10; 9; 11])))
         = long_count (run (firstn 1 (rows_from 0 [false; false; true]
                                        [false; true; false] [10; 9; 11])))
           + 1
      /\ short_count (run (firstn 2 (rows_from 0 [false; false; true]
                                      [false; true; false] [10; 9; 11])))
         = short_count (run (firstn 1 (rows_from 0 [false; false; true]
                                         [false; true; false] [10; 9; 11])))).
Proof.
  exact (proj2 (proj2 (proj2 (proj2 (proj2 (proj2 (proj2 (proj2
    (performance_score_bookkeeping
       (rows_from 0 [false; false; true] [false; true; false] [10; 9; 11])
       1)))))))) (mkRow 1 false true 9) eq_refl).
Defined.

End TradeProofs.

(* ================================================================== *)
(** * Properties of the interval scorer *)
(* ================================================================== *)

Module IntervalProofs.
Import Py Frame Interval.

(** *** Columns of a frame *)

Lemma get_set_same (df : DataFrame) (c : string) (s : Series) :
  get_column (set_column df c s) c = Some s.
Proof.
  induction df as [|[c' s'] df IH]; simpl.
  - rewrite String.eqb_refl. reflexivity.
  - destruct (String.eqb c' c) eqn:E; simpl; rewrite E; [reflexivity|exact IH].
Qed.

Lemma get_set_other (df : DataFrame) (c c' : string) (s : Series) :
  c <> c' -> get_column (set_column df c s) c' = get_column df c'.
Proof.
  intros Hne. induction df as [|[c0 s0] df IH]; simpl.
  - apply String.eqb_neq in Hne. rewrite Hne. reflexivity.
  - destruct (String.eqb c0 c) eqn:E; simpl.
    + apply String.eqb_eq in E. subst c0.
      apply String.eqb_neq in Hne. rewrite Hne. reflexivity.
    + destruct (String.eqb c0 c'); [reflexivity|exact IH].
Qed.

Lemma get_column_head (c : string) (s : Series) (df : DataFrame) :
  get_column ((c, s) :: df) c = Some s.
Proof. simpl. rewrite String.eqb_refl. reflexivity. Qed.

Lemma get_column_skip (c c' : string) (s : Series) (df : DataFrame) :
  c' <> c -> get_column ((c', s) :: df) c = get_column df c.
Proof. intros H. simpl. apply String.eqb_neq in H. rewrite H. reflexivity. Qed.

Lemma length_append (a b : string) :
  String.length (String.append a b) = (String.length a + String.length b)%nat.
Proof. induction a as [|ch a IH]; simpl; [reflexivity|now rewrite IH]. Qed.

Lemma helper_names_differ (score_column : string) :
  greater_than_threshold score_column <> interval_no_column.
Proof.
  intros E. apply (f_equal String.length) in E.
  unfold greater_than_threshold in E. rewrite length_append in E.
  simpl in E. lia.
Qed.

(** *** Transition counting *)

Lemma astype_int_diff_bool (l : list bool) : forall prev,
  exists zs, astype_int (diff_bool prev l) = Ok zs
             /\ forall c, cumsum_from c zs = transition_count c prev l.
Proof.
  induction l as [|b l IH]; intros prev.
  - exists []. split; reflexivity.
  - destruct (IH b) as [zs [E Hc]].
    exists (int_of_bool (xorb b prev) :: zs). split.
    + simpl. rewrite E. reflexivity.
    + intros c. simpl. rewrite Hc.
      replace (c + int_of_bool (xorb b prev))
        with (if Bool.eqb b prev then c else c + 1);
        [reflexivity|].
      destruct b, prev; simpl; lia.
Qed.

Lemma transition_count_lower (l : list bool) : forall c prev,
  Forall (fun i => c <= i) (transition_count c prev l).
Proof.
  induction l as [|b l IH]; intros c prev; simpl; constructor.
  - destruct (Bool.eqb b prev); lia.
  - eapply Forall_impl; [|apply IH].
    intros i Hi. simpl in Hi. destruct (Bool.eqb b prev); lia.
Qed.

Lemma transition_count_length (l : list bool) : forall c prev,
  length (transition_count c prev l) = length l.
Proof. induction l as [|b l IH]; intros; simpl; [reflexivity|now rewrite IH]. Qed.

(** *** Groups *)

Lemma zrange_lower (n : nat) : forall c k, In k (zrange c n) -> c <= k.
Proof.
  induction n as [|n IH]; intros c k; simpl; [tauto|].
  intros [<-|H]; [lia|]. apply IH in H. lia.
Qed.

Lemma zrange_length (n : nat) : forall c, length (zrange c n) = n.
Proof. induction n as [|n IH]; intros; simpl; [reflexivity|now rewrite IH]. Qed.

Lemma select_cons_ne {A : Type} (i k : Z) (ids : list Z) (v : A) (vals : list A) :
  i <> k -> select (i :: ids) (v :: vals) k = select ids vals k.
Proof.
  intros Hne. unfold select. simpl.
  destruct (i =? k) eqn:E; [apply Z.eqb_eq in E; contradiction|reflexivity].
Qed.

Lemma select_cons_eq {A : Type} (k : Z) (ids : list Z) (v : A) (vals : list A) :
  select (k :: ids) (v :: vals) k = v :: select ids vals k.
Proof. unfold select. simpl. rewrite Z.eqb_refl. reflexivity. Qed.

Lemma select_absent {A : Type} (k : Z) (ids : list Z) : forall vals : list A,
  Forall (fun i => k < i) ids -> select ids vals k = [].
Proof.
  induction ids as [|i ids IH]; intros vals H; [reflexivity|].
  destruct vals as [|v vals]; [reflexivity|].
  inversion H; subst. rewrite select_cons_ne by lia. apply IH. assumption.
Qed.

Lemma select_map {A B : Type} (f : A -> B) (k : Z) (ids : list Z) :
  forall vals, select ids (map f vals) k = map f (select ids vals k).
Proof.
  induction ids as [|i ids IH]; intros vals; [reflexivity|].
  destruct vals as [|v vals]; [reflexivity|].
  unfold select in *. simpl. destruct (i =? k); simpl; rewrite IH; reflexivity.
Qed.

Lemma runs_of_head {A : Type} (r : bool * A) (rows : list (bool * A)) :
  exists run rest, runs_of (r :: rows) = (fst r, run) :: rest.
Proof.
  simpl. destruct (runs_of rows) as [|[b run] rest].
  - eauto.
  - destruct (Bool.eqb (fst r) b) eqn:E.
    + apply eqb_prop in E. rewrite E. eauto.
    + eauto.
Qed.

(** Grouping by the transition count is grouping into runs. *)
Lemma groups_are_runs {A : Type} (rows : list (bool * A)) : forall r c,
  let ids := c :: transition_count c (fst r) (map fst rows) in
  let runs := runs_of (r :: rows) in
  group_keys ids = zrange c (length runs)
  /\ map (select ids (r :: rows)) (zrange c (length runs)) = map snd runs.
Proof.
  induction rows as [|r' rows IH]; intros r c.
  - simpl. rewrite select_cons_eq. split; reflexivity.
  - cbv zeta.
    change (transition_count c (fst r) (map fst (r' :: rows)))
      with (let c' := if Bool.eqb (fst r') (fst r) then c else c + 1 in
            c' :: transition_count c' (fst r') (map fst rows)).
    cbv zeta.
    set (c' := if Bool.eqb (fst r') (fst r) then c else c + 1).
    destruct (IH r' c') as [Hk Hs].
    set (ids' := c' :: transition_count c' (fst r') (map fst rows)) in *.
    assert (Hlow : Forall (fun i => c' <= i) ids').
    { constructor; [lia|apply transition_count_lower]. }
    destruct (runs_of_head r' rows) as [run [rest Er]].
    change (runs_of (r :: r' :: rows))
      with (match runs_of (r' :: rows) with
            | [] => [(fst r, [r])]
            | (b, run) :: rest =>
                if Bool.eqb (fst r) b then (b, r :: run) :: rest
                else (fst r, [r]) :: (b, run) :: rest
            end).
    change (group_keys (c :: ids')) with (insert_key c (group_keys ids')).
    rewrite Er in *. simpl length in *. simpl zrange in Hk, Hs.
    simpl map in Hs. injection Hs as Hs0 Hs1.
    assert (Hext : forall k, In k (zrange (c' + 1) (length rest)) ->
                   c <> k ->
                   select (c :: ids') (r :: r' :: rows) k
                   = select ids' (r' :: rows) k).
    { intros k _ Hne. apply select_cons_ne. exact Hne. }
    replace (Bool.eqb (fst r) (fst r')) with (Bool.eqb (fst r') (fst r))
      by (destruct (fst r), (fst r'); reflexivity).
    destruct (Bool.eqb (fst r') (fst r)) eqn:E; subst c'.
    + simpl length. simpl zrange. rewrite Hk. simpl.
      rewrite Z.ltb_irrefl, Z.eqb_refl. split; [reflexivity|].
      rewrite select_cons_eq, Hs0. f_equal.
      rewrite <- Hs1. apply map_ext_in. intros k Hk'.
      apply select_cons_ne. apply zrange_lower in Hk'. lia.
    + simpl length. simpl zrange. rewrite Hk. simpl.
      replace (c <? c + 1) with true by (symmetry; apply Z.ltb_lt; lia).
      split; [reflexivity|].
      rewrite select_cons_eq.
      rewrite (select_absent c ids') by
        (eapply Forall_impl; [|exact Hlow]; simpl; intros; lia).
      f_equal. rewrite select_cons_ne by lia. rewrite Hs0. f_equal.
      rewrite <- Hs1. apply map_ext_in. intros k Hk'.
      apply select_cons_ne. apply zrange_lower in Hk'. lia.
Qed.

(** *** Runs *)

Lemma runs_of_maximal {A : Type} (rows : list (bool * A)) :
  maximal_runs rows (runs_of rows).
Proof.
  unfold maximal_runs. induction rows as [|r rows [Hc [Hf Ha]]]; simpl.
  - repeat split; constructor.
  - destruct (runs_of rows) as [|[b run] rest] eqn:Er.
    + simpl in Hc. subst rows. split; [reflexivity|]. split; [|exact I].
      constructor; [|constructor]. simpl. split; [discriminate|].
      constructor; [reflexivity|constructor].
    + inversion Hf as [|x l [Hne Hall] Hrest]; subst x l. simpl in Hne, Hall.
      destruct (Bool.eqb (fst r) b) eqn:E.
      * apply eqb_prop in E. split; [simpl in *; congruence|]. split.
        -- constructor; [|assumption]. simpl. split; [discriminate|].
           constructor; assumption.
        -- exact Ha.
      * apply eqb_false_iff in E. split; [simpl in *; congruence|]. split.
        -- constructor; [|assumption]. simpl. split; [discriminate|].
           constructor; [reflexivity|constructor].
        -- simpl. split; [exact E|exact Ha].
Qed.

Lemma runs_of_map {A B : Type} (g : bool * A -> bool * B)
  (Hg : forall r, fst (g r) = fst r) (rows : list (bool * A)) :
  runs_of (map g rows)
  = map (fun br => (fst br, map g (snd br))) (runs_of rows).
Proof.
  induction rows as [|r rows IH]; [reflexivity|].
  simpl. rewrite IH. destruct (runs_of rows) as [|[b run] rest]; simpl.
  - rewrite Hg. reflexivity.
  - rewrite Hg. destruct (Bool.eqb (fst r) b); reflexivity.
Qed.

Lemma runs_of_alternating {A : Type} (rows : list (bool * A)) :
  alternating (map fst rows) ->
  runs_of rows = map (fun r => (fst r, [r])) rows.
Proof.
  induction rows as [|r rows IH]; [reflexivity|].
  destruct rows as [|r' rows]; [reflexivity|].
  intros [Hne Ha]. specialize (IH Ha).
  change (runs_of (r :: r' :: rows))
    with (match runs_of (r' :: rows) with
          | [] => [(fst r, [r])]
          | (b, run) :: rest =>
              if Bool.eqb (fst r) b then (b, r :: run) :: rest
              else (fst r, [r]) :: (b, run) :: rest
          end).
  rewrite IH. simpl.
  destruct (Bool.eqb (fst r) (fst r')) eqn:E; [|reflexivity].
  apply eqb_prop in E. contradiction.
Qed.

Lemma runs_of_constant {A : Type} (b : bool) (rows : list (bool * A)) :
  rows <> [] -> Forall (fun r => fst r = b) rows ->
  exists run, runs_of rows = [(b, run)].
Proof.
  induction rows as [|r rows IH]; [congruence|]. intros _ H.
  inversion H as [|x l Hr Hrows]; subst. simpl.
  destruct rows as [|r' rows].
  - simpl. eauto.
  - destruct IH as [run Er]; [discriminate|assumption|].
    rewrite Er. rewrite Bool.eqb_reflx. eauto.
Qed.

Lemma max_bool_constant (b : bool) (l : list bool) :
  l <> [] -> Forall (fun x => x = b) l -> max_bool l = b.
Proof.
  unfold max_bool. induction l as [|x l IH]; [congruence|]. intros _ H.
  inversion H; subst. simpl. destruct b; [reflexivity|].
  destruct l as [|y l]; [reflexivity|]. apply IH; [discriminate|assumption].
Qed.

Lemma max_bool_map {A : Type} (f : A -> bool) (l : list A) :
  max_bool (map f l) = existsb f l.
Proof.
  unfold max_bool. induction l as [|x l IH]; simpl; [reflexivity|].
  now rewrite IH.
Qed.

Lemma run_labels_max {A : Type} (runs : list (bool * list (bool * A))) :
  Forall (fun br => snd br <> []
                    /\ Forall (fun r => fst r = fst br) (snd br)) runs ->
  map (fun run => max_bool (map fst run)) (map snd runs) = map fst runs.
Proof.
  induction 1 as [|[b run] runs [Hne Hall] _ IH]; [reflexivity|].
  simpl in *. rewrite IH. f_equal. apply max_bool_constant.
  - destruct run; [congruence|discriminate].
  - apply Forall_map. exact Hall.
Qed.

(** *** The scorer on a boolean label column *)

Lemma scorer_on_rows (df : DataFrame) (label_column score_column : string)
  (threshold : Q) (sc : Series) (rows : list (bool * bool)) :
  rows <> [] ->
  get_column df label_column = Some (BoolCol (map fst rows)) ->
  get_column df score_column = Some sc ->
  ge_threshold sc threshold = map snd rows ->
  label_column <> interval_no_column ->
  score_column <> interval_no_column ->
  label_column <> greater_than_threshold score_column ->
  find_interval_score df label_column score_column threshold
  = Ok (set_column
          (set_column df interval_no_column
                      (IntCol (interval_ids (map fst rows))))
          (greater_than_threshold score_column) (BoolCol (map snd rows)),
        [(interval_no_column, IntCol (zrange 0 (length (runs_of rows))));
         (label_column, BoolCol (map fst (runs_of rows)));
         (score_column,
          BoolCol (map (fun br => existsb snd (snd br)) (runs_of rows)))]).
Proof.
  intros Hne Hl Hs Hge Hl1 Hs1 Hl2.
  destruct rows as [|r rows]; [congruence|]. clear Hne.
  remember (runs_of (r :: rows)) as runs eqn:Eruns.
  unfold find_interval_score. rewrite Hl. simpl map. simpl.
  destruct (astype_int_diff_bool (map fst rows) (fst r)) as [zs [E Hc]].
  rewrite E. simpl. unfold cumsum. simpl. rewrite Hc.
  rewrite get_set_other by auto. rewrite Hs. simpl. rewrite Hge.
  rewrite get_set_other by (apply not_eq_sym; exact Hl2).
  rewrite get_set_other by auto. rewrite Hl. simpl.
  rewrite get_set_same. simpl.
  apply String.eqb_neq in Hl1, Hs1. rewrite Hl1, Hs1. simpl.
  destruct (groups_are_runs rows r 0) as [Hk Hg]. cbv zeta in Hk, Hg.
  rewrite <- Eruns in Hk, Hg.
  set (ids := 0 :: transition_count 0 (fst r) (map fst rows)) in *.
  change (insert_key 0 (group_keys (transition_count 0 (fst r) (map fst rows))))
    with (group_keys ids).
  rewrite Hk. do 4 f_equal.
  - f_equal. change (fst r :: map fst rows) with (map fst (r :: rows)).
    rewrite <- (run_labels_max runs) by (subst runs; apply runs_of_maximal).
    rewrite <- Hg. rewrite !map_map. f_equal. apply map_ext. intros k.
    rewrite select_map. reflexivity.
  - do 3 f_equal. change (snd r :: map snd rows) with (map snd (r :: rows)).
    transitivity (map (fun run => existsb snd run) (map snd runs)).
    + rewrite <- Hg. rewrite !map_map. apply map_ext. intros k.
      rewrite select_map. apply max_bool_map.
    + rewrite map_map. reflexivity.
Qed.

Lemma ge_threshold_length (sc : Series) (threshold : Q) :
  length (ge_threshold sc threshold) = series_length sc.
Proof. destruct sc; simpl; apply length_map. Qed.

Lemma map_fst_combine {A B : Type} (l : list A) : forall l' : list B,
  length l = length l' -> map fst (combine l l') = l.
Proof.
  induction l as [|x l IH]; intros [|y l'] H; simpl in *; try congruence.
  f_equal. apply IH. lia.
Qed.

Lemma map_snd_combine {A B : Type} (l : list A) : forall l' : list B,
  length l = length l' -> map snd (combine l l') = l'.
Proof.
  induction l as [|x l IH]; intros [|y l'] H; simpl in *; try congruence.
  f_equal. apply IH. lia.
Qed.

Lemma runs_of_append {A : Type} (b : bool) (run : list (bool * A)) :
  forall rows,
  run <> [] -> Forall (fun r => fst r = b) run ->
  match runs_of rows with
  | [] => True
  | (b', _) :: _ => b <> b'
  end ->
  runs_of (run ++ rows) = (b, run) :: runs_of rows.
Proof.
  induction run as [|r run IH]; intros rows Hne Hall Hhead; [congruence|].
  inversion Hall as [|x l Hr Hrun]; subst x l.
  destruct run as [|r' run].
  - simpl. destruct (runs_of rows) as [|[b' run'] rest].
    + rewrite Hr. reflexivity.
    + rewrite Hr. destruct (Bool.eqb b b') eqn:E; [|reflexivity].
      apply eqb_prop in E. contradiction.
  - change ((r :: r' :: run) ++ rows) with (r :: ((r' :: run) ++ rows)).
    change (runs_of (r :: ((r' :: run) ++ rows)))
      with (match runs_of ((r' :: run) ++ rows) with
            | [] => [(fst r, [r])]
            | (b0, run0) :: rest =>
                if Bool.eqb (fst r) b0 then (b0, r :: run0) :: rest
                else (fst r, [r]) :: (b0, run0) :: rest
            end).
    rewrite IH by (try discriminate; assumption).
    rewrite Hr, Bool.eqb_reflx. reflexivity.
Qed.

(** The maximal runs of a table are unique. *)
Lemma maximal_runs_unique {A : Type} (runs : list (bool * list (bool * A))) :
  forall rows, maximal_runs rows runs -> runs = runs_of rows.
Proof.
  induction runs as [|[b run] runs IH]; intros rows [Hc [Hf Ha]].
  - simpl in Hc. subst rows. reflexivity.
  - simpl in Hc. subst rows.
    inversion Hf as [|x l [Hne Hall] Hrest]; subst x l. simpl in Hne, Hall.
    assert (Hm : maximal_runs (concat (map snd runs)) runs).
    { split; [reflexivity|]. split; [assumption|].
      simpl in Ha. destruct (map fst runs); [exact I|apply Ha]. }
    specialize (IH _ Hm).
    rewrite (runs_of_append b); try assumption.
    + f_equal. exact IH.
    + rewrite <- IH. destruct runs as [|[b' run'] rest]; [exact I|].
      simpl in Ha. apply Ha.
Qed.

(** C1 (amended). On a non-empty table whose boolean label column and
    numeric score column are not named after the scorer's helper columns,
    [find_interval_score] returns one row per maximal run of consecutive
    rows with equal label, with interval ids 0, 1, 2, ... (the inclusive
    running count of label transitions, written to the [interval_no]
    column of the caller's table), the run's label as interval label, and
    as interval score whether some row of the run has score >= threshold;
    a constant label column yields one row.  For labels [T,T,F,F,F,T],
    scores [0.9,0.1,0.2,0.8,0.1,0.95] and threshold 0.5 the output is the
    three intervals (T,T), (F,T), (T,T). *)
Theorem find_interval_score_runs :
  (forall (df : DataFrame) (label_column score_column : string)
          (threshold : Q) (rows : list (bool * Q)),
     rows <> [] ->
     get_column df label_column = Some (BoolCol (map fst rows)) ->
     get_column df score_column = Some (NumCol (map snd rows)) ->
     label_column <> interval_no_column ->
     score_column <> interval_no_column ->
     label_column <> greater_than_threshold score_column ->
     let runs := runs_of rows in
     maximal_runs rows runs
     /\ (exists df',
           find_interval_score df label_column score_column threshold
           = Ok (df',
                 [(interval_no_column, IntCol (zrange 0 (length runs)));
                  (label_column, BoolCol (map fst runs));
                  (score_column,
                   BoolCol (map (fun br => existsb (hit threshold) (snd br))
                                runs))])
           /\ get_column df' interval_no_column
              = Some (IntCol (interval_ids (map fst rows))))
     /\ (forall b, Forall (fun r => fst r = b) rows -> length runs = 1%nat))
  /\ (exists df',
        find_interval_score
          [("label"%string, BoolCol [true; true; false; false; false; true]);
           ("score"%string,
            NumCol [9 # 10; 1 # 10; 2 # 10; 8 # 10; 1 # 10; 95 # 100])]
          "label" "score" (5 # 10)
        = Ok (df', [("interval_no"%string, IntCol [0; 1; 2]);
                    ("label"%string, BoolCol [true; false; true]);
                    ("score"%string, BoolCol [true; true; true])])).
Proof.
  split.
  - intros df label_column score_column threshold rows Hne Hl Hs Hl1 Hs1 Hl2 runs.
    split; [apply runs_of_maximal|]. split.
    + eexists. split.
      * pose (g := fun r : bool * Q => (fst r, hit threshold r)).
        rewrite (scorer_on_rows df label_column score_column threshold
                   (NumCol (map snd rows)) (map g rows)).
        -- rewrite (runs_of_map g) by reflexivity. fold runs.
           rewrite !map_map, length_map. simpl.
           assert (Hex : map (fun x : bool * list (bool * Q) =>
                                existsb snd (map g (snd x))) runs
                         = map (fun br => existsb (hit threshold) (snd br))
                               runs).
           { apply map_ext. intros [b run]. simpl.
             clear. induction run as [|r run IH]; simpl; [reflexivity|].
             now rewrite IH. }
           rewrite Hex. reflexivity.
        -- destruct rows; [congruence|discriminate].
        -- rewrite map_map. exact Hl.
        -- exact Hs.
        -- simpl. rewrite !map_map. reflexivity.
        -- exact Hl1.
        -- exact Hs1.
        -- exact Hl2.
      * rewrite get_set_other by apply helper_names_differ.
        rewrite get_set_same. reflexivity.
    + intros b Hb. destruct (runs_of_constant b rows Hne Hb) as [run Er].
      unfold runs. rewrite Er. reflexivity.
  - eexists. vm_compute. reflexivity.
Qed.

Lemma find_interval_score_runs_witness :
  exists df',
    find_interval_score
      [("truth"%string, BoolCol [true; false; false]);
       ("score"%string, NumCol [1 # 10; 7 # 10; 2 # 10])]
      "truth" "score" (5 # 10)
    = Ok (df', [("interval_no"%string, IntCol [0; 1]);
                ("truth"%string, BoolCol [true; false]);
                ("score"%string, BoolCol [false; true])])
    /\ get_column df' "interval_no" = Some (IntCol [0; 1; 1]).
Proof.
  refine (proj1 (proj2
    (proj1 find_interval_score_runs
       [("truth"%string, BoolCol [true; false; false]);
        ("score"%string, NumCol [1 # 10; 7 # 10; 2 # 10])]
       "truth"%string "score"%string (5 # 10)
       [(true, 1 # 10); (false, 7 # 10); (false, 2 # 10)]
       _ eq_refl eq_refl _ _ _))); vm_compute; discriminate.
Defined.

(** C1 as stated fails on the empty table: [out.iloc[0] = False] raises
    [IndexError], so no interval table is returned. *)
Lemma find_interval_score_empty_table :
  find_interval_score
    [("label"%string, BoolCol []); ("score"%string, NumCol [])]
    "label" "score" (5 # 10)
  = Raise IndexError
  /\ ~ exists res,
        find_interval_score
          [("label"%string, BoolCol []); ("score"%string, NumCol [])]
          "label" "score" (5 # 10)
        = Ok res.
Proof.
  split; [reflexivity|]. intros [res H]. vm_compute in H. discriminate.
Qed.

(** A label column named after a helper column is overwritten before it is
    aggregated: named [interval_no] the call raises, named
    [<score_column>_greater_than_threshold] the interval labels are the
    threshold flags. *)
Remark find_interval_score_name_clash :
  find_interval_score
    [("interval_no"%string, BoolCol [true; false]);
     ("score"%string, NumCol [0 # 1; 1 # 1])]
    "interval_no" "score" (5 # 10)
  = Raise (ValueError "cannot insert interval_no, already exists")
  /\ exists df',
       find_interval_score
         [("score_greater_than_threshold"%string, BoolCol [true; false]);
          ("score"%string, NumCol [0 # 1; 1 # 1])]
         "score_greater_than_threshold" "score" (5 # 10)
       = Ok (df', [("interval_no"%string, IntCol [0; 1]);
                   ("score_greater_than_threshold"%string,
                    BoolCol [false; true]);
                   ("score"%string, BoolCol [false; true])]).
Proof. split; [reflexivity|]. eexists. vm_compute. reflexivity. Qed.

Lemma alternating_runs {A : Type} (rows : list (bool * A)) :
  alternating (map fst (runs_of rows)).
Proof. apply runs_of_maximal. Qed.

(** C8. Running [find_interval_score] again on its own output, with the
    interval label as label column and the interval score as score column,
    yields one interval per row of that output: the interval ids and the
    labels are those of the output, and for a threshold in (0, 1] the
    result is the output itself. *)
Theorem find_interval_score_fixed_point
  (df : DataFrame) (label_column score_column : string)
  (threshold threshold' : Q) (labels : list bool) (sc : Series)
  (df' out : DataFrame) :
  labels <> [] ->
  get_column df label_column = Some (BoolCol labels) ->
  get_column df score_column = Some sc ->
  series_length sc = length labels ->
  label_column <> score_column ->
  label_column <> interval_no_column ->
  score_column <> interval_no_column ->
  label_column <> greater_than_threshold score_column ->
  find_interval_score df label_column score_column threshold = Ok (df', out) ->
  exists out' out2,
    find_interval_score out label_column score_column threshold'
    = Ok (out', out2)
    /\ nrows out2 = nrows out
    /\ get_column out2 interval_no_column = get_column out interval_no_column
    /\ get_column out2 label_column = get_column out label_column
    /\ ((0 < threshold' /\ threshold' <= 1)%Q -> out2 = out).
Proof.
  intros Hne Hl Hs Hlen Hls Hl1 Hs1 Hl2 Hrun.
  set (rows := combine labels (ge_threshold sc threshold)).
  assert (Hfst : map fst rows = labels).
  { apply map_fst_combine. rewrite ge_threshold_length. auto. }
  assert (Hsnd : map snd rows = ge_threshold sc threshold).
  { apply map_snd_combine. rewrite ge_threshold_length. auto. }
  assert (Hrows : rows <> []).
  { intros E. rewrite E in Hfst. simpl in Hfst. congruence. }
  rewrite (scorer_on_rows df label_column score_column threshold sc rows)
    in Hrun; try assumption; try congruence.
  injection Hrun as _ Hout.
  set (L := map fst (runs_of rows)) in *.
  set (H := map (fun br => existsb snd (snd br)) (runs_of rows)) in *.
  set (H' := ge_threshold (BoolCol H) threshold').
  set (rows' := combine L H').
  assert (HlenLH : length L = length H').
  { unfold H', L, H. simpl. rewrite !length_map. reflexivity. }
  assert (Hfst' : map fst rows' = L) by (apply map_fst_combine; exact HlenLH).
  assert (Hsnd' : map snd rows' = H') by (apply map_snd_combine; exact HlenLH).
  assert (HL : L <> []).
  { unfold L. destruct rows as [|r rows0]; [congruence|].
    destruct (runs_of_head r rows0) as [run [rest Er]]. rewrite Er.
    discriminate. }
  assert (Hrows' : rows' <> []).
  { intros E. rewrite E in Hfst'. simpl in Hfst'. congruence. }
  assert (Hruns' : runs_of rows' = map (fun r => (fst r, [r])) rows').
  { apply runs_of_alternating. rewrite Hfst'. apply alternating_runs. }
  assert (Hgl : get_column out label_column = Some (BoolCol L)).
  { rewrite <- Hout. rewrite get_column_skip by auto. apply get_column_head. }
  assert (Hgs : get_column out score_column = Some (BoolCol H)).
  { rewrite <- Hout. rewrite !get_column_skip by auto. apply get_column_head. }
  assert (Hn : length rows' = length (runs_of rows)).
  { rewrite <- (length_map fst rows'), Hfst'. unfold L.
    apply length_map. }
  assert (Hlab : map fst (map (fun r => (fst r, [r])) rows') = L).
  { rewrite map_map. exact Hfst'. }
  assert (Hsc : map (fun br : bool * list (bool * bool) => existsb snd (snd br))
                    (map (fun r => (fst r, [r])) rows') = H').
  { rewrite map_map. rewrite <- Hsnd'. apply map_ext. intros x.
    apply orb_false_r. }
  do 2 eexists. split.
  { apply (scorer_on_rows out label_column score_column threshold'
             (BoolCol H) rows'); try assumption.
    - rewrite Hfst'. exact Hgl.
    - symmetry. exact Hsnd'. }
  rewrite Hruns', Hlab, Hsc, length_map, Hn. rewrite <- Hout.
  split; [simpl; rewrite !zrange_length; reflexivity|].
  split; [rewrite !get_column_head; reflexivity|].
  split.
  { rewrite !(get_column_skip label_column interval_no_column) by auto.
    rewrite !get_column_head. reflexivity. }
  intros [Hpos Hle1]. do 5 f_equal. unfold H'. simpl.
  rewrite <- (map_id H) at 2. apply map_ext. intros [|]; simpl.
  - apply Qle_bool_iff. exact Hle1.
  - destruct (Qle_bool threshold' (inject_Z 0)) eqn:E; [|reflexivity].
    apply Qle_bool_iff in E. exfalso.
    apply (Qlt_irrefl 0). eapply Qlt_le_trans; [exact Hpos|exact E].
Qed.

Lemma find_interval_score_fixed_point_witness :
  exists out' out2,
    find_interval_score
      [("interval_no"%string, IntCol [0; 1]);
       ("truth"%string, BoolCol [true; false]);
       ("score"%string, BoolCol [false; true])]
      "truth" "score" (5 # 10)
    = Ok (out', out2)
    /\ nrows out2 = 2%nat
    /\ get_column out2 "interval_no" = Some (IntCol [0; 1])
    /\ get_column out2 "truth" = Some (BoolCol [true; false])
    /\ ((0 < 5 # 10 /\ 5 # 10 <= 1)%Q ->
        out2 = [("interval_no"%string, IntCol [0; 1]);
                ("truth"%string, BoolCol [true; false]);
                ("score"%string, BoolCol [false; true])]).
Proof.
  refine (find_interval_score_fixed_point
    [("truth"%string, BoolCol [true; false; false]);
     ("score"%string, NumCol [1 # 10; 7 # 10; 2 # 10])]
    "truth"%string "score"%string (5 # 10) (5 # 10)
    [true; false; false] (NumCol [1 # 10; 7 # 10; 2 # 10])
    _ _ _ eq_refl eq_refl eq_refl _ _ _ _ eq_refl);
    vm_compute; discriminate.
Defined.

(** What the call leaves in the caller's table. *)
Lemma find_interval_score_caller_table
  (df : DataFrame) (label_column score_column : string) (threshold : Q)
  (df' out : DataFrame) :
  find_interval_score df label_column score_column threshold = Ok (df', out) ->
  exists ids flags,
    df' = set_column (set_column df interval_no_column (IntCol ids))
                     (greater_than_threshold score_column) (BoolCol flags).
Proof.
  unfold find_interval_score. intros H.
  destruct (get_column df label_column) as [labels|]; [|discriminate].
  simpl in H.
  destruct (iloc0_set (diff labels) (SBool false)) as [o|]; [|discriminate].
  simpl in H. destruct (astype_int o) as [zs|]; [|discriminate]. simpl in H.
  destruct (get_column (set_column df interval_no_column (IntCol (cumsum zs)))
                       score_column) as [scores|]; [|discriminate].
  simpl in H.
  match type of H with
  | context [get_column ?d label_column] =>
      destruct (get_column d label_column); [|discriminate]
  end.
  simpl in H.
  match type of H with
  | context [get_column ?d (greater_than_threshold score_column)] =>
      destruct (get_column d (greater_than_threshold score_column));
        [|discriminate]
  end.
  simpl in H.
  destruct (_ || _); [discriminate|]. injection H as <- _. eauto.
Qed.

Lemma columns_of_set_column (df : DataFrame) (c0 : string) (s : Series) (c : string) :
  In c (columns (set_column df c0 s)) <-> In c (columns df) \/ c = c0.
Proof.
  unfold columns. induction df as [|[c1 s1] df IH]; simpl.
  - intuition congruence.
  - destruct (String.eqb c1 c0) eqn:E; simpl.
    + apply String.eqb_eq in E. subst c1. intuition congruence.
    + rewrite IH. tauto.
Qed.


(** A call that returns has changed its caller's table only in the two
    helper columns [interval_no] and
    [<score_column>_greater_than_threshold]: every other column keeps its
    value, and the columns of the table after the call are the columns
    before it and these two. *)
Lemma find_interval_score_frame
  (df : DataFrame) (label_column score_column : string) (threshold : Q)
  (df' out : DataFrame) :
  find_interval_score df label_column score_column threshold = Ok (df', out) ->
  (forall c, c <> interval_no_column ->
             c <> greater_than_threshold score_column ->
             get_column df' c = get_column df c)
  /\ (forall c, In c (columns df') <->
                In c (columns df) \/ c = interval_no_column
                \/ c = greater_than_threshold score_column)
  /\ (exists ids flags,
        get_column df' interval_no_column = Some (IntCol ids)
        /\ get_column df' (greater_than_threshold score_column)
           = Some (BoolCol flags)).
Proof.
  intros H. apply find_interval_score_caller_table in H.
  destruct H as [ids [flags ->]]. split; [|split].
  - intros c H1 H2. rewrite !get_set_other by auto. reflexivity.
  - intros c. rewrite !columns_of_set_column. tauto.
  - exists ids, flags. split.
    + rewrite get_set_other by apply helper_names_differ.
      apply get_set_same.
    + apply get_set_same.
Qed.

End IntervalProofs.

(* ================================================================== *)
(** * Properties of the rolling loop *)
(* ================================================================== *)

Module RollingProofs.
Import Py Frame Rolling.

(** *** Slices *)

Lemma slice_bound_in_range (n x : Z) : 0 <= x <= n -> slice_bound n x = x.
Proof.
  intros H. unfold slice_bound.
  destruct (x <? 0) eqn:E; [apply Z.ltb_lt in E; lia|lia].
Qed.

Lemma iloc_in_range {A : Type} (l : list A) (a b : Z) :
  0 <= a <= b -> b <= Z.of_nat (length l) ->
  iloc l a b = firstn (Z.to_nat (b - a)) (skipn (Z.to_nat a) l).
Proof.
  intros Hab Hb. unfold iloc.
  rewrite !slice_bound_in_range by lia.
  rewrite skipn_firstn_comm. f_equal. lia.
Qed.

Lemma iloc_length {A : Type} (l : list A) (a b : Z) :
  0 <= a <= b -> b <= Z.of_nat (length l) ->
  Z.of_nat (length (iloc l a b)) = b - a.
Proof.
  intros Hab Hb. rewrite iloc_in_range by assumption.
  rewrite length_firstn, length_skipn. lia.
Qed.

Lemma firstn_plus {A : Type} (x y : nat) : forall l : list A,
  firstn x l ++ firstn y (skipn x l) = firstn (x + y) l.
Proof.
  induction x as [|x IH]; intros l; [reflexivity|].
  destruct l as [|v l]; simpl.
  - destruct y; reflexivity.
  - f_equal. apply IH.
Qed.

Lemma iloc_app {A : Type} (l : list A) (a b c : Z) :
  0 <= a <= b -> b <= c -> c <= Z.of_nat (length l) ->
  iloc l a b ++ iloc l b c = iloc l a c.
Proof.
  intros Hab Hbc Hc. rewrite !iloc_in_range by lia.
  replace (Z.to_nat b) with (Z.to_nat (b - a) + Z.to_nat a)%nat by lia.
  rewrite <- skipn_skipn, firstn_plus. f_equal. lia.
Qed.

Lemma iloc_empty {A : Type} (l : list A) (a : Z) :
  0 <= a <= Z.of_nat (length l) -> iloc l a a = [].
Proof.
  intros H. rewrite iloc_in_range by lia.
  replace (a - a) with 0 by lia. reflexivity.
Qed.

Lemma range_length (n : Z) : length (range n) = Z.to_nat n.
Proof. unfold range. rewrite length_map, length_seq. reflexivity. Qed.

Lemma range_succ (k : nat) :
  range (Z.of_nat (S k)) = range (Z.of_nat k) ++ [Z.of_nat k].
Proof.
  unfold range. rewrite !Nat2Z.id, seq_S, map_app. reflexivity.
Qed.

Lemma in_range (n i : Z) : In i (range n) <-> 0 <= i < n.
Proof.
  unfold range. rewrite in_map_iff. split.
  - intros [k [<- H]]. apply in_seq in H. lia.
  - intros H. exists (Z.to_nat i). split; [lia|]. apply in_seq. lia.
Qed.

Lemma nth_error_range (n : Z) (i : nat) (x : Z) :
  nth_error (range n) i = Some x -> x = Z.of_nat i /\ Z.of_nat i < n.
Proof.
  unfold range. intros H. rewrite nth_error_map in H.
  destruct (nth_error (seq 0 (Z.to_nat n)) i) as [k|] eqn:E; [|discriminate].
  injection H as <-.
  assert (Hi : (i < Z.to_nat n)%nat).
  { assert (Hs : nth_error (seq 0 (Z.to_nat n)) i <> None) by congruence.
    apply nth_error_Some in Hs. rewrite length_seq in Hs. exact Hs. }
  rewrite nth_error_nth' with (d := O) in E by (rewrite length_seq; exact Hi).
  rewrite seq_nth in E by exact Hi. injection E as <-. simpl. lia.
Qed.

Lemma range_index (n : Z) (a b : Z) :
  0 <= a <= b -> b <= n ->
  Forall (fun i => a <= i < b) (iloc (range n) a b).
Proof.
  intros Hab Hb. apply Forall_forall. intros i Hi.
  apply In_nth_error in Hi. destruct Hi as [k Hk].
  rewrite iloc_in_range in Hk by (rewrite ?range_length; lia).
  assert (Hlt : (k < Z.to_nat (b - a))%nat).
  { assert (Hs : nth_error (firstn (Z.to_nat (b - a))
                              (skipn (Z.to_nat a) (range n))) k <> None)
      by congruence.
    apply nth_error_Some in Hs. rewrite length_firstn in Hs. lia. }
  rewrite nth_error_firstn in Hk.
  destruct (Nat.ltb_spec k (Z.to_nat (b - a))); [|lia].
  rewrite nth_error_skipn in Hk. apply nth_error_range in Hk. lia.
Qed.

(** *** Windows *)

Section Windows.

Variable p : Params.
Variable c : Config.
Variable prediction_start train_length : Z.

Let stride := prediction_length p.

Lemma windows_length (steps : Z) :
  length (windows p c prediction_start train_length steps) = Z.to_nat steps.
Proof. unfold windows. rewrite length_map. apply range_length. Qed.

Lemma windows_nth (steps : Z) (i : nat) (w : WindowDescriptor) :
  nth_error (windows p c prediction_start train_length steps) i = Some w ->
  w = window p c prediction_start train_length (Z.of_nat i)
  /\ Z.of_nat i < steps.
Proof.
  unfold windows. rewrite nth_error_map.
  destruct (nth_error (range steps) i) as [x|] eqn:E; [|discriminate].
  intros H. injection H as <-. apply nth_error_range in E.
  destruct E as [-> Hlt]. split; [reflexivity|exact Hlt].
Qed.

Lemma windows_union {A : Type} (df : list A) (k : nat) :
  0 <= prediction_start -> 0 < stride ->
  prediction_start + Z.of_nat k * stride <= Z.of_nat (length df) ->
  concat (map (fun w => iloc df (predict_start w) (predict_end w))
              (windows p c prediction_start train_length (Z.of_nat k)))
  = iloc df prediction_start (prediction_start + Z.of_nat k * stride).
Proof.
  intros Hps Hs. induction k as [|k IH]; intros Hn.
  - simpl in *. rewrite Z.add_0_r in *. symmetry. apply iloc_empty. lia.
  - unfold windows in *. rewrite range_succ, !map_app, concat_app.
    rewrite Nat2Z.inj_succ in *. rewrite IH by nia.
    simpl. rewrite app_nil_r.
    unfold step_predict_end, step_predict_start. fold stride.
    rewrite iloc_app by nia. f_equal. nia.
Qed.

End Windows.

(** The spans of [step_count] iterations, for
    [N - prediction_start >= step_count * stride]: iteration [i] predicts
    the rows from [prediction_start + i * stride] up to [stride] rows
    later; consecutive spans are contiguous and do not overlap, every span
    has [stride] rows, and together they are the [step_count * stride]
    rows from [prediction_start]. *)
Lemma windows_partition {A : Type} (p : Params) (c : Config) (df : list A)
  (prediction_start train_length steps : Z) :
  let n := Z.of_nat (length df) in
  let stride := prediction_length p in
  0 <= prediction_start -> 0 < stride -> 0 <= steps ->
  n - prediction_start >= steps * stride ->
  let ws := windows p c prediction_start train_length steps in
  let rows w := iloc df (predict_start w) (predict_end w) in
  Z.of_nat (length ws) = steps
  /\ (forall i w, nth_error ws i = Some w ->
        predict_start w = prediction_start + Z.of_nat i * stride
        /\ predict_end w = predict_start w + stride
        /\ Z.of_nat (length (rows w)) = stride)
  /\ (forall i w w', nth_error ws i = Some w -> nth_error ws (S i) = Some w' ->
        predict_start w' = predict_end w)
  /\ (forall i j w w', (i < j)%nat ->
        nth_error ws i = Some w -> nth_error ws j = Some w' ->
        predict_end w <= predict_start w')
  /\ concat (map rows ws)
     = iloc df prediction_start (prediction_start + steps * stride)
  /\ Z.of_nat (length (concat (map rows ws))) = steps * stride.
Proof.
  intros n stride Hps Hs Hsteps Hn ws rows.
  assert (Hunion : concat (map rows ws)
                   = iloc df prediction_start (prediction_start + steps * stride)).
  { unfold ws, rows. rewrite <- (Z2Nat.id steps) by exact Hsteps.
    apply windows_union; fold stride; try assumption.
    rewrite Z2Nat.id by exact Hsteps. fold n. lia. }
  split; [unfold ws; rewrite windows_length; lia|].
  split.
  { intros i w Hw. apply windows_nth in Hw. destruct Hw as [-> Hi].
    simpl. unfold step_predict_end, step_predict_start. fold stride.
    split; [reflexivity|]. split; [reflexivity|].
    unfold rows. simpl. unfold step_predict_end, step_predict_start.
    fold stride. rewrite iloc_length; fold n; nia. }
  split.
  { intros i w w' Hw Hw'. apply windows_nth in Hw, Hw'.
    destruct Hw as [-> _], Hw' as [-> _]. simpl.
    unfold step_predict_end, step_predict_start. lia. }
  split.
  { intros i j w w' Hij Hw Hw'. apply windows_nth in Hw, Hw'.
    destruct Hw as [-> _], Hw' as [-> _]. simpl.
    unfold step_predict_end, step_predict_start. fold stride. nia. }
  split; [exact Hunion|].
  rewrite Hunion. rewrite iloc_length; fold n; nia.
Qed.

(** The bounds of the training span as lines 187-189 compute them:
    [train_end] is [predict_start - horizon - 1] and [train_start] is
    [max(0, train_end - train_length)].  When [train_end] is not negative
    the rows of the slice lie before it; a negative [train_end] is read
    from the end of the table ([iloc_negative_stop] below). *)
Lemma window_training_span (p : Params) (c : Config)
  (prediction_start train_length step : Z) :
  let w := window p c prediction_start train_length step in
  predict_start w = prediction_start + step * prediction_length p
  /\ predict_end w = predict_start w + prediction_length p
  /\ train_end w = predict_start w - label_horizon c - 1
  /\ train_start w = Z.max 0 (train_end w - train_length)
  /\ train_end w <= predict_start w - label_horizon c - 1
  /\ (train_end w - train_length < 0 -> train_start w = 0)
  /\ (forall n, 0 <= train_start w <= train_end w -> train_end w <= n ->
        Forall (fun i => train_start w <= i < predict_start w - label_horizon c - 1)
               (iloc (range n) (train_start w) (train_end w))).
Proof.
  intros w. unfold w, window. simpl.
  unfold step_train_start, step_train_end, step_predict_end, step_predict_start.
  repeat split; try lia.
  - destruct (_ <? 0) eqn:E; [apply Z.ltb_lt in E|apply Z.ltb_ge in E]; lia.
  - intros H. apply Z.ltb_lt in H. rewrite H. reflexivity.
  - intros n H1 H2. apply range_index; assumption.
Qed.

(** A negative [train_end] is a position counted from the end of the table
    ([df.iloc[0:-3]] drops the last three rows). *)
Remark iloc_negative_stop :
  iloc [0; 1; 2; 3; 4; 5; 6; 7; 8; 9] 0 (-3) = [0; 1; 2; 3; 4; 5; 6].
Proof. reflexivity. Qed.

(** *** Configuration check *)

Lemma configure_raises (p : Params) (n prediction_start : Z) (e : exn) :
  configure p n prediction_start = Raise e ->
  (e = ZeroDivisionError /\ effective_steps p n prediction_start = Raise e)
  \/ (e = ValueError steps_too_high
      /\ exists steps, effective_steps p n prediction_start = Ok steps
                       /\ n - prediction_start < steps * prediction_length p).
Proof.
  unfold configure.
  destruct (effective_steps p n prediction_start) as [steps|e'] eqn:E; simpl.
  - destruct (_ <? _) eqn:Hlt; [|discriminate].
    intros H. injection H as <-. right. split; [reflexivity|].
    exists steps. split; [reflexivity|]. apply Z.ltb_lt. exact Hlt.
  - intros H. injection H as <-. left. split; [|reflexivity].
    unfold effective_steps in E.
    destruct (falsy _); [destruct (_ =? 0)|destruct (prediction_count p)];
      congruence.
Qed.

Section Run.

Variables Row Pred Score : Type.
Variable has_na : list string -> Row -> bool.
Variable train_predict :
  string -> list string -> string -> list Row -> list Row -> result (list Pred).
Variable compute_scores : string -> list (PredFrame Pred) -> result Score.

Lemma main_configure_raises (p : Params) (c : Config)
  (schedule : option Z -> Z -> string -> string -> list nat)
  (df : list Row) (prediction_start : Z) (e : exn) :
  configure p (Z.of_nat (length df)) prediction_start = Raise e ->
  main has_na train_predict compute_scores p c schedule df prediction_start
  = ([], Raise e).
Proof. intros H. unfold main. rewrite H. reflexivity. Qed.

(** *** The event-logging monad *)

Local Abbreviation M := (Rolling.M Pred Score).

Lemma snd_mbind {A B : Type} (m : M A) (k : A -> M B) :
  snd (mbind m k) = match snd m with
                    | Ok a => snd (k a)
                    | Raise e => Raise e
                    end.
Proof.
  destruct m as [t [a|e]]; simpl; [|reflexivity].
  destruct (k a). reflexivity.
Qed.

Lemma fst_mbind {A B : Type} (m : M A) (k : A -> M B) :
  fst (mbind m k) = fst m ++ match snd m with
                             | Ok a => fst (k a)
                             | Raise e => []
                             end.
Proof.
  destruct m as [t [a|e]]; simpl; [|now rewrite app_nil_r].
  destruct (k a). reflexivity.
Qed.

Lemma mbind_lift_ok {A B : Type} (a : A) (k : A -> M B) :
  mbind (lift (Ok a)) k = k a.
Proof. unfold mbind, lift. destruct (k a). reflexivity. Qed.

Lemma mbind_lift_raise {A B : Type} (e : exn) (k : A -> M B) :
  mbind (lift (Raise e)) k = ([], Raise e).
Proof. reflexivity. Qed.

Lemma no_output_mbind {A B : Type} (m : M A) (k : A -> M B) :
  no_output (fst m) -> (forall a, no_output (fst (k a))) ->
  no_output (fst (mbind m k)).
Proof.
  intros Hm Hk. rewrite fst_mbind. apply Forall_app. split; [exact Hm|].
  destruct (snd m); [apply Hk|constructor].
Qed.

Lemma for_each_cons {A B : Type} (x : A) (l : list A) (body : B -> A -> M B)
  (acc : B) :
  snd (for_each (x :: l) body acc)
  = match snd (body acc x) with
    | Ok acc' => snd (for_each l body acc')
    | Raise e => Raise e
    end.
Proof. simpl. apply snd_mbind. Qed.

Lemma for_each_raises {A B : Type} (l : list A) (body : B -> A -> M B) (x : A) :
  In x l -> (forall acc, exists e, snd (body acc x) = Raise e) ->
  forall acc, exists e, snd (for_each l body acc) = Raise e.
Proof.
  intros Hin Hx. induction l as [|y l IH]; [contradiction|].
  intros acc. simpl. rewrite snd_mbind.
  destruct (snd (body acc y)) as [acc'|e] eqn:E; [|eauto].
  destruct Hin as [->|Hin].
  - destruct (Hx acc) as [e He]. congruence.
  - apply IH. exact Hin.
Qed.

Lemma for_each_no_output {A B : Type} (l : list A) (body : B -> A -> M B) :
  (forall acc x, no_output (fst (body acc x))) ->
  forall acc, no_output (fst (for_each l body acc)).
Proof.
  intros Hb. induction l as [|y l IH]; intros acc; simpl.
  - constructor.
  - apply no_output_mbind; [apply Hb|apply IH].
Qed.

Lemma for_each_snd_ext {A B : Type} (l : list A) (body1 body2 : B -> A -> M B) :
  (forall acc x, In x l -> snd (body1 acc x) = snd (body2 acc x)) ->
  forall acc, snd (for_each l body1 acc) = snd (for_each l body2 acc).
Proof.
  induction l as [|y l IH]; intros Hb acc; simpl; [reflexivity|].
  rewrite !snd_mbind, Hb by (left; reflexivity).
  destruct (snd (body2 acc y)); [|reflexivity].
  apply IH. intros acc' x Hx. apply Hb. right. exact Hx.
Qed.

Lemma for_each_invariant {A B : Type} (P : B -> Prop) (l : list A)
  (body : B -> A -> M B) :
  (forall acc x acc', P acc -> snd (body acc x) = Ok acc' -> P acc') ->
  forall acc acc', P acc -> snd (for_each l body acc) = Ok acc' -> P acc'.
Proof.
  intros Hb. induction l as [|y l IH]; intros acc acc' HP; simpl.
  - intros H. injection H as <-. exact HP.
  - rewrite snd_mbind. destruct (snd (body acc y)) as [acc1|] eqn:E;
      [|discriminate].
    apply IH. eapply Hb; eassumption.
Qed.

Lemma for_each_fold {A B C : Type} (g : B -> C) (u : C -> A -> C) (l : list A)
  (body : B -> A -> M B) :
  (forall acc x acc', snd (body acc x) = Ok acc' -> g acc' = u (g acc) x) ->
  forall acc acc', snd (for_each l body acc) = Ok acc' ->
                   g acc' = fold_left u l (g acc).
Proof.
  intros Hb. induction l as [|y l IH]; intros acc acc'; simpl.
  - intros H. injection H as <-. reflexivity.
  - rewrite snd_mbind. destruct (snd (body acc y)) as [acc1|] eqn:E;
      [|discriminate].
    intros H. rewrite (IH _ _ H). f_equal. apply Hb. exact E.
Qed.

(** *** The worker pool *)

Lemma in_completion_order (order : list nat) (n i : nat) :
  (i < n)%nat -> In i (completion_order order n).
Proof.
  intros Hi. unfold completion_order. apply in_or_app.
  set (named := nodup Nat.eq_dec (filter (fun j => Nat.ltb j n) order)).
  destruct (existsb (Nat.eqb i) named) eqn:E.
  - left. apply existsb_exists in E. destruct E as [j [Hj Hij]].
    apply Nat.eqb_eq in Hij. subst j. exact Hj.
  - right. apply filter_In. split; [apply in_seq; lia|].
    rewrite E. reflexivity.
Qed.

Section Pool.

Variable p : Params.
Variable schedule : option Z -> Z -> string -> string -> list nat.
Variable step : Z.
Variable features : list string.
Variable name_tag : string.
Variable train_df predict_df : list Row.
Variable label : string.

Let run (a : string) : result (list Pred) :=
  task train_predict features train_df predict_df label a.

Lemma find_completed (tasks : list string) (i : nat) (a : string) :
  nth_error tasks i = Some a ->
  forall l, In i l ->
  find (fun d : nat * string * result (list Pred) => Nat.eqb (fst (fst d)) i)
       (flat_map (fun j => match nth_error tasks j with
                           | Some b => [(j, b, run b)]
                           | None => []
                           end) l)
  = Some (i, a, run a).
Proof.
  intros Ha. induction l as [|j l IH]; [contradiction|].
  intros Hin. simpl. destruct (Nat.eq_dec j i) as [->|Hne].
  - rewrite Ha. simpl. rewrite Nat.eqb_refl. reflexivity.
  - destruct Hin as [Hj|Hin]; [contradiction|].
    destruct (nth_error tasks j); simpl.
    + apply Nat.eqb_neq in Hne. rewrite Hne. apply IH. exact Hin.
    + apply IH. exact Hin.
Qed.

(** A future holds the result of its own task, whatever the completion
    order. *)
Lemma future_result_completed (tasks : list string) (i : nat) (a : string) :
  nth_error tasks i = Some a ->
  future_result
    (completed train_predict p schedule step features name_tag
               train_df predict_df label tasks) i
  = run a.
Proof.
  intros Ha. unfold future_result, completed.
  rewrite (find_completed tasks i a Ha); [reflexivity|].
  apply in_completion_order. apply nth_error_Some. congruence.
Qed.

Local Abbreviation label_loop :=
  (@train_predict_label Row Pred Score train_predict p schedule step features
                        name_tag train_df predict_df label).

(** What the loop over one label computes, whatever the pool does. *)
Let label_body (df : PredFrame Pred) (a : string) : M (PredFrame Pred) :=
  mbind (lift (run a))
        (fun y_hat => assign df (score_column_name label name_tag a) y_hat).

Lemma items_results (done : list (nat * string * result (list Pred)))
  (tasks : list string) : forall k acc,
  (forall i a, nth_error tasks i = Some a ->
               future_result done (k + i) = run a) ->
  snd (for_each (items name_tag label k tasks)
         (fun df item =>
            mbind (lift (future_result done (snd item)))
                  (fun y_hat => assign df (fst item) y_hat) : M _)
         acc)
  = snd (for_each tasks label_body acc).
Proof.
  induction tasks as [|a tasks IH]; intros k acc Hf; [reflexivity|].
  cbn [items]. rewrite !for_each_cons. cbn [fst snd].
  assert (Hk : future_result done k = run a).
  { rewrite <- (Nat.add_0_r k). apply (Hf O). reflexivity. }
  rewrite Hk.
  change (mbind (lift (run a))
            (fun y_hat => assign acc (score_column_name label name_tag a) y_hat))
    with (label_body acc a).
  destruct (snd (label_body acc a)); [|reflexivity].
  apply IH. intros i b Hb.
  replace (S k + i)%nat with (k + S i)%nat by lia. apply Hf. exact Hb.
Qed.

Lemma train_predict_label_result (acc : PredFrame Pred) :
  snd (label_loop acc)
  = match pool_check p with
    | Ok _ => snd (for_each (enabled_algorithms p) label_body acc)
    | Raise e => Raise e
    end.
Proof.
  unfold train_predict_label, pool_check. destruct (use_multiprocessing p).
  - rewrite snd_mbind. cbn [lift snd].
    destruct (executor p) as [[]|e]; [|reflexivity].
    rewrite snd_mbind. cbn [log snd].
    apply items_results. intros i a Ha. simpl.
    apply future_result_completed. exact Ha.
  - apply for_each_snd_ext. intros df a _.
    unfold label_body. rewrite !snd_mbind. reflexivity.
Qed.

Lemma train_predict_label_no_output (acc : PredFrame Pred) :
  no_output (fst (label_loop acc)).
Proof.
  assert (Hassign : forall df nm y,
             no_output (fst (@assign Pred Score df nm y))).
  { intros df nm y. unfold assign. destruct (Nat.eqb _ _); constructor. }
  unfold train_predict_label. destruct (use_multiprocessing p).
  - apply no_output_mbind; [constructor|]. intros _.
    apply no_output_mbind.
    + simpl. apply Forall_forall. intros ev Hev. apply in_map_iff in Hev.
      destruct Hev as [d [<- _]]. exact I.
    + intros _. apply for_each_no_output. intros df item.
      apply no_output_mbind; [constructor|apply Hassign].
  - apply for_each_no_output. intros df a.
    apply no_output_mbind; [repeat constructor|]. intros _.
    apply no_output_mbind; [constructor|apply Hassign].
Qed.

Lemma train_predict_label_raises (a : string) (e : exn) :
  In a (enabled_algorithms p) -> run a = Raise e ->
  forall acc, exists e', snd (label_loop acc) = Raise e'.
Proof.
  intros Hin Hr acc. rewrite train_predict_label_result.
  destruct (pool_check p); [|eauto].
  apply (for_each_raises _ _ a Hin). intros df. exists e.
  unfold label_body. rewrite snd_mbind. simpl. rewrite Hr. reflexivity.
Qed.

Lemma columns_after_assign {S : Type} (cols : list (string * S)) (nm : string)
  (v : S) :
  columns (set_column cols nm v) = add_name (columns cols) nm.
Proof.
  unfold add_name, mem, columns.
  induction cols as [|[c0 s0] cols IH]; [reflexivity|].
  simpl. rewrite (String.eqb_sym nm c0).
  destruct (String.eqb c0 nm); simpl; [reflexivity|].
  rewrite IH. destruct (existsb (String.eqb nm) (map fst cols)); reflexivity.
Qed.

Lemma assign_ok (df df' : PredFrame Pred) (nm : string) (y : list Pred) :
  snd (@assign Pred Score df nm y) = Ok df' ->
  df' = mkFrame (frame_index df) (set_column (frame_columns df) nm y)
  /\ length y = length (frame_index df).
Proof.
  unfold assign. destruct (Nat.eqb _ _) eqn:E; simpl; [|discriminate].
  intros H. injection H as <-. apply Nat.eqb_eq in E. auto.
Qed.

Lemma aligned_set_column (idx : list Z) (cols : list (string * list Pred))
  (nm : string) (y : list Pred) :
  length y = length idx ->
  aligned (mkFrame idx cols) -> aligned (mkFrame idx (set_column cols nm y)).
Proof.
  unfold aligned. simpl. intros Hy.
  induction cols as [|[c0 s0] cols IH]; intros H; simpl.
  - constructor; [exact Hy|constructor].
  - inversion H; subst. destruct (String.eqb c0 nm).
    + constructor; [exact Hy|assumption].
    + constructor; [assumption|apply IH; assumption].
Qed.

Lemma label_body_ok (df df' : PredFrame Pred) (a : string) :
  snd (label_body df a) = Ok df' ->
  columns (frame_columns df')
  = add_name (columns (frame_columns df)) (score_column_name label name_tag a)
  /\ frame_index df' = frame_index df
  /\ (aligned df -> aligned df').
Proof.
  unfold label_body. rewrite snd_mbind. simpl.
  destruct (run a) as [y|]; [|discriminate].
  intros H. apply assign_ok in H. destruct H as [-> Hy].
  simpl. split; [apply columns_after_assign|]. split; [reflexivity|].
  destruct df as [idx cols]. apply aligned_set_column. exact Hy.
Qed.

Lemma fold_left_map {A B C : Type} (u : C -> B -> C) (f : A -> B) (l : list A) :
  forall acc, fold_left (fun acc x => u acc (f x)) l acc
              = fold_left u (map f l) acc.
Proof. induction l as [|x l IH]; intros acc; simpl; [reflexivity|apply IH]. Qed.

Lemma label_loop_ok (acc t : PredFrame Pred) :
  snd (label_loop acc) = Ok t ->
  columns (frame_columns t)
  = fold_left add_name
      (map (score_column_name label name_tag) (enabled_algorithms p))
      (columns (frame_columns acc))
  /\ frame_index t = frame_index acc
  /\ (aligned acc -> aligned t).
Proof.
  rewrite train_predict_label_result.
  destruct (pool_check p) as [[]|]; [|discriminate]. intros H.
  split; [|split].
  - rewrite <- fold_left_map.
    apply (for_each_fold (fun f : PredFrame Pred => columns (frame_columns f))
             (fun cols a => add_name cols (score_column_name label name_tag a))
             (enabled_algorithms p) label_body); [|exact H].
    intros df a df' Hb. apply label_body_ok in Hb. apply Hb.
  - apply (for_each_invariant
             (fun f : PredFrame Pred => frame_index f = frame_index acc)
             (enabled_algorithms p) label_body) with (acc := acc);
      [|reflexivity|exact H].
    intros df a df' Hd Hb. apply label_body_ok in Hb.
    destruct Hb as [_ [-> _]]. exact Hd.
  - intros Ha.
    apply (for_each_invariant (@aligned Pred) (enabled_algorithms p)
             label_body) with (acc := acc); [|exact Ha|exact H].
    intros df a df' Hd Hb. apply label_body_ok in Hb. apply Hb. exact Hd.
Qed.

End Pool.

(** *** One feature-set block, one window, the loop *)

Lemma fold_left_flat_map {A B C : Type} (u : C -> B -> C) (f : A -> list B)
  (l : list A) : forall acc,
  fold_left (fun acc x => fold_left u (f x) acc) l acc
  = fold_left u (flat_map f l) acc.
Proof.
  induction l as [|x l IH]; intros acc; simpl; [reflexivity|].
  rewrite fold_left_app. apply IH.
Qed.

Section Block.

Variable p : Params.
Variable c : Config.
Variable schedule : option Z -> Z -> string -> string -> list nat.
Variable df : list Row.
Variable prediction_start : Z.

Local Abbreviation block :=
  (@feature_set_block Row Pred Score has_na train_predict p c schedule df
                      prediction_start).
Local Abbreviation window_table :=
  (@predict_window Row Pred Score has_na train_predict p c schedule df
                   prediction_start).
Local Abbreviation loop :=
  (@rolling_loop Row Pred Score has_na train_predict p c schedule df
                 prediction_start).

Lemma block_no_output step features name_tag train_length predict_df acc :
  no_output (fst (block step features name_tag train_length predict_df acc)).
Proof.
  unfold feature_set_block. apply for_each_no_output. intros f label.
  apply train_predict_label_no_output.
Qed.

Lemma block_ok step features name_tag train_length predict_df acc t :
  snd (block step features name_tag train_length predict_df acc) = Ok t ->
  columns (frame_columns t)
  = fold_left add_name
      (flat_map (fun label => map (score_column_name label name_tag)
                                  (enabled_algorithms p))
                (labels c))
      (columns (frame_columns acc))
  /\ frame_index t = frame_index acc
  /\ (aligned acc -> aligned t).
Proof.
  unfold feature_set_block. intros H. split; [|split].
  - rewrite <- fold_left_flat_map.
    eapply (for_each_fold (fun f : PredFrame Pred => columns (frame_columns f))
              (fun cols label =>
                 fold_left add_name
                   (map (score_column_name label name_tag)
                        (enabled_algorithms p)) cols)); [|exact H].
    intros f label f' Hb. apply label_loop_ok in Hb. apply Hb.
  - eapply (for_each_invariant
              (fun f : PredFrame Pred => frame_index f = frame_index acc));
      [|reflexivity|exact H].
    intros f label f' Hd Hb. apply label_loop_ok in Hb.
    destruct Hb as [_ [-> _]]. exact Hd.
  - intros Ha.
    eapply (for_each_invariant (@aligned Pred)); [|exact Ha|exact H].
    intros f label f' Hd Hb. apply label_loop_ok in Hb. apply Hb. exact Hd.
Qed.

Lemma block_raises step features name_tag train_length predict_df
  (label a : string) (e : exn) :
  In label (labels c) -> In a (enabled_algorithms p) ->
  train_predict a features label
    (filter (fun r => negb (has_na features r))
       (iloc df (train_start (window p c prediction_start train_length step))
                (train_end (window p c prediction_start train_length step))))
    predict_df = Raise e ->
  forall acc, exists e',
    snd (block step features name_tag train_length predict_df acc) = Raise e'.
Proof.
  intros Hl Ha Hr. unfold feature_set_block.
  apply (for_each_raises _ _ label Hl). intros acc.
  apply (train_predict_label_raises _ _ _ _ _ _ _ _ a e Ha). exact Hr.
Qed.

Lemma window_no_output step : no_output (fst (window_table step)).
Proof.
  unfold predict_window. apply no_output_mbind.
  - destruct (mem "kline" _); [apply block_no_output|constructor].
  - intros f. destruct (mem "futur" _); [apply block_no_output|constructor].
Qed.

Lemma window_raises step features_tag_length (label a : string) (e : exn) :
  In features_tag_length (feature_set_blocks p c) ->
  In label (labels c) -> In a (enabled_algorithms p) ->
  window_task has_na train_predict p c df prediction_start step
              features_tag_length label a = Raise e ->
  exists e', snd (window_table step) = Raise e'.
Proof.
  intros Hb Hl Ha Hr. unfold predict_window. rewrite snd_mbind.
  unfold feature_set_blocks in Hb.
  destruct (mem "kline" (feature_sets p)) eqn:Ek.
  - destruct Hb as [<-|Hb].
    + edestruct (block_raises step (features_kline c) "_k_"
                   (kline_train_length p)) as [e' He']; [exact Hl|exact Ha| |].
      * exact Hr.
      * rewrite He'. eauto.
    + destruct (snd (block _ _ _ _ _ _)) as [f|e0]; [|eauto].
      destruct (mem "futur" (feature_sets p)); [|contradiction].
      destruct Hb as [<-|[]].
      apply (block_raises step (features_futur c) "_f_"
               (futur_train_length p) _ label a e Hl Ha Hr).
  - simpl in Hb |- *. destruct (mem "futur" (feature_sets p)); [|contradiction].
    destruct Hb as [<-|[]].
    apply (block_raises step (features_futur c) "_f_"
             (futur_train_length p) _ label a e Hl Ha Hr).
Qed.

Lemma iloc_length_eq {A B : Type} (l : list A) (l' : list B) (a b : Z) :
  length l = length l' -> length (iloc l a b) = length (iloc l' a b).
Proof.
  intros H. unfold iloc. rewrite !length_skipn, !length_firstn, H. reflexivity.
Qed.

Lemma window_ok step t :
  snd (window_table step) = Ok t ->
  columns (frame_columns t) = window_columns p c
  /\ frame_index t
     = iloc (range (Z.of_nat (length df)))
            (step_predict_start p prediction_start step)
            (step_predict_end p prediction_start step)
  /\ aligned t.
Proof.
  unfold predict_window, window_columns, iteration_names, feature_set_blocks.
  rewrite snd_mbind.
  set (f0 := mkFrame _ (@nil (string * list Pred))).
  assert (H0 : aligned f0) by constructor.
  destruct (mem "kline" (feature_sets p)).
  - destruct (snd (block step _ "_k_" _ _ f0)) as [f1|] eqn:E1; [|discriminate].
    apply block_ok in E1. destruct E1 as [C1 [I1 A1]].
    destruct (mem "futur" (feature_sets p)).
    + intros E2. apply block_ok in E2. destruct E2 as [C2 [I2 A2]].
      split; [|split; [rewrite I2, I1; reflexivity|auto]].
      rewrite C2, C1. simpl. rewrite app_nil_r, fold_left_app. reflexivity.
    + simpl. intros H. injection H as <-.
      split; [|split; [rewrite I1; reflexivity|auto]].
      rewrite C1. simpl. rewrite app_nil_r. reflexivity.
  - simpl. destruct (mem "futur" (feature_sets p)).
    + intros E2. apply block_ok in E2. destruct E2 as [C2 [I2 A2]].
      split; [|split; [rewrite I2; reflexivity|auto]].
      rewrite C2. simpl. rewrite app_nil_r. reflexivity.
    + simpl. intros H. injection H as <-. auto.
Qed.

Lemma loop_no_output steps : no_output (fst (loop steps)).
Proof.
  unfold rolling_loop. apply for_each_no_output. intros acc step.
  apply no_output_mbind; [apply window_no_output|]. intros f. constructor.
Qed.

Lemma loop_raises steps :
  some_task_raises has_na train_predict p c df prediction_start steps ->
  exists e, snd (loop steps) = Raise e.
Proof.
  intros [step [b [label [a [e [Hs [Hb [Hl [Ha Hr]]]]]]]]].
  unfold rolling_loop. apply (for_each_raises _ _ step Hs). intros acc.
  destruct (window_raises step b label a e Hb Hl Ha Hr) as [e' He'].
  exists e'. rewrite snd_mbind, He'. reflexivity.
Qed.

End Block.

(** *** Independence of the pool size and of the completion order *)

Section Determinism.

Variable p : Params.
Variable c : Config.
Variables schedule1 schedule2 : option Z -> Z -> string -> string -> list nat.
Variables workers1 workers2 : option Z.
Variable df : list Row.
Variable prediction_start : Z.

Hypothesis valid1 : valid_pool_size workers1.
Hypothesis valid2 : valid_pool_size workers2.






End Determinism.

End Run.

(** C5. When some train-predict task of some window raises, the rolling
    loop raises and returns no accumulated table, the whole run raises, and
    the run stores nothing: its trace holds training events only, neither
    the predictions nor the score report are written. *)
Theorem failing_task_aborts_run (Row Pred Score : Type)
  (has_na : list string -> Row -> bool)
  (train_predict : string -> list string -> string -> list Row -> list Row ->
                   result (list Pred))
  (compute_scores : string -> list (PredFrame Pred) -> result Score)
  (p : Params) (c : Config)
  (schedule : option Z -> Z -> string -> string -> list nat)
  (df : list Row) (prediction_start steps : Z) :
  effective_steps p (Z.of_nat (length df)) prediction_start = Ok steps ->
  some_task_raises has_na train_predict p c df prediction_start steps ->
  let run := @main Row Pred Score has_na train_predict compute_scores
                   p c schedule df prediction_start in
  (exists e, snd (@rolling_loop Row Pred Score has_na train_predict
                    p c schedule df prediction_start steps) = Raise e)
  /\ (exists e, snd run = Raise e)
  /\ no_output (fst run).
Proof.
  intros Hsteps Hfail run.
  destruct (loop_raises Row Pred Score has_na train_predict p c schedule df
              prediction_start steps Hfail) as [e He].
  split; [eauto|].
  unfold run, main, configure. rewrite Hsteps. cbn [bind].
  destruct (_ <? _).
  - rewrite mbind_lift_raise. simpl. split; [eauto|constructor].
  - rewrite mbind_lift_ok, snd_mbind, fst_mbind, He.
    split; [eauto|]. rewrite app_nil_r. apply loop_no_output.
Qed.

Lemma failing_task_aborts_run_witness :
  (exists e,
     snd (@main Z Z Z (fun _ _ => false)
            (fun _ _ _ _ test =>
               match test with
               | 6 :: _ => Raise (OtherError "training failed")
               | _ => Ok test
               end)
            (fun _ _ => Ok 0)
            (mkParams ["kline"%string] ["nn"%string] 4 4 2 (Some 3) true
                      (Some 2))
            (mkConfig 1 ["y"%string] ["f"%string] [])
            (fun _ _ _ _ => []) [0; 1; 2; 3; 4; 5; 6; 7; 8; 9; 10] 4)
     = Raise e)
  /\ no_output
       (fst (@main Z Z Z (fun _ _ => false)
               (fun _ _ _ _ test =>
                  match test with
                  | 6 :: _ => Raise (OtherError "training failed")
                  | _ => Ok test
                  end)
               (fun _ _ => Ok 0)
               (mkParams ["kline"%string] ["nn"%string] 4 4 2 (Some 3) true
                         (Some 2))
               (mkConfig 1 ["y"%string] ["f"%string] [])
               (fun _ _ _ _ => []) [0; 1; 2; 3; 4; 5; 6; 7; 8; 9; 10] 4)).
Proof.
  refine (proj2 (failing_task_aborts_run Z Z Z (fun _ _ => false)
      (fun _ _ _ _ test => match test with
                           | 6 :: _ => Raise (OtherError "training failed")
                           | _ => Ok test
                           end)
      (fun _ _ => Ok 0)
      (mkParams ["kline"%string] ["nn"%string] 4 4 2 (Some 3) true (Some 2))
      (mkConfig 1 ["y"%string] ["f"%string] [])
      (fun _ _ _ _ => []) [0; 1; 2; 3; 4; 5; 6; 7; 8; 9; 10] 4 3 eq_refl _)).
  exists 1, (["f"%string], "_k_"%string, 4), "y"%string, "nn"%string,
         (OtherError "training failed").
  repeat split; vm_compute; auto.
Defined.


(** A pool size of zero is rejected when the pool is created, before any
    task is submitted. *)
Remark pool_size_zero_raises :
  @predict_window Z Z Z (fun _ _ => false) (fun _ _ _ _ test => Ok test)
    (mkParams ["kline"%string] ["nn"%string] 4 4 2 (Some 3) true (Some 0))
    (mkConfig 1 ["y"%string] ["f"%string] [])
    (fun _ _ _ _ => []) [0; 1; 2; 3; 4; 5; 6; 7; 8; 9; 10] 4 0
  = ([], Raise (ValueError bad_max_workers)).
Proof. reflexivity. Qed.

(** The check of lines 140-146 is made on the step count that
    [effective_steps] gives; a run that passes it predicts [stride] rows
    in every window. *)
Lemma configure_insufficient_data (p : Params) (n prediction_start : Z) :
  let stride := prediction_length p in
  (configure p n prediction_start = Raise (ValueError steps_too_high)
   <-> exists steps, effective_steps p n prediction_start = Ok steps
                     /\ n - prediction_start < steps * stride)
  /\ (forall (Row Pred Score : Type) has_na train_predict compute_scores
             c schedule (df : list Row) e,
        n = Z.of_nat (length df) ->
        configure p n prediction_start = Raise e ->
        @main Row Pred Score has_na train_predict compute_scores
              p c schedule df prediction_start
        = ([], Raise e))
  /\ (forall (A : Type) (df : list A) steps step,
        n = Z.of_nat (length df) ->
        configure p n prediction_start = Ok steps ->
        0 <= prediction_start -> 0 < stride ->
        In step (range steps) ->
        Z.of_nat (length (iloc df (step_predict_start p prediction_start step)
                                  (step_predict_end p prediction_start step)))
        = stride)
  /\ (falsy (prediction_count p) = true -> 0 < stride ->
      effective_steps p n prediction_start
      = Ok ((n - prediction_start) / stride)
      /\ configure p n prediction_start
         = Ok ((n - prediction_start) / stride)).
Proof.
  intros stride. split; [|split; [|split]].
  - split.
    + intros H. apply configure_raises in H.
      destruct H as [[H _]|[_ H]]; [discriminate|exact H].
    + intros [steps [E Hlt]]. unfold configure. rewrite E. simpl.
      apply Z.ltb_lt in Hlt. fold stride. rewrite Hlt. reflexivity.
  - intros Row Pred Score has_na train_predict compute_scores c schedule df e
           -> H.
    apply main_configure_raises. exact H.
  - intros A df steps step -> H Hps Hs Hin.
    apply in_range in Hin. unfold configure in H.
    destruct (effective_steps _ _ _) as [steps'|]; [|discriminate].
    simpl in H. destruct (_ <? _) eqn:Hlt; [discriminate|].
    injection H as ->. apply Z.ltb_ge in Hlt. fold stride in Hlt.
    unfold step_predict_end, step_predict_start. fold stride.
    rewrite iloc_length; nia.
  - intros Hf Hs. unfold configure, effective_steps. rewrite Hf.
    fold stride.
    destruct (stride =? 0) eqn:E0; [apply Z.eqb_eq in E0; lia|].
    split; [reflexivity|]. simpl.
    assert (Hdiv : (n - prediction_start) / stride * stride
                   <= n - prediction_start).
    { rewrite Z.mul_comm. apply Z.mul_div_le. exact Hs. }
    apply Z.ltb_ge in Hdiv. fold stride. rewrite Hdiv. reflexivity.
Qed.


End RollingProofs.

(* ================================================================== *)
(** * More on the trade simulator *)
(* ================================================================== *)

Module TradeExtra.
Import Trade TradeLog.

(** ** Rows that carry no signal *)

Lemma run_from_quiet (rows : list Row) : forall s,
  run_from s (filter (fun r => top_score r || bot_score r) rows)
  = run_from s rows.
Proof.
  induction rows as [|r rows IH]; intros s; [reflexivity|].
  simpl. destruct (top_score r || bot_score r) eqn:E; simpl.
  - apply IH.
  - apply orb_false_iff in E. destruct E as [Ht Hb].
    rewrite IH. f_equal. unfold step. rewrite Ht, Hb.
    destruct (is_buy_mode s); reflexivity.
Qed.

(** X1. Rows on which neither signal is set do not influence the result:
    dropping them from the input leaves every component of the returned
    tuple unchanged. *)
Theorem performance_score_quiet_rows (rows : list Row) :
  performance_score (filter (fun r => top_score r || bot_score r) rows)
  = performance_score rows.
Proof.
  unfold performance_score, run. rewrite run_from_quiet. reflexivity.
Qed.

Lemma run_from_no_buy (rows : list Row) : forall s,
  is_buy_mode s = true ->
  Forall (fun r => bot_score r = false) rows ->
  run_from s rows = s.
Proof.
  induction rows as [|r rows IH]; intros s Hm H; [reflexivity|].
  inversion H as [|x l Hr Hrows]; subst. simpl.
  assert (E : step s r = s) by (unfold step; rewrite Hm, Hr; reflexivity).
  rewrite E. apply IH; assumption.
Qed.

(** X2. Sell signals before the first buy signal are ignored: leading rows
    without a buy signal can be dropped, and an input without any buy
    signal yields no trade and zero performance. *)
Theorem performance_score_before_first_buy (rows rest : list Row) :
  Forall (fun r => bot_score r = false) rows ->
  performance_score (rows ++ rest) = performance_score rest
  /\ performance_score rows = (0, 0, 0, 0, 0, 0, [], []).
Proof.
  intros H. unfold performance_score, run. rewrite TradeProofs.run_from_app.
  rewrite (run_from_no_buy rows init eq_refl H). split; reflexivity.
Qed.

Lemma performance_score_before_first_buy_witness :
  performance_score
    ([mkRow 0 true false 10; mkRow 1 true false 12]
       ++ [mkRow 2 false true 9; mkRow 3 true false 11])
  = performance_score [mkRow 2 false true 9; mkRow 3 true false 11].
Proof.
  exact (proj1 (performance_score_before_first_buy
                  [mkRow 0 true false 10; mkRow 1 true false 12]
                  [mkRow 2 false true 9; mkRow 3 true false 11]
                  ltac:(repeat constructor))).
Defined.

(** ** What the recorded trades hold *)

Lemma nth_error_snoc {A : Type} (l : list A) (x : A) (k : nat) (y : A) :
  nth_error (l ++ [x]) k = Some y ->
  nth_error l k = Some y \/ (k = length l /\ y = x).
Proof.
  intros H. destruct (Nat.lt_ge_cases k (length l)) as [Hlt|Hge].
  - left. rewrite nth_error_app1 in H by exact Hlt. exact H.
  - right. rewrite nth_error_app2 in H by exact Hge.
    destruct (k - length l)%nat as [|m] eqn:E; simpl in H.
    + injection H as <-. split; [lia|reflexivity].
    + destruct m; discriminate.
Qed.

Lemma nth_error_snoc_old {A : Type} (l : list A) (x : A) (k : nat) (y : A) :
  nth_error l k = Some y -> nth_error (l ++ [x]) k = Some y.
Proof.
  intros H. rewrite nth_error_app1; [exact H|].
  apply nth_error_Some. congruence.
Qed.

Lemma last_price_nth (l : list Event) (e : Event) :
  nth_error l (length l - 1) = Some e -> l <> [] ->
  last_price l = Some (ev_price e).
Proof.
  intros H Hne.
  destruct (exists_last Hne) as [l' [x E]]. subst l.
  rewrite TradeProofs.last_price_snoc.
  rewrite length_app in H. simpl in H.
  replace (length l' + 1 - 1)%nat with (length l') in H by lia.
  rewrite nth_error_app2 in H by lia.
  replace (length l' - length l')%nat with O in H by lia.
  simpl in H. congruence.
Qed.

Lemma last_price_some (l : list Event) (p : Z) :
  last_price l = Some p ->
  exists e, nth_error l (length l - 1) = Some e /\ ev_price e = p /\ l <> [].
Proof.
  intros H. destruct l as [|x l0] eqn:El; [discriminate|]. rewrite <- El in *.
  assert (Hne : l <> []) by (rewrite El; discriminate).
  destruct (exists_last Hne) as [l' [y E]]. rewrite E in *.
  rewrite TradeProofs.last_price_snoc in H. injection H as <-.
  exists y. rewrite length_app. simpl.
  replace (length l' + 1 - 1)%nat with (length l') by lia.
  rewrite nth_error_app2 by lia.
  replace (length l' - length l')%nat with O by lia. auto.
Qed.

Lemma paired_init : paired init.
Proof.
  constructor; simpl; try reflexivity.
  - intros e H. discriminate.
  - intros [|k] e H; discriminate.
  - intros k e H. discriminate.
Qed.

Lemma paired_step (s : State) (r : Row) : paired s -> paired (step s r).
Proof.
  intros [Hlen Hfirst Hlong Hshort]. unfold step.
  destruct (is_buy_mode s) eqn:Hm.
  - destruct (bot_score r); [|constructor; rewrite ?Hm; assumption].
    constructor; cbn [shorts longs is_buy_mode].
    + rewrite length_app. simpl. lia.
    + intros e He. apply nth_error_snoc in He.
      destruct He as [He|[Hk ->]]; [apply Hfirst; exact He|].
      cbn [ev_profit]. assert (Hl : longs s = []).
      { destruct (longs s); [reflexivity|]. simpl in Hlen. lia. }
      rewrite Hl. reflexivity.
    + intros k e He. destruct (Hlong k e He) as [sh [Hsh Hp]].
      exists sh. split; [apply nth_error_snoc_old; exact Hsh|exact Hp].
    + intros k e He. apply nth_error_snoc in He.
      destruct He as [He|[Hk ->]]; [apply Hshort; exact He|].
      cbn [ev_profit ev_price]. destruct (last_price (longs s)) as [p|] eqn:Elp.
      * apply last_price_some in Elp. destruct Elp as [lo [Hlo [Hp _]]].
        exists lo. split; [|lia].
        replace k with (length (longs s) - 1)%nat by lia. exact Hlo.
      * apply TradeProofs.last_price_none in Elp. rewrite Elp in Hlen.
        simpl in Hlen. lia.
  - destruct (top_score r); [|constructor; rewrite ?Hm; assumption].
    constructor; cbn [shorts longs is_buy_mode].
    + rewrite length_app. simpl. lia.
    + exact Hfirst.
    + intros k e He. apply nth_error_snoc in He.
      destruct He as [He|[Hk ->]]; [apply Hlong; exact He|].
      cbn [ev_profit ev_price]. destruct (last_price (shorts s)) as [p|] eqn:Elp.
      * apply last_price_some in Elp. destruct Elp as [sh [Hsh [Hp _]]].
        exists sh. split; [|lia].
        replace k with (length (shorts s) - 1)%nat by lia. exact Hsh.
      * apply TradeProofs.last_price_none in Elp. rewrite Elp in Hlen.
        simpl in Hlen. lia.
    + intros k e He. destruct (Hshort k e He) as [lo [Hlo Hp]].
      exists lo. split; [apply nth_error_snoc_old; exact Hlo|exact Hp].
Qed.

Lemma paired_run_from (rows : list Row) : forall s,
  paired s -> paired (run_from s rows).
Proof.
  induction rows as [|r rows IH]; intros s Hs; simpl; [exact Hs|].
  apply IH, paired_step, Hs.
Qed.

(** X3. The profit of every recorded trade is the price difference to the
    trade recorded just before it: the k-th long has profit
    (its price - price of the k-th short), the (k+1)-th short has profit
    (price of the k-th long - its price), and the first short has profit
    0. *)
Theorem performance_score_profits (rows : list Row) :
  let s := run rows in
  (forall e, nth_error (shorts s) 0 = Some e -> ev_profit e = 0)
  /\ (forall k e, nth_error (longs s) k = Some e ->
        exists sh, nth_error (shorts s) k = Some sh
                   /\ ev_profit e = ev_price e - ev_price sh)
  /\ (forall k e, nth_error (shorts s) (S k) = Some e ->
        exists lo, nth_error (longs s) k = Some lo
                   /\ ev_profit e = ev_price lo - ev_price e).
Proof.
  intros s. destruct (paired_run_from rows init paired_init) as [_ H1 H2 H3].
  fold (run rows) in H1, H2, H3. auto.
Qed.

Lemma performance_score_profits_witness :
  exists sh,
    nth_error (shorts (run (rows_from 0 [false; false; true] [false; true; false]
                                      [10; 9; 11]))) 0 = Some sh
    /\ ev_profit (mkEvent 2 false 11 2)
       = ev_price (mkEvent 2 false 11 2) - ev_price sh.
Proof.
  exact (proj1 (proj2 (performance_score_profits
                         (rows_from 0 [false; false; true] [false; true; false]
                                    [10; 9; 11])))
               O (mkEvent 2 false 11 2) eq_refl).
Defined.

(** ** Where the recorded trades come from *)

Lemma profitable_snoc (l : list Event) (e : Event) :
  profitable (l ++ [e])
  = profitable l + (if 0 <? ev_profit e then 1 else 0).
Proof.
  unfold profitable. rewrite filter_app, length_app. simpl.
  destruct (0 <? ev_profit e); simpl; lia.
Qed.

Lemma sourced_more (rows : list Row) (r : Row) (s : State) :
  sourced rows s -> sourced (rows ++ [r]) s.
Proof.
  intros [Hs Hl Hps Hpl]. constructor; try assumption.
  - eapply Forall_impl; [|exact Hs]. intros e [r0 [Hin H]].
    exists r0. split; [apply in_or_app; left; exact Hin|exact H].
  - eapply Forall_impl; [|exact Hl]. intros e [r0 [Hin H]].
    exists r0. split; [apply in_or_app; left; exact Hin|exact H].
Qed.

Lemma sourced_run (rows : list Row) : sourced rows (run rows).
Proof.
  induction rows as [|r rows IH] using rev_ind.
  - constructor; simpl; constructor.
  - rewrite TradeProofs.run_snoc. apply (sourced_more rows r) in IH.
    destruct IH as [Hs Hl Hps Hpl]. unfold step.
    destruct (is_buy_mode (run rows)) eqn:Hm.
    + destruct (bot_score r) eqn:Hb; [|constructor; assumption].
      constructor; cbn [shorts longs short_profitable long_profitable];
        try assumption.
      * apply Forall_app. split; [exact Hs|]. constructor; [|constructor].
        exists r. split; [apply in_or_app; right; left; reflexivity|].
        split; [exact Hb|]. repeat split.
      * rewrite profitable_snoc. cbn [ev_profit]. rewrite Hps.
        destruct (0 <? _); lia.
    + destruct (top_score r) eqn:Ht; [|constructor; assumption].
      constructor; cbn [shorts longs short_profitable long_profitable];
        try assumption.
      * apply Forall_app. split; [exact Hl|]. constructor; [|constructor].
        exists r. split; [apply in_or_app; right; left; reflexivity|].
        split; [exact Ht|]. repeat split.
      * rewrite profitable_snoc. cbn [ev_profit]. rewrite Hpl.
        destruct (0 <? _); lia.
Qed.

(** X4. The two profitable counters are exactly the numbers of recorded
    longs and shorts with a positive profit. *)
Theorem performance_score_profitable (rows : list Row) :
  long_profitable (run rows) = profitable (longs (run rows))
  /\ short_profitable (run rows) = profitable (shorts (run rows)).
Proof.
  destruct (sourced_run rows) as [_ _ Hps Hpl]. split; assumption.
Qed.

(** X5. Every recorded short was taken from an input row with a buy signal
    and every recorded long from an input row with a sell signal: the event
    carries that row's index and price, and the mode it was recorded in
    (buy mode for shorts, the other mode for longs). *)
Theorem performance_score_sources (rows : list Row) :
  (forall e, In e (shorts (run rows)) ->
     exists r, In r rows /\ bot_score r = true
               /\ ev_index e = index r /\ ev_price e = price r
               /\ ev_mode e = true)
  /\ (forall e, In e (longs (run rows)) ->
        exists r, In r rows /\ top_score r = true
                  /\ ev_index e = index r /\ ev_price e = price r
                  /\ ev_mode e = false).
Proof.
  destruct (sourced_run rows) as [Hs Hl _ _].
  rewrite Forall_forall in Hs, Hl. unfold recorded_from in *. split.
  - intros e He. destruct (Hs e He) as [r H]. exists r. tauto.
  - intros e He. destruct (Hl e He) as [r H]. exists r. tauto.
Qed.

Lemma performance_score_sources_witness :
  exists r,
    In r (rows_from 0 [false; false; true] [false; true; false] [10; 9; 11])
    /\ top_score r = true
    /\ ev_index (mkEvent 2 false 11 2) = index r
    /\ ev_price (mkEvent 2 false 11 2) = price r
    /\ ev_mode (mkEvent 2 false 11 2) = false.
Proof.
  exact (proj2 (performance_score_sources
                  (rows_from 0 [false; false; true] [false; true; false]
                             [10; 9; 11]))
               (mkEvent 2 false 11 2) (or_introl eq_refl)).
Defined.

(** ** How many trades there can be *)

Lemma trade_counts_from (rows : list Row) : forall s,
  (length (shorts (run_from s rows))
   <= length (shorts s) + length (filter bot_score rows))%nat
  /\ (length (longs (run_from s rows))
      <= length (longs s) + length (filter top_score rows))%nat
  /\ (length (shorts (run_from s rows)) + length (longs (run_from s rows))
      <= length (shorts s) + length (longs s) + length rows)%nat.
Proof.
  induction rows as [|r rows IH]; intros s; simpl; [lia|].
  destruct (IH (step s r)) as [H1 [H2 H3]].
  unfold step in *. destruct (is_buy_mode s).
  - destruct (bot_score r); simpl in *.
    + rewrite length_app in *. simpl in *.
      destruct (top_score r); simpl; lia.
    + destruct (top_score r); simpl; lia.
  - destruct (top_score r); simpl in *.
    + rewrite length_app in *. simpl in *.
      destruct (bot_score r); simpl; lia.
    + destruct (bot_score r); simpl; lia.
Qed.

(** X6. There are never more shorts than rows with a buy signal, never
    more longs than rows with a sell signal, never more longs than shorts,
    and never more trades in total than rows. *)
Theorem performance_score_counts (rows : list Row) :
  short_count (run rows) <= Z.of_nat (length (filter bot_score rows))
  /\ long_count (run rows) <= Z.of_nat (length (filter top_score rows))
  /\ long_count (run rows) <= short_count (run rows)
  /\ short_count (run rows) + long_count (run rows)
     <= Z.of_nat (length rows).
Proof.
  destruct (TradeProofs.consistent_run_from init rows
              TradeProofs.consistent_init) as [Hl Hs _ _ _ _ Halt].
  fold (run rows) in Hl, Hs, Halt.
  destruct (trade_counts_from rows init) as [H1 [H2 H3]].
  fold (run rows) in H1, H2, H3. simpl in H1, H2, H3.
  rewrite Hl, Hs in *. repeat split; try lia.
  destruct (is_buy_mode (run rows)); lia.
Qed.

End TradeExtra.

(* ================================================================== *)
(** * More on the interval scorer *)
(* ================================================================== *)

Module IntervalExtra.
Import Py Frame Interval.

(** ** Which inputs are rejected *)

Lemma astype_int_present (out : list (option scalar)) :
  Forall (fun v => v <> None) out -> exists zs, astype_int out = Ok zs.
Proof.
  induction 1 as [|v out Hv _ [zs IH]]; [exists []; reflexivity|].
  destruct v as [[b|z|q]|]; [| | |congruence]; simpl; rewrite IH; simpl; eauto.
Qed.

Lemma diff_bool_present (l : list bool) : forall prev,
  Forall (fun v => v <> None) (diff_bool prev l).
Proof. induction l; intros; simpl; constructor; [discriminate|auto]. Qed.

Lemma diff_int_present (l : list Z) : forall prev,
  Forall (fun v => v <> None) (diff_int prev l).
Proof. induction l; intros; simpl; constructor; [discriminate|auto]. Qed.

Lemma diff_num_present (l : list Q) : forall prev,
  Forall (fun v => v <> None) (diff_num prev l).
Proof. induction l; intros; simpl; constructor; [discriminate|auto]. Qed.

Lemma transitions_total (lab : Series) :
  series_length lab <> O ->
  exists zs, (out <- iloc0_set (diff lab) (SBool false) ;; astype_int out)
             = Ok zs.
Proof.
  intros Hne.
  destruct lab as [[|b l]|[|z l]|[|q l]]; simpl in Hne; try congruence;
    simpl.
  - destruct (astype_int_present _ (diff_bool_present l b)) as [zs E].
    rewrite E. simpl. eauto.
  - destruct (astype_int_present _ (diff_int_present l z)) as [zs E].
    rewrite E. simpl. eauto.
  - destruct (astype_int_present _ (diff_num_present l q)) as [zs E].
    rewrite E. simpl. eauto.
Qed.

Lemma transitions_empty (lab : Series) :
  series_length lab = O ->
  iloc0_set (diff lab) (SBool false) = Raise IndexError.
Proof.
  destruct lab as [[|b l]|[|z l]|[|q l]]; simpl; intros H;
    try discriminate; reflexivity.
Qed.

Lemma get_column_kept (df : DataFrame) (c c' : string) (v : Series) :
  get_column df c <> None -> get_column (set_column df c' v) c <> None.
Proof.
  intros H. destruct (String.eqb_spec c' c) as [E|Hne].
  - rewrite E, IntervalProofs.get_set_same. discriminate.
  - rewrite IntervalProofs.get_set_other by exact Hne. exact H.
Qed.

(** X7. The outcome of [find_interval_score] by input: a missing label
    column is a [KeyError]; an empty label column an [IndexError]; a
    missing score column a [KeyError]; a label or score column named
    [interval_no] a [ValueError] (the index cannot be inserted as a
    column); every other input yields a result. *)
Theorem find_interval_score_outcome
  (df : DataFrame) (label_column score_column : string) (threshold : Q) :
  let call := find_interval_score df label_column score_column threshold in
  let clash := ValueError "cannot insert interval_no, already exists" in
  (get_column df label_column = None -> call = Raise KeyError)
  /\ (forall lab, get_column df label_column = Some lab ->
        series_length lab = O -> call = Raise IndexError)
  /\ (forall lab, get_column df label_column = Some lab ->
        series_length lab <> O ->
        (score_column = interval_no_column -> call = Raise clash)
        /\ (score_column <> interval_no_column ->
            get_column df score_column = None -> call = Raise KeyError)
        /\ (score_column <> interval_no_column ->
            get_column df score_column <> None ->
            label_column = interval_no_column -> call = Raise clash)
        /\ (score_column <> interval_no_column ->
            get_column df score_column <> None ->
            label_column <> interval_no_column ->
            exists res, call = Ok res)).
Proof.
  intros call clash. unfold call, find_interval_score.
  split; [intros ->; reflexivity|].
  split.
  { intros lab -> Hlen. cbn [of_option bind].
    rewrite (transitions_empty lab Hlen). reflexivity. }
  intros lab Hl Hlen. rewrite Hl. cbn [of_option bind].
  destruct (transitions_total lab Hlen) as [zs E].
  destruct (iloc0_set (diff lab) (SBool false)) as [out|]; [|discriminate].
  cbn [bind] in E |- *. rewrite E. cbn [bind].
  set (df1 := set_column df interval_no_column (IntCol (cumsum zs))).
  assert (Hkept : forall v,
             get_column (set_column df1 (greater_than_threshold score_column) v)
                        label_column <> None).
  { intros v. apply get_column_kept. apply get_column_kept. congruence. }
  assert (Hfinish : forall sc,
             get_column df1 score_column = Some sc ->
             (label_column = interval_no_column
              \/ score_column = interval_no_column ->
              (scores <- of_option KeyError (get_column df1 score_column) ;;
               let df0 := set_column df1 (greater_than_threshold score_column)
                            (BoolCol (ge_threshold scores threshold)) in
               labels <- of_option KeyError (get_column df0 label_column) ;;
               let interval_label := groupby_max (cumsum zs) labels in
               flags <- of_option KeyError
                          (get_column df0
                             (greater_than_threshold score_column)) ;;
               let interval_score := groupby_max (cumsum zs) flags in
               if (label_column =? interval_no_column)%string
                  || (score_column =? interval_no_column)%string
               then Raise clash
               else Ok (df0,
                        [(interval_no_column, IntCol (group_keys (cumsum zs)));
                         (label_column, interval_label);
                         (score_column, interval_score)]))
              = Raise clash)
             /\ (label_column <> interval_no_column ->
                 score_column <> interval_no_column ->
                 exists res,
                   (scores <- of_option KeyError (get_column df1 score_column) ;;
                    let df0 := set_column df1
                                 (greater_than_threshold score_column)
                                 (BoolCol (ge_threshold scores threshold)) in
                    labels <- of_option KeyError (get_column df0 label_column) ;;
                    let interval_label := groupby_max (cumsum zs) labels in
                    flags <- of_option KeyError
                               (get_column df0
                                  (greater_than_threshold score_column)) ;;
                    let interval_score := groupby_max (cumsum zs) flags in
                    if (label_column =? interval_no_column)%string
                       || (score_column =? interval_no_column)%string
                    then Raise clash
                    else Ok (df0,
                             [(interval_no_column,
                               IntCol (group_keys (cumsum zs)));
                              (label_column, interval_label);
                              (score_column, interval_score)]))
                   = Ok res)).
  { intros sc Hsc. rewrite Hsc. cbn [of_option bind]. cbv zeta.
    specialize (Hkept (BoolCol (ge_threshold sc threshold))).
    match type of Hkept with
    | ?X <> None => destruct X as [lab2|]; [|congruence]
    end.
    cbn [of_option bind]. rewrite IntervalProofs.get_set_same.
    cbn [of_option bind]. split.
    - intros [H|H]; apply String.eqb_eq in H; rewrite H;
        rewrite ?orb_true_r; reflexivity.
    - intros H1 H2. apply String.eqb_neq in H1, H2. rewrite H1, H2.
      simpl. eauto. }
  split; [|split; [|split]].
  - intros Hs.
    assert (Hsc : get_column df1 score_column = Some (IntCol (cumsum zs))).
    { unfold df1. rewrite Hs. apply IntervalProofs.get_set_same. }
    apply (proj1 (Hfinish _ Hsc)). right. exact Hs.
  - intros Hs Hnone.
    assert (Hsc : get_column df1 score_column = None).
    { unfold df1. rewrite IntervalProofs.get_set_other by auto. exact Hnone. }
    rewrite Hsc. reflexivity.
  - intros Hs Hsome Hlc.
    destruct (get_column df score_column) as [sc|] eqn:Esc; [|congruence].
    assert (Hsc : get_column df1 score_column = Some sc).
    { unfold df1. rewrite IntervalProofs.get_set_other by auto. exact Esc. }
    apply (proj1 (Hfinish _ Hsc)). left. exact Hlc.
  - intros Hs Hsome Hlc.
    destruct (get_column df score_column) as [sc|] eqn:Esc; [|congruence].
    assert (Hsc : get_column df1 score_column = Some sc).
    { unfold df1. rewrite IntervalProofs.get_set_other by auto. exact Esc. }
    apply (proj2 (Hfinish _ Hsc)); assumption.
Qed.

Lemma find_interval_score_outcome_witness :
  find_interval_score
    [("label"%string, BoolCol [true; false])] "label" "score" (1 # 2)
  = Raise KeyError.
Proof.
  exact (proj1 (proj2 (proj2 (proj2
    (find_interval_score_outcome
       [("label"%string, BoolCol [true; false])] "label"%string
       "score"%string (1 # 2)))
    (BoolCol [true; false]) eq_refl ltac:(discriminate)))
    ltac:(vm_compute; discriminate) eq_refl).
Defined.

(** ** Raising the threshold *)

Lemma ge_threshold_antitone (sc : Series) (t t' : Q) :
  (t <= t')%Q ->
  Forall (fun p : bool * bool => snd p = true -> fst p = true)
         (combine (ge_threshold sc t) (ge_threshold sc t')).
Proof.
  intros Ht.
  assert (Hq : forall q, Qle_bool t' q = true -> Qle_bool t q = true).
  { intros q H. apply Qle_bool_iff in H. apply Qle_bool_iff.
    eapply Qle_trans; eassumption. }
  destruct sc as [l|l|l]; simpl; induction l as [|x l IH]; simpl;
    constructor; auto; simpl; apply Hq.
Qed.

Lemma runs_of_rows_in {A : Type} (P : bool * A -> Prop)
  (rows : list (bool * A)) :
  Forall P rows -> Forall (fun br => Forall P (snd br)) (runs_of rows).
Proof.
  intros H. destruct (IntervalProofs.runs_of_maximal rows) as [Hc _].
  rewrite <- Hc in H. clear Hc.
  induction (runs_of rows) as [|[b run] runs IH]; [constructor|].
  simpl in H. apply Forall_app in H. destruct H as [H1 H2].
  constructor; [exact H1|apply IH; exact H2].
Qed.

Lemma combine_map_l {A B C : Type} (f : B * C -> B) (l : list A) :
  forall (l' : list (B * C)),
  combine l (map f l') = map (fun p => (fst p, f (snd p))) (combine l l').
Proof.
  induction l as [|x l IH]; intros [|y l']; simpl; try reflexivity.
  f_equal. apply IH.
Qed.

Lemma existsb_of_map {A B : Type} (f : A -> B) (h : B -> bool) (l : list A) :
  existsb h (map f l) = existsb (fun x => h (f x)) l.
Proof. induction l as [|x l IH]; simpl; [reflexivity|now rewrite IH]. Qed.

(** X8. Raising the threshold never creates a hit: for thresholds
    [t <= t'] the two results have the same intervals and interval labels,
    and every interval that is a hit at [t'] is a hit at [t]. *)
Theorem find_interval_score_threshold
  (df : DataFrame) (label_column score_column : string) (t t' : Q)
  (labels : list bool) (sc : Series) :
  labels <> [] ->
  get_column df label_column = Some (BoolCol labels) ->
  get_column df score_column = Some sc ->
  series_length sc = length labels ->
  label_column <> interval_no_column ->
  score_column <> interval_no_column ->
  label_column <> greater_than_threshold score_column ->
  (t <= t')%Q ->
  exists df1 df2 ids labs hits hits',
    find_interval_score df label_column score_column t
    = Ok (df1, [(interval_no_column, IntCol ids);
                (label_column, BoolCol labs);
                (score_column, BoolCol hits)])
    /\ find_interval_score df label_column score_column t'
       = Ok (df2, [(interval_no_column, IntCol ids);
                   (label_column, BoolCol labs);
                   (score_column, BoolCol hits')])
    /\ Forall2 (fun h h' => h' = true -> h = true) hits hits'.
Proof.
  intros Hne Hl Hs Hlen Hl1 Hs1 Hl2 Ht.
  set (f := ge_threshold sc t). set (f' := ge_threshold sc t').
  set (rows := combine labels (combine f f')).
  assert (Hf : length f = length labels)
    by (unfold f; rewrite IntervalProofs.ge_threshold_length; exact Hlen).
  assert (Hf' : length f' = length labels)
    by (unfold f'; rewrite IntervalProofs.ge_threshold_length; exact Hlen).
  assert (Hff : length labels = length (combine f f')).
  { rewrite length_combine. lia. }
  pose (g := fun r : bool * (bool * bool) => (fst r, fst (snd r))).
  pose (g' := fun r : bool * (bool * bool) => (fst r, snd (snd r))).
  assert (Hrows : rows <> []).
  { unfold rows. destruct labels; [congruence|].
    destruct (combine f f'); [discriminate|discriminate]. }
  assert (Hg : forall (h : bool * (bool * bool) -> bool * bool),
             (forall r, fst (h r) = fst r) ->
             map h rows <> [] /\ map fst (map h rows) = labels).
  { intros h Hh. split.
    - destruct rows; [congruence|discriminate].
    - rewrite map_map. rewrite (map_ext _ fst) by exact Hh.
      apply IntervalProofs.map_fst_combine. exact Hff. }
  assert (Hsnd : map snd (map g rows) = f /\ map snd (map g' rows) = f').
  { unfold rows, g, g'. rewrite !map_map. simpl. split.
    - rewrite <- (map_map snd fst).
      rewrite (IntervalProofs.map_snd_combine labels _ Hff).
      apply IntervalProofs.map_fst_combine. lia.
    - rewrite <- (map_map snd snd).
      rewrite (IntervalProofs.map_snd_combine labels _ Hff).
      apply IntervalProofs.map_snd_combine. lia. }
  destruct (Hg g (fun r => eq_refl)) as [Hn1 Hl1'].
  destruct (Hg g' (fun r => eq_refl)) as [Hn2 Hl2'].
  destruct Hsnd as [Hs1' Hs2'].
  do 6 eexists. split; [|split].
  - apply (IntervalProofs.scorer_on_rows df label_column score_column t sc
             (map g rows)); try assumption.
    + rewrite Hl1'. exact Hl.
    + symmetry. exact Hs1'.
  - rewrite (IntervalProofs.scorer_on_rows df label_column score_column t' sc
               (map g' rows)); try assumption.
    + rewrite !(IntervalProofs.runs_of_map g), !(IntervalProofs.runs_of_map g')
        by reflexivity.
      rewrite !map_map, !length_map. simpl. reflexivity.
    + rewrite Hl2'. exact Hl.
    + symmetry. exact Hs2'.
  - rewrite (IntervalProofs.runs_of_map g) by reflexivity.
    rewrite !map_map. simpl.
    assert (Hall : Forall (fun r : bool * (bool * bool) =>
                             snd (snd r) = true -> fst (snd r) = true) rows).
    { unfold rows. apply Forall_forall. intros [b [x y]] Hin.
      apply in_combine_r in Hin.
      pose proof (ge_threshold_antitone sc t t' Ht) as Ha.
      rewrite Forall_forall in Ha. apply (Ha (x, y)). exact Hin. }
    apply runs_of_rows_in in Hall.
    induction Hall as [|[b run] runs Hrun _ IH]; simpl; constructor; [|exact IH].
    simpl in Hrun |- *. rewrite !existsb_of_map.
    intros He. apply existsb_exists in He. destruct He as [r [Hin Hr]].
    apply existsb_exists. exists r. split; [exact Hin|].
    rewrite Forall_forall in Hrun. apply Hrun; assumption.
Qed.

Lemma find_interval_score_threshold_witness :
  exists df1 df2 ids labs hits hits',
    find_interval_score
      [("truth"%string, BoolCol [true; false; false]);
       ("score"%string, NumCol [1 # 10; 7 # 10; 2 # 10])]
      "truth" "score" (1 # 2)
    = Ok (df1, [(interval_no_column, IntCol ids);
                ("truth"%string, BoolCol labs);
                ("score"%string, BoolCol hits)])
    /\ find_interval_score
         [("truth"%string, BoolCol [true; false; false]);
          ("score"%string, NumCol [1 # 10; 7 # 10; 2 # 10])]
         "truth" "score" (9 # 10)
       = Ok (df2, [(interval_no_column, IntCol ids);
                   ("truth"%string, BoolCol labs);
                   ("score"%string, BoolCol hits')])
    /\ Forall2 (fun h h' => h' = true -> h = true) hits hits'.
Proof.
  refine (find_interval_score_threshold
    [("truth"%string, BoolCol [true; false; false]);
     ("score"%string, NumCol [1 # 10; 7 # 10; 2 # 10])]
    "truth"%string "score"%string (1 # 2) (9 # 10)
    [true; false; false] (NumCol [1 # 10; 7 # 10; 2 # 10])
    _ eq_refl eq_refl eq_refl _ _ _ _); vm_compute; discriminate.
Defined.

(** ** Integer label columns *)

Lemma astype_int_diff_int (l : list Z) : forall prev,
  exists zs, astype_int (diff_int prev l) = Ok zs
             /\ forall c, cumsum_from c zs = map (fun z => z + (c - prev)) l.
Proof.
  induction l as [|z l IH]; intros prev.
  - exists []. split; reflexivity.
  - destruct (IH z) as [zs [E Hc]]. exists (z - prev :: zs). split.
    + simpl. rewrite E. unfold inject_Z. simpl. rewrite Z.quot_1_r.
      reflexivity.
    + intros c. simpl. rewrite Hc. f_equal; [lia|].
      apply map_ext. intros x. lia.
Qed.

Lemma in_insert_key (k x : Z) (keys : list Z) :
  In x (insert_key k keys) <-> x = k \/ In x keys.
Proof.
  induction keys as [|k' keys IH]; simpl; [intuition|].
  destruct (k <? k') eqn:E1; [simpl; intuition|].
  destruct (k =? k') eqn:E2.
  - apply Z.eqb_eq in E2. subst. simpl. intuition.
  - simpl. rewrite IH. intuition.
Qed.

Lemma in_group_keys (x : Z) (ids : list Z) :
  In x (group_keys ids) <-> In x ids.
Proof.
  unfold group_keys. induction ids as [|k ids IH]; simpl; [tauto|].
  rewrite in_insert_key, IH. intuition.
Qed.

Lemma insert_key_sorted (k : Z) (keys : list Z) :
  StronglySorted Z.lt keys -> StronglySorted Z.lt (insert_key k keys).
Proof.
  induction 1 as [|k' keys Hs IH Hall]; simpl.
  - constructor; constructor.
  - destruct (k <? k') eqn:E1.
    + apply Z.ltb_lt in E1. constructor.
      * constructor; assumption.
      * constructor; [exact E1|].
        eapply Forall_impl; [|exact Hall]. simpl. intros; lia.
    + destruct (k =? k') eqn:E2; [constructor; assumption|].
      apply Z.ltb_ge in E1. apply Z.eqb_neq in E2.
      constructor; [exact IH|].
      apply Forall_forall. intros x Hx. apply in_insert_key in Hx.
      destruct Hx as [->|Hx]; [lia|].
      rewrite Forall_forall in Hall. apply Hall. exact Hx.
Qed.

Lemma group_keys_sorted (ids : list Z) : StronglySorted Z.lt (group_keys ids).
Proof.
  unfold group_keys. induction ids as [|k ids IH]; simpl.
  - constructor.
  - apply insert_key_sorted. exact IH.
Qed.

Lemma select_by_value {A : Type} (z0 k : Z) (labels : list Z) :
  forall vals : list A,
  select (map (fun z => z - z0) labels) vals k
  = map snd (filter (fun p => fst p =? k + z0) (combine labels vals)).
Proof.
  unfold select. induction labels as [|z labels IH]; intros [|v vals];
    simpl; try reflexivity.
  replace (z - z0 =? k) with (z =? k + z0)
    by (destruct (Z.eqb_spec z (k + z0)), (Z.eqb_spec (z - z0) k);
        try reflexivity; lia).
  destruct (z =? k + z0); simpl; rewrite IH; reflexivity.
Qed.

Lemma max_Z_constant (v : Z) (l : list Z) :
  l <> [] -> Forall (fun z => z = v) l -> max_Z l = v.
Proof.
  destruct l as [|z l]; [congruence|]. intros _ H.
  inversion H as [|x l' Hz Hl]; subst. simpl.
  clear H. induction Hl as [|y l Hy _ IH]; simpl; [reflexivity|].
  subst y. rewrite Z.max_id. exact IH.
Qed.

(** X9. On an integer label column the scorer does not find runs: a row's
    interval id is its label minus the first label, so the result has one
    row per distinct label value, in ascending order of the value, whose
    interval label is that value and whose interval score tells whether
    some row with that label value reaches the threshold. *)
Theorem find_interval_score_integer_labels
  (df : DataFrame) (label_column score_column : string) (threshold : Q)
  (z0 : Z) (rest : list Z) (sc : Series) :
  get_column df label_column = Some (IntCol (z0 :: rest)) ->
  get_column df score_column = Some sc ->
  label_column <> interval_no_column ->
  score_column <> interval_no_column ->
  label_column <> greater_than_threshold score_column ->
  let labels := z0 :: rest in
  let ids := map (fun z => z - z0) labels in
  let keys := group_keys ids in
  (exists df',
     find_interval_score df label_column score_column threshold
     = Ok (df',
           [(interval_no_column, IntCol keys);
            (label_column, IntCol (map (fun k => k + z0) keys));
            (score_column,
             BoolCol (map (fun k =>
                             existsb (fun p : Z * bool =>
                                        (fst p =? k + z0) && snd p)
                                     (combine labels
                                        (ge_threshold sc threshold)))
                          keys))])
     /\ get_column df' interval_no_column = Some (IntCol ids))
  /\ StronglySorted Z.lt keys
  /\ (forall k, In k keys <-> In (k + z0) labels).
Proof.
  intros Hl Hs Hl1 Hs1 Hl2 labels ids keys.
  split; [|split].
  - unfold find_interval_score. rewrite Hl. cbn [of_option bind diff iloc0_set].
    destruct (astype_int_diff_int rest z0) as [zs [E Hc]].
    cbn [astype_int int_of_scalar bind int_of_bool]. rewrite E. cbn [bind].
    assert (Hids : cumsum (0 :: zs) = ids).
    { unfold cumsum, ids, labels. cbn [cumsum_from map]. rewrite Hc.
      apply f_equal2; [lia|]. apply map_ext. intros x. lia. }
    rewrite Hids.
    rewrite IntervalProofs.get_set_other by auto. rewrite Hs.
    cbn [of_option bind]. cbv zeta.
    rewrite IntervalProofs.get_set_other by (apply not_eq_sym; exact Hl2).
    rewrite IntervalProofs.get_set_other by auto. rewrite Hl.
    cbn [of_option bind]. rewrite IntervalProofs.get_set_same.
    cbn [of_option bind].
    apply String.eqb_neq in Hl1 as Hl1b. apply String.eqb_neq in Hs1 as Hs1b.
    rewrite Hl1b, Hs1b. cbn [orb].
    assert (Hlab : map (fun k => max_Z (select ids labels k)) keys
                   = map (fun k => k + z0) keys).
    { apply map_ext_in. intros k Hk.
      unfold keys in Hk. apply (proj1 (in_group_keys k ids)) in Hk.
      unfold ids in Hk |- *. rewrite select_by_value.
      apply in_map_iff in Hk. destruct Hk as [z [Hz Hin]].
      apply max_Z_constant.
      - intros Hnil.
        assert (Hin' : In z (map snd (filter (fun p => fst p =? k + z0)
                                        (combine labels labels)))).
        { apply in_map_iff. exists (z, z). split; [reflexivity|].
          apply filter_In. split.
          - clear -Hin. induction labels as [|y l IH]; [contradiction|].
            destruct Hin as [->|Hin]; [left; reflexivity|right; auto].
          - simpl. apply Z.eqb_eq. lia. }
        rewrite Hnil in Hin'. contradiction.
      - apply Forall_forall. intros y Hy. apply in_map_iff in Hy.
        destruct Hy as [[a b] [Hb Hf]]. simpl in Hb. subst b.
        apply filter_In in Hf. destruct Hf as [Hc' Hf]. simpl in Hf.
        apply Z.eqb_eq in Hf.
        assert (a = y); [|lia].
        clear -Hc'. induction labels as [|x l IH]; [contradiction|].
        destruct Hc' as [H|H]; [congruence|auto]. }
    assert (Hsc : map (fun k => max_bool (select ids
                                            (ge_threshold sc threshold) k))
                      keys
                  = map (fun k =>
                           existsb (fun p : Z * bool =>
                                      (fst p =? k + z0) && snd p)
                                   (combine labels (ge_threshold sc threshold)))
                        keys).
    { apply map_ext. intros k. unfold ids.
      rewrite select_by_value. unfold max_bool.
      generalize (combine labels (ge_threshold sc threshold)).
      intros l. induction l as [|[a b] l IH]; [reflexivity|].
      simpl. destruct (a =? k + z0); simpl; rewrite IH; reflexivity. }
    eexists. split.
    + unfold groupby_max. fold keys. fold labels. rewrite Hlab, Hsc.
      reflexivity.
    + rewrite IntervalProofs.get_set_other
        by apply IntervalProofs.helper_names_differ.
      apply IntervalProofs.get_set_same.
  - apply group_keys_sorted.
  - intros k. unfold keys. rewrite in_group_keys. unfold ids.
    rewrite in_map_iff. split.
    + intros [z [Hz Hin]]. replace (k + z0) with z by lia. exact Hin.
    + intros Hin. exists (k + z0). split; [lia|exact Hin].
Qed.

Lemma find_interval_score_integer_labels_witness :
  exists df',
    find_interval_score
      [("truth"%string, IntCol [1; 0; 1; 0]);
       ("score"%string, NumCol [1 # 10; 7 # 10; 2 # 10; 3 # 10])]
      "truth" "score" (1 # 2)
    = Ok (df', [("interval_no"%string, IntCol [-1; 0]);
                ("truth"%string, IntCol [0; 1]);
                ("score"%string, BoolCol [true; false])])
    /\ get_column df' "interval_no" = Some (IntCol [0; -1; 0; -1]).
Proof.
  refine (proj1 (find_interval_score_integer_labels
    [("truth"%string, IntCol [1; 0; 1; 0]);
     ("score"%string, NumCol [1 # 10; 7 # 10; 2 # 10; 3 # 10])]
    "truth"%string "score"%string (1 # 2) 1 [0; 1; 0]
    (NumCol [1 # 10; 7 # 10; 2 # 10; 3 # 10]) eq_refl eq_refl _ _ _));
    vm_compute; discriminate.
Defined.

End IntervalExtra.

(* ================================================================== *)
(** * Properties of the writes into a caller's table *)
(* ================================================================== *)

Module InPlaceProofs.
Import Py Frame Interval InPlace.

(** ** Assigning a column *)





(** ** The interval scorer *)



(** ** The label cast *)










(** A call on a table without the score column raises [KeyError] after
    line 253: the caller's table has gained [interval_no], and nothing
    else. *)
Example missing_score_column_leaves_interval_no :
  find_interval_score_in_place
    [("label"%string, BoolCol [true; true; false])]
    "label" "score" (1 # 2)
  = ([("label"%string, BoolCol [true; true; false]);
      ("interval_no"%string, IntCol [0; 0; 1])],
     Raise KeyError).
Proof. reflexivity. Qed.

(** A label column named [interval_no] makes the call raise at the end,
    with both helper columns written. *)
Example clash_leaves_both_helpers :
  find_interval_score_in_place
    [("interval_no"%string, BoolCol [true; false]);
     ("score"%string, NumCol [1 # 1; 0 # 1])]
    "interval_no" "score" (1 # 2)
  = ([("interval_no"%string, IntCol [0; 1]);
      ("score"%string, NumCol [1 # 1; 0 # 1]);
      ("score_greater_than_threshold"%string, BoolCol [true; false])],
     Raise (ValueError "cannot insert interval_no, already exists")).
Proof. reflexivity. Qed.

(** The cast of a boolean, an integer and a float label; the third label
    is missing, the two before it stay converted. *)
Example cast_labels_stops_at_missing_label :
  cast_labels
    [("close"%string, NumCol [10 # 1; 11 # 1]);
     ("high"%string, BoolCol [true; false]);
     ("low"%string, NumCol [7 # 10; (-3) # 2])]
    ["high"; "low"; "top"]%string
  = ([("close"%string, NumCol [10 # 1; 11 # 1]);
      ("high"%string, IntCol [1; 0]);
      ("low"%string, IntCol [0; -1])],
     Raise KeyError).
Proof. reflexivity. Qed.

End InPlaceProofs.

(* ================================================================== *)
(** * More on the rolling loop *)
(* ================================================================== *)

Module RollingExtra.
Import Py Frame Rolling Report.

(** ** Decoding the label of a score column *)

Lemma substring_prefix (a b : string) :
  substring 0 (String.length a) (String.append a b) = a.
Proof.
  induction a as [|ch a IH]; simpl.
  - destruct b; reflexivity.
  - rewrite IH. reflexivity.
Qed.

Lemma drop_last5_append (a b : string) :
  String.length b = 5%nat -> drop_last5 (String.append a b) = a.
Proof.
  intros Hb. unfold drop_last5.
  rewrite IntervalProofs.length_append, Hb.
  replace (String.length a + 5 - 5)%nat with (String.length a) by lia.
  apply substring_prefix.
Qed.

Lemma enabled_algorithm_length (p : Params) (a : string) :
  In a (enabled_algorithms p) -> String.length a = 2%nat.
Proof.
  unfold enabled_algorithms. intros H. apply filter_In in H.
  destruct H as [H _]. simpl in H.
  destruct H as [<-|[<-|[<-|[]]]]; reflexivity.
Qed.

Lemma block_tag_length (p : Params) (c : Config)
  (block : list string * string * Z) :
  In block (feature_set_blocks p c) -> String.length (snd (fst block)) = 3%nat.
Proof.
  unfold feature_set_blocks. intros H. apply in_app_or in H.
  destruct H as [H|H].
  - destruct (mem "kline" (feature_sets p)); [|contradiction].
    destruct H as [<-|[]]. reflexivity.
  - destruct (mem "futur" (feature_sets p)); [|contradiction].
    destruct H as [<-|[]]. reflexivity.
Qed.

(** X10. The score report recovers the label of every prediction column:
    cutting the last five characters off the name of a column the rolling
    loop produces gives back the label it was trained for, which is one of
    the configured labels. *)
Theorem label_column_of_score_column (p : Params) (c : Config) (name : string) :
  In name (iteration_names p c) ->
  exists block label algorithm,
    In block (feature_set_blocks p c) /\ In label (labels c)
    /\ In algorithm (enabled_algorithms p)
    /\ name = score_column_name label (snd (fst block)) algorithm
    /\ label_column_of name = label.
Proof.
  unfold iteration_names. intros H. apply in_flat_map in H.
  destruct H as [block [Hb H]]. apply in_flat_map in H.
  destruct H as [label [Hl H]]. apply in_map_iff in H.
  destruct H as [a [<- Ha]].
  exists block, label, a. repeat split; try assumption.
  unfold label_column_of, score_column_name. apply drop_last5_append.
  rewrite IntervalProofs.length_append.
  rewrite (block_tag_length p c block Hb), (enabled_algorithm_length p a Ha).
  reflexivity.
Qed.

Lemma label_column_of_score_column_witness :
  exists block label algorithm,
    In block (feature_set_blocks
                (mkParams ["kline"%string] ["nn"%string] 4 4 2 (Some 3) true None)
                (mkConfig 1 ["high_10"%string] ["f"%string] []))
    /\ In label ["high_10"%string]
    /\ In algorithm (enabled_algorithms
                       (mkParams ["kline"%string] ["nn"%string] 4 4 2 (Some 3)
                                 true None))
    /\ "high_10_k_nn"%string
       = score_column_name label (snd (fst block)) algorithm
    /\ label_column_of "high_10_k_nn" = label.
Proof.
  exact (label_column_of_score_column
           (mkParams ["kline"%string] ["nn"%string] 4 4 2 (Some 3) true None)
           (mkConfig 1 ["high_10"%string] ["f"%string] [])
           "high_10_k_nn"%string (or_introl eq_refl)).
Defined.

(** ** When the rolling loop succeeds *)

Section Success.

Variables Row Pred Score : Type.
Variable has_na : list string -> Row -> bool.
Variable train_predict :
  string -> list string -> string -> list Row -> list Row -> result (list Pred).
Variable compute_scores : string -> list (PredFrame Pred) -> result Score.

Local Abbreviation Run := (Rolling.M Pred Score).
Local Abbreviation Stored := (@StoredPredictions Pred Score).

(** A loop succeeds exactly when each of its iterations does, the
    iterations keeping an invariant of the threaded value. *)
Lemma for_each_succeeds {A B : Type} (P : B -> Prop) (Q : A -> Prop)
  (l : list A) (body : B -> A -> Run B) :
  (forall acc x acc', P acc -> snd (body acc x) = Ok acc' -> P acc') ->
  (forall acc x, In x l -> P acc ->
                 ((exists acc', snd (body acc x) = Ok acc') <-> Q x)) ->
  forall acc, P acc ->
              ((exists r, snd (for_each l body acc) = Ok r) <-> Forall Q l).
Proof.
  intros Hp. induction l as [|x l IH]; intros Hq acc HP.
  - simpl. split; [constructor|eauto].
  - rewrite RollingProofs.for_each_cons. split.
    + intros [r Hr].
      destruct (snd (body acc x)) as [acc'|e] eqn:E; [|discriminate].
      constructor.
      * apply (Hq acc x); [left; reflexivity|exact HP|eauto].
      * apply (IH (fun a y Hy => Hq a y (or_intror Hy)) acc');
          [eapply Hp; eassumption|eauto].
    + intros H. inversion H as [|? ? Hx Hl]; subst.
      apply (Hq acc x) in Hx; [|left; reflexivity|exact HP].
      destruct Hx as [acc' E]. rewrite E.
      apply (IH (fun a y Hy => Hq a y (or_intror Hy)) acc');
        [eapply Hp; eassumption|exact Hl].
Qed.

Lemma assign_succeeds (acc : PredFrame Pred) (nm : string) (y : list Pred) :
  (exists acc', snd (assign acc nm y : Run _) = Ok acc')
  <-> length y = length (frame_index acc).
Proof.
  unfold assign. destruct (Nat.eqb_spec (length y) (length (frame_index acc))).
  - simpl. split; eauto.
  - simpl. split; [intros [? H]; discriminate|contradiction].
Qed.

Section OneLabel.

Variable p : Params.
Variable schedule : option Z -> Z -> string -> string -> list nat.
Variable step : Z.
Variable features : list string.
Variable name_tag : string.
Variable train_df predict_df : list Row.
Variable n : nat.

Let returns (label a : string) : Prop :=
  exists y, train_predict a features label train_df predict_df = Ok y
            /\ length y = n.

Lemma algorithm_succeeds (label : string) (acc : PredFrame Pred) (a : string) :
  length (frame_index acc) = n ->
  ((exists acc',
      snd (mbind (lift (task train_predict features train_df predict_df label a))
                 (fun y_hat =>
                    assign acc (score_column_name label name_tag a) y_hat)
           : Run _) = Ok acc')
   <-> returns label a).
Proof.
  intros Hn. rewrite RollingProofs.snd_mbind. cbn [lift snd].
  unfold returns, task.
  destruct (train_predict a features label train_df predict_df) as [y|e].
  - rewrite assign_succeeds, Hn. split.
    + intros H. exists y. auto.
    + intros [y' [Hy Hl]]. injection Hy as ->. exact Hl.
  - split; [intros [? H]; discriminate|intros [y [H _]]; discriminate].
Qed.

Lemma algorithm_keeps_index (label : string) (acc acc' : PredFrame Pred)
  (a : string) :
  length (frame_index acc) = n ->
  snd (mbind (lift (task train_predict features train_df predict_df label a))
             (fun y_hat =>
                assign acc (score_column_name label name_tag a) y_hat)
       : Run _) = Ok acc' ->
  length (frame_index acc') = n.
Proof.
  intros Hn. rewrite RollingProofs.snd_mbind. cbn [lift snd]. unfold task.
  destruct (train_predict a features label train_df predict_df) as [y|e];
    [|discriminate].
  intros H. apply RollingProofs.assign_ok in H. destruct H as [-> _].
  exact Hn.
Qed.

Lemma label_succeeds (label : string) (acc : PredFrame Pred) :
  pool_check p = Ok tt -> length (frame_index acc) = n ->
  ((exists t,
      snd (train_predict_label (Score := Score) train_predict p schedule step
             features name_tag train_df predict_df label acc) = Ok t)
   <-> Forall (returns label) (enabled_algorithms p)).
Proof.
  intros Hpool Hn. rewrite RollingProofs.train_predict_label_result, Hpool.
  apply (for_each_succeeds (fun f => length (frame_index f) = n)).
  - intros f a f' Hf H. exact (algorithm_keeps_index label f f' a Hf H).
  - intros f a _ Hf. apply algorithm_succeeds. exact Hf.
  - exact Hn.
Qed.

End OneLabel.

Section OneRun.

Variable p : Params.
Variable c : Config.
Variable schedule : option Z -> Z -> string -> string -> list nat.
Variable df : list Row.
Variable prediction_start : Z.

Hypothesis pool : pool_check p = Ok tt.

Local Abbreviation block :=
  (@feature_set_block Row Pred Score has_na train_predict p c schedule df
                      prediction_start).
Local Abbreviation window_table :=
  (@predict_window Row Pred Score has_na train_predict p c schedule df
                   prediction_start).
Local Abbreviation loop :=
  (@rolling_loop Row Pred Score has_na train_predict p c schedule df
                 prediction_start).
Local Abbreviation returns :=
  (task_returns has_na train_predict p c df prediction_start).

Let block_returns (step : Z) (b : list string * string * Z) : Prop :=
  Forall (fun label => Forall (returns step b label) (enabled_algorithms p))
         (labels c).

Lemma block_succeeds step features name_tag train_length acc :
  length (frame_index acc)
  = length (iloc df (step_predict_start p prediction_start step)
                    (step_predict_end p prediction_start step)) ->
  ((exists t,
      snd (block step features name_tag train_length
                 (iloc df (step_predict_start p prediction_start step)
                          (step_predict_end p prediction_start step))
                 acc) = Ok t)
   <-> block_returns step (features, name_tag, train_length)).
Proof.
  intros Hn. unfold feature_set_block, block_returns.
  apply (for_each_succeeds
           (fun f => length (frame_index f)
                     = length (iloc df
                                 (step_predict_start p prediction_start step)
                                 (step_predict_end p prediction_start step)))).
  - intros f label f' Hf H. apply RollingProofs.label_loop_ok in H.
    destruct H as [_ [-> _]]. exact Hf.
  - intros f label _ Hf. apply label_succeeds; assumption.
  - exact Hn.
Qed.

Lemma block_keeps_index step features name_tag train_length predict_df acc t :
  snd (block step features name_tag train_length predict_df acc) = Ok t ->
  frame_index t = frame_index acc.
Proof. intros H. apply RollingProofs.block_ok in H. apply H. Qed.

Lemma window_succeeds step :
  (exists t, snd (window_table step) = Ok t)
  <-> Forall (block_returns step) (feature_set_blocks p c).
Proof.
  unfold predict_window, feature_set_blocks. rewrite RollingProofs.snd_mbind.
  set (ps := step_predict_start p prediction_start step).
  set (pe := step_predict_end p prediction_start step).
  set (f0 := mkFrame (iloc (range (Z.of_nat (length df))) ps pe)
                     (@nil (string * list Pred))).
  assert (H0 : length (frame_index f0) = length (iloc df ps pe)).
  { apply RollingProofs.iloc_length_eq. rewrite RollingProofs.range_length.
    lia. }
  pose proof (block_succeeds step (features_kline c) "_k_"
                (kline_train_length p)) as Bk.
  pose proof (block_succeeds step (features_futur c) "_f_"
                (futur_train_length p)) as Bf.
  fold ps pe in Bk, Bf.
  destruct (mem "kline" (feature_sets p));
    destruct (mem "futur" (feature_sets p)); cbn [app ret snd].
  - split.
    + intros [t Ht].
      destruct (snd (block step (features_kline c) "_k_"
                       (kline_train_length p) (iloc df ps pe) f0))
        as [f1|e] eqn:E1; [|discriminate].
      apply Forall_cons; [apply (proj1 (Bk f0 H0)); eauto|].
      apply Forall_cons; [|apply Forall_nil].
      refine (proj1 (Bf f1 _) _); [|eauto].
      rewrite (block_keeps_index _ _ _ _ _ _ _ E1). exact H0.
    + intros H. inversion H as [|? ? H1 H']; subst.
      inversion H' as [|? ? H2 _]; subst.
      apply (proj2 (Bk f0 H0)) in H1. destruct H1 as [f1 E1].
      rewrite E1. refine (proj2 (Bf f1 _) H2).
      rewrite (block_keeps_index _ _ _ _ _ _ _ E1). exact H0.
  - split.
    + intros [t Ht].
      destruct (snd (block step (features_kline c) "_k_"
                       (kline_train_length p) (iloc df ps pe) f0))
        as [f1|e] eqn:E1; [|discriminate].
      apply Forall_cons; [apply (proj1 (Bk f0 H0)); eauto|apply Forall_nil].
    + intros H. inversion H as [|? ? H1 _]; subst.
      apply (proj2 (Bk f0 H0)) in H1. destruct H1 as [f1 E1].
      rewrite E1. eauto.
  - split.
    + intros Ht. apply Forall_cons; [|apply Forall_nil].
      exact (proj1 (Bf f0 H0) Ht).
    + intros H. inversion H as [|? ? H2 _]; subst.
      exact (proj2 (Bf f0 H0) H2).
  - split; [intros _; apply Forall_nil|eauto].
Qed.

Lemma loop_succeeds steps :
  (exists frames, snd (loop steps) = Ok frames)
  <-> Forall (fun step => Forall (block_returns step) (feature_set_blocks p c))
             (range steps).
Proof.
  unfold rolling_loop.
  apply (for_each_succeeds (fun _ => True)); [auto| |exact I].
  intros acc step _ _. rewrite <- window_succeeds, RollingProofs.snd_mbind.
  destruct (snd (window_table step)) as [t|e].
  - simpl. split; eauto.
  - split; intros [? H]; discriminate.
Qed.

Lemma loop_succeeds_tasks steps :
  (exists frames, snd (loop steps) = Ok frames)
  <-> all_tasks_return has_na train_predict p c df prediction_start steps.
Proof.
  rewrite loop_succeeds. unfold all_tasks_return, block_returns. split.
  - intros H step b label a Hs Hb Hl Ha.
    rewrite Forall_forall in H. specialize (H step Hs).
    rewrite Forall_forall in H. specialize (H b Hb).
    rewrite Forall_forall in H. specialize (H label Hl).
    rewrite Forall_forall in H. exact (H a Ha).
  - intros H. apply Forall_forall. intros step Hs.
    apply Forall_forall. intros b Hb.
    apply Forall_forall. intros label Hl.
    apply Forall_forall. intros a Ha. apply H; assumption.
Qed.

End OneRun.

(** *** The tables of a successful loop *)

Lemma mbind_ret {A B : Type} (a : A) (k : A -> Run B) :
  mbind (ret a) k = k a.
Proof. unfold mbind, ret. destruct (k a). reflexivity. Qed.

Lemma mbind_ok {A B : Type} (t : list (Event Pred Score)) (a : A)
  (k : A -> Run B) :
  mbind ((t, Ok a) : Run A) k = (t ++ fst (k a), snd (k a)).
Proof. unfold mbind. destruct (k a). reflexivity. Qed.

Lemma collect_frames {A B : Type} (f : A -> Run B) (l : list A) :
  forall acc r,
    snd (for_each l (fun acc x => mbind (f x) (fun y => ret (acc ++ [y]))) acc)
    = Ok r ->
    exists ys, r = acc ++ ys /\ Forall2 (fun x y => snd (f x) = Ok y) l ys.
Proof.
  induction l as [|x l IH]; intros acc r.
  - simpl. intros H. injection H as <-. exists []. rewrite app_nil_r.
    split; [reflexivity|constructor].
  - rewrite RollingProofs.for_each_cons, RollingProofs.snd_mbind.
    destruct (snd (f x)) as [y|e] eqn:E; [|discriminate].
    cbn [ret snd]. intros H. apply IH in H. destruct H as [ys [-> Hys]].
    exists (y :: ys). rewrite <- app_assoc. split; [reflexivity|].
    constructor; assumption.
Qed.

Section Report.

Variable p : Params.
Variable c : Config.
Variable schedule : option Z -> Z -> string -> string -> list nat.
Variable df : list Row.
Variable prediction_start : Z.

Local Abbreviation window_table :=
  (@predict_window Row Pred Score has_na train_predict p c schedule df
                   prediction_start).
Local Abbreviation loop :=
  (@rolling_loop Row Pred Score has_na train_predict p c schedule df
                 prediction_start).
Local Abbreviation run :=
  (@main Row Pred Score has_na train_predict compute_scores p c schedule df
         prediction_start).

Lemma loop_frames steps frames :
  snd (loop steps) = Ok frames ->
  Forall2 (fun step t => snd (window_table step) = Ok t) (range steps) frames.
Proof.
  unfold rolling_loop. intros H. apply collect_frames in H.
  destruct H as [ys [-> H]]. exact H.
Qed.

Lemma loop_frames_columns steps frames :
  snd (loop steps) = Ok frames ->
  hat_columns frames = if 0 <? steps then window_columns p c else [].
Proof.
  intros H. apply loop_frames in H.
  destruct (0 <? steps) eqn:E.
  - apply Z.ltb_lt in E. unfold range in H.
    destruct (Z.to_nat steps) as [|k] eqn:Ek; [lia|].
    simpl in H. inversion H as [|? t ? ? Ht _]; subst.
    apply RollingProofs.window_ok in Ht. apply Ht.
  - apply Z.ltb_ge in E. unfold range in H.
    replace (Z.to_nat steps) with 0%nat in H by lia.
    inversion H. reflexivity.
Qed.

(** The score loop logs nothing. *)
Local Abbreviation score_loop frames :=
  (for_each (hat_columns frames)
     (fun lines name =>
        mbind (lift (compute_scores name frames))
              (fun line => ret (lines ++ [line]) : Run _))
     []).

Lemma score_lines_silent (frames : list (PredFrame Pred)) (names : list string) :
  forall lines,
    fst (for_each names
           (fun lines name =>
              mbind (lift (compute_scores name frames))
                    (fun line => ret (lines ++ [line]) : Run _))
           lines) = [].
Proof.
  induction names as [|name names IH]; intros lines; [reflexivity|].
  cbn [for_each]. rewrite RollingProofs.fst_mbind, RollingProofs.fst_mbind.
  rewrite RollingProofs.snd_mbind. cbn [lift fst snd].
  destruct (compute_scores name frames) as [line|e]; [|reflexivity].
  cbn [ret fst snd app]. apply IH.
Qed.

Lemma score_lines_ok (frames : list (PredFrame Pred)) (sc : string -> Score)
  (names : list string) :
  (forall name, In name names -> compute_scores name frames = Ok (sc name)) ->
  forall lines,
    snd (for_each names
           (fun lines name =>
              mbind (lift (compute_scores name frames))
                    (fun line => ret (lines ++ [line]) : Run _))
           lines) = Ok (lines ++ map sc names).
Proof.
  induction names as [|name names IH]; intros H lines.
  - simpl. rewrite app_nil_r. reflexivity.
  - rewrite RollingProofs.for_each_cons, RollingProofs.snd_mbind.
    cbn [lift snd]. rewrite (H name (or_introl eq_refl)). cbn [ret snd].
    rewrite IH by (intros nm Hn; apply H; right; exact Hn).
    rewrite <- app_assoc. reflexivity.
Qed.

Lemma score_lines_raise (frames : list (PredFrame Pred)) (names : list string)
  (name : string) (e : exn) :
  In name names -> compute_scores name frames = Raise e ->
  forall lines, exists e',
    snd (for_each names
           (fun lines name =>
              mbind (lift (compute_scores name frames))
                    (fun line => ret (lines ++ [line]) : Run _))
           lines) = Raise e'.
Proof.
  intros Hin He. apply (RollingProofs.for_each_raises Pred Score _ _ name Hin).
  intros lines. exists e. rewrite RollingProofs.snd_mbind. cbn [lift snd].
  rewrite He. reflexivity.
Qed.

(** The run, step by step. *)
Lemma main_run :
  run
  = match configure p (Z.of_nat (length df)) prediction_start with
    | Raise e => ([], Raise e)
    | Ok steps =>
        match snd (loop steps) with
        | Raise e => (fst (loop steps), Raise e)
        | Ok frames =>
            match snd (score_loop frames) with
            | Ok lines =>
                (fst (loop steps)
                 ++ [Stored frames; AppendedScores lines], Ok tt)
            | Raise e =>
                (fst (loop steps) ++ [Stored frames], Raise e)
            end
        end
    end.
Proof.
  unfold main.
  destruct (configure p (Z.of_nat (length df)) prediction_start)
    as [steps|e]; [|reflexivity].
  rewrite RollingProofs.mbind_lift_ok.
  destruct (loop steps) as [t [frames|e]] eqn:El; cbn [fst snd];
    [|reflexivity].
  pose proof (score_lines_silent frames (hat_columns frames) []) as Hs.
  rewrite mbind_ok. unfold log. rewrite mbind_ok.
  destruct (score_loop frames) as [t' [lines|e]] eqn:Es; cbn [fst snd] in *;
    subst t'.
  - rewrite mbind_ok. reflexivity.
  - reflexivity.
Qed.

End Report.

End Success.

(** X11. With a pool that can be created (or sequential dispatch), the
    rolling loop returns its accumulated table exactly when every
    train-predict task of every window returns an array with one
    prediction per row of the window's prediction slice: a task that raises
    and a task that returns an array of another length both make the loop
    raise, and nothing else does. *)
Theorem rolling_loop_succeeds (Row Pred Score : Type)
  (has_na : list string -> Row -> bool)
  (train_predict : string -> list string -> string -> list Row -> list Row ->
                   result (list Pred))
  (p : Params) (c : Config)
  (schedule : option Z -> Z -> string -> string -> list nat)
  (df : list Row) (prediction_start steps : Z) :
  pool_check p = Ok tt ->
  ((exists frames,
      snd (@rolling_loop Row Pred Score has_na train_predict p c schedule df
             prediction_start steps) = Ok frames)
   <-> all_tasks_return has_na train_predict p c df prediction_start steps).
Proof.
  intros Hpool. apply loop_succeeds_tasks. exact Hpool.
Qed.

Lemma rolling_loop_succeeds_witness :
  (exists frames,
     snd (@rolling_loop Z Z Z (fun _ _ => false) (fun _ _ _ _ test => Ok test)
            (mkParams ["kline"%string] ["nn"%string] 4 4 2 (Some 3) true None)
            (mkConfig 1 ["y"%string] ["f"%string] [])
            (fun _ _ _ _ => []) [0; 1; 2; 3; 4; 5; 6; 7; 8; 9; 10] 4 3)
     = Ok frames)
  <-> all_tasks_return (fun _ _ => false) (fun _ _ _ _ test => Ok test)
        (mkParams ["kline"%string] ["nn"%string] 4 4 2 (Some 3) true None)
        (mkConfig 1 ["y"%string] ["f"%string] [])
        [0; 1; 2; 3; 4; 5; 6; 7; 8; 9; 10] 4 3.
Proof.
  exact (rolling_loop_succeeds Z Z Z (fun _ _ => false)
           (fun _ _ _ _ test => Ok test)
           (mkParams ["kline"%string] ["nn"%string] 4 4 2 (Some 3) true None)
           (mkConfig 1 ["y"%string] ["f"%string] [])
           (fun _ _ _ _ => []) [0; 1; 2; 3; 4; 5; 6; 7; 8; 9; 10] 4 3
           eq_refl).
Defined.

(** X12. After a loop that returned its table: the table has one block per
    step, the block of step [i] being the table of window [i], with the
    columns of a window, the index of its prediction slice and aligned
    columns; the accumulated table has the columns of a window (none when
    there is no step); the predictions are stored; when every score is
    computed the report holds one line per column, in column order, and
    the run ends normally; when a score computation raises the run raises
    after the predictions were stored and without writing the report. *)
Theorem main_after_loop (Row Pred Score : Type)
  (has_na : list string -> Row -> bool)
  (train_predict : string -> list string -> string -> list Row -> list Row ->
                   result (list Pred))
  (compute_scores : string -> list (PredFrame Pred) -> result Score)
  (p : Params) (c : Config)
  (schedule : option Z -> Z -> string -> string -> list nat)
  (df : list Row) (prediction_start steps : Z)
  (frames : list (PredFrame Pred)) :
  configure p (Z.of_nat (length df)) prediction_start = Ok steps ->
  snd (@rolling_loop Row Pred Score has_na train_predict p c schedule
         df prediction_start steps) = Ok frames ->
  let loop := @rolling_loop Row Pred Score has_na train_predict p c schedule
                            df prediction_start steps in
  let run := @main Row Pred Score has_na train_predict compute_scores
                   p c schedule df prediction_start in
  Forall2
    (fun step t =>
       snd (@predict_window Row Pred Score has_na train_predict p c schedule
              df prediction_start step) = Ok t
       /\ columns (frame_columns t) = window_columns p c
       /\ frame_index t
          = iloc (range (Z.of_nat (length df)))
                 (step_predict_start p prediction_start step)
                 (step_predict_end p prediction_start step)
       /\ aligned t)
    (range steps) frames
  /\ length frames = Z.to_nat steps
  /\ hat_columns frames = (if 0 <? steps then window_columns p c else [])
  /\ (forall sc : string -> Score,
        (forall name, In name (hat_columns frames) ->
                      compute_scores name frames = Ok (sc name)) ->
        run = (fst loop ++ [@StoredPredictions Pred Score frames;
                            AppendedScores (map sc (hat_columns frames))],
               Ok tt))
  /\ (forall name e,
        In name (hat_columns frames) ->
        compute_scores name frames = Raise e ->
        exists e',
          run = (fst loop ++ [@StoredPredictions Pred Score frames], Raise e')).
Proof.
  intros Hc Hl loop run.
  pose proof (loop_frames _ _ _ has_na train_predict p c schedule df
                prediction_start steps frames Hl) as Hf.
  split; [|split; [|split; [|split]]].
  - clear Hl. induction Hf as [|step t l fs Ht _ IH]; constructor;
      [|exact IH].
    split; [exact Ht|]. apply RollingProofs.window_ok in Ht. exact Ht.
  - apply Forall2_length in Hf. rewrite RollingProofs.range_length in Hf.
    symmetry. exact Hf.
  - apply (loop_frames_columns _ _ _ has_na train_predict p c schedule df
             prediction_start steps frames Hl).
  - intros sc Hsc. unfold run.
    rewrite (main_run _ _ _ has_na train_predict compute_scores), Hc, Hl.
    rewrite (score_lines_ok _ _ compute_scores frames sc _ Hsc).
    reflexivity.
  - intros name e Hin He. unfold run.
    rewrite (main_run _ _ _ has_na train_predict compute_scores), Hc, Hl.
    destruct (score_lines_raise _ _ compute_scores frames _ name e Hin He [])
      as [e' He'].
    rewrite He'. eauto.
Qed.

Lemma main_after_loop_witness :
  @main Z Z string (fun _ _ => false) (fun _ _ _ _ test => Ok test)
    (fun name _ => Ok name)
    (mkParams ["kline"%string] ["nn"%string] 4 4 2 (Some 2) true None)
    (mkConfig 1 ["y"%string] ["f"%string] [])
    (fun _ _ _ _ => []) [0; 1; 2; 3; 4; 5; 6; 7; 8; 9; 10] 4
  = ([Trained string 0 "y_k_nn"; Trained string 1 "y_k_nn";
      StoredPredictions string
        [mkFrame [4; 5] [("y_k_nn"%string, [4; 5])];
         mkFrame [6; 7] [("y_k_nn"%string, [6; 7])]];
      AppendedScores ["y_k_nn"%string]],
     Ok tt).
Proof.
  exact (proj1 (proj2 (proj2 (proj2
    (main_after_loop Z Z string (fun _ _ => false)
       (fun _ _ _ _ test => Ok test) (fun name _ => Ok name)
       (mkParams ["kline"%string] ["nn"%string] 4 4 2 (Some 2) true None)
       (mkConfig 1 ["y"%string] ["f"%string] [])
       (fun _ _ _ _ => []) [0; 1; 2; 3; 4; 5; 6; 7; 8; 9; 10] 4 2
       [mkFrame [4; 5] [("y_k_nn"%string, [4; 5])];
        mkFrame [6; 7] [("y_k_nn"%string, [6; 7])]]
       eq_refl eq_refl))))
    (fun name => name) (fun name _ => eq_refl)).
Defined.

(** ** Sequential and pooled dispatch *)

Lemma outputs_no_output {Pred Score : Type} (trace : list (Event Pred Score)) :
  no_output trace -> outputs trace = [].
Proof.
  unfold no_output, outputs. induction 1 as [|ev trace Hev _ IH];
    [reflexivity|].
  simpl. destruct ev; [exact IH|contradiction|contradiction].
Qed.

Section Modes.

Variables Row Pred Score : Type.
Variable has_na : list string -> Row -> bool.
Variable train_predict :
  string -> list string -> string -> list Row -> list Row -> result (list Pred).
Variable compute_scores : string -> list (PredFrame Pred) -> result Score.
Variable p : Params.
Variable c : Config.
Variables schedule1 schedule2 : option Z -> Z -> string -> string -> list nat.
Variable df : list Row.
Variable prediction_start : Z.

Hypothesis valid : valid_pool_size (max_workers p).

Local Abbreviation pooled := (with_multiprocessing p true).
Local Abbreviation sequential := (with_multiprocessing p false).

Lemma pool_check_modes (b : bool) :
  pool_check (with_multiprocessing p b) = Ok tt.
Proof.
  unfold pool_check, executor. cbn [use_multiprocessing max_workers
                                     with_multiprocessing].
  destruct b; [|reflexivity]. unfold valid_pool_size in valid.
  destruct (max_workers p) as [w|]; [|reflexivity].
  destruct (Z.leb_spec w 0); [lia|reflexivity].
Qed.

Lemma label_modes step features name_tag train_df predict_df label acc :
  snd (@train_predict_label Row Pred Score train_predict pooled schedule1
         step features name_tag train_df predict_df label acc)
  = snd (@train_predict_label Row Pred Score train_predict sequential
           schedule2 step features name_tag train_df predict_df label acc).
Proof.
  rewrite !RollingProofs.train_predict_label_result, !pool_check_modes.
  reflexivity.
Qed.

Lemma block_modes step features name_tag train_length predict_df acc :
  snd (@feature_set_block Row Pred Score has_na train_predict pooled c
         schedule1 df prediction_start step features name_tag train_length
         predict_df acc)
  = snd (@feature_set_block Row Pred Score has_na train_predict sequential c
           schedule2 df prediction_start step features name_tag train_length
           predict_df acc).
Proof.
  unfold feature_set_block. apply RollingProofs.for_each_snd_ext.
  intros f label _. apply label_modes.
Qed.

Lemma window_modes step :
  snd (@predict_window Row Pred Score has_na train_predict pooled c schedule1
         df prediction_start step)
  = snd (@predict_window Row Pred Score has_na train_predict sequential c
           schedule2 df prediction_start step).
Proof.
  unfold predict_window. rewrite !RollingProofs.snd_mbind.
  change (feature_sets pooled) with (feature_sets p).
  change (feature_sets sequential) with (feature_sets p).
  destruct (mem "kline" (feature_sets p)).
  - rewrite block_modes.
    destruct (snd (feature_set_block _ _ _ _ _ _ _ _ _ _ _ _ _));
      [|reflexivity].
    destruct (mem "futur" (feature_sets p)); [|reflexivity].
    apply block_modes.
  - simpl. destruct (mem "futur" (feature_sets p)); [|reflexivity].
    apply block_modes.
Qed.

Lemma loop_modes steps :
  snd (@rolling_loop Row Pred Score has_na train_predict pooled c schedule1
         df prediction_start steps)
  = snd (@rolling_loop Row Pred Score has_na train_predict sequential c
           schedule2 df prediction_start steps).
Proof.
  unfold rolling_loop. apply RollingProofs.for_each_snd_ext.
  intros acc step _. rewrite !RollingProofs.snd_mbind, window_modes.
  reflexivity.
Qed.

(** What a run returns and what it writes, from the result of its loop. *)
Lemma main_result_outputs (q : Params)
  (schedule : option Z -> Z -> string -> string -> list nat) :
  let run := @main Row Pred Score has_na train_predict compute_scores q c
                   schedule df prediction_start in
  (snd run, outputs (fst run))
  = match configure q (Z.of_nat (length df)) prediction_start with
    | Raise e => (Raise e, [])
    | Ok steps =>
        match snd (@rolling_loop Row Pred Score has_na train_predict q c
                     schedule df prediction_start steps) with
        | Raise e => (Raise e, [])
        | Ok frames =>
            match snd (for_each (hat_columns frames)
                         (fun lines name =>
                            mbind (lift (compute_scores name frames))
                                  (fun line => ret (lines ++ [line])
                                               : Rolling.M Pred Score _))
                         []) with
            | Ok lines =>
                (Ok tt, [@StoredPredictions Pred Score frames;
                         AppendedScores lines])
            | Raise e => (Raise e, [@StoredPredictions Pred Score frames])
            end
        end
    end.
Proof.
  intros run. unfold run. rewrite main_run.
  destruct (configure q (Z.of_nat (length df)) prediction_start)
    as [steps|e]; [|reflexivity].
  pose proof (RollingProofs.loop_no_output Row Pred Score has_na train_predict
                q c schedule df prediction_start steps) as Hno.
  apply outputs_no_output in Hno.
  destruct (snd (rolling_loop has_na train_predict q c schedule df
                   prediction_start steps)) as [frames|e].
  - match goal with
    | |- context [snd (for_each ?l ?b ?a)] =>
        destruct (snd (for_each l b a)) as [lines|e]
    end; cbn [fst snd]; unfold outputs in *; rewrite filter_app, Hno;
      reflexivity.
  - cbn [fst snd]. rewrite Hno. reflexivity.
Qed.

End Modes.

(** X13. With a pool size the pool accepts, running the tasks of a label
    in a process pool or one after the other makes no difference to what
    the run computes: the accumulated table of the loop, the result of the
    run (normal end or the exception raised) and the files it writes (the
    stored predictions and the score report) are the same, whatever the
    order in which the pooled tasks complete. *)
Theorem dispatch_modes_agree (Row Pred Score : Type)
  (has_na : list string -> Row -> bool)
  (train_predict : string -> list string -> string -> list Row -> list Row ->
                   result (list Pred))
  (compute_scores : string -> list (PredFrame Pred) -> result Score)
  (p : Params) (c : Config)
  (schedule1 schedule2 : option Z -> Z -> string -> string -> list nat)
  (df : list Row) (prediction_start : Z) :
  valid_pool_size (max_workers p) ->
  let pooled := with_multiprocessing p true in
  let sequential := with_multiprocessing p false in
  (forall steps,
     snd (@rolling_loop Row Pred Score has_na train_predict pooled c
            schedule1 df prediction_start steps)
     = snd (@rolling_loop Row Pred Score has_na train_predict sequential c
              schedule2 df prediction_start steps))
  /\ snd (@main Row Pred Score has_na train_predict compute_scores pooled c
            schedule1 df prediction_start)
     = snd (@main Row Pred Score has_na train_predict compute_scores
              sequential c schedule2 df prediction_start)
  /\ outputs (fst (@main Row Pred Score has_na train_predict compute_scores
                     pooled c schedule1 df prediction_start))
     = outputs (fst (@main Row Pred Score has_na train_predict compute_scores
                       sequential c schedule2 df prediction_start)).
Proof.
  intros valid pooled sequential.
  assert (Hloop : forall steps,
     snd (@rolling_loop Row Pred Score has_na train_predict pooled c
            schedule1 df prediction_start steps)
     = snd (@rolling_loop Row Pred Score has_na train_predict sequential c
              schedule2 df prediction_start steps)).
  { intros steps. apply loop_modes. exact valid. }
  split; [exact Hloop|].
  pose proof (main_result_outputs Row Pred Score has_na train_predict
                compute_scores c df prediction_start pooled schedule1) as H1.
  pose proof (main_result_outputs Row Pred Score has_na train_predict
                compute_scores c df prediction_start sequential schedule2)
    as H2.
  cbv zeta in H1, H2.
  change (configure sequential (Z.of_nat (length df)) prediction_start)
    with (configure pooled (Z.of_nat (length df)) prediction_start) in H2.
  destruct (configure pooled (Z.of_nat (length df)) prediction_start)
    as [steps|e].
  - rewrite <- (Hloop steps) in H2. rewrite <- H2 in H1.
    injection H1 as Hs Ho. split; assumption.
  - rewrite <- H2 in H1. injection H1 as Hs Ho. split; assumption.
Qed.

Lemma dispatch_modes_agree_witness :
  snd (@main Z Z string (fun _ _ => false) (fun _ _ _ _ test => Ok test)
         (fun name _ => Ok name)
         (with_multiprocessing
            (mkParams ["kline"%string] ["nn"%string; "gb"%string] 4 4 2
                      (Some 2) true (Some 2)) true)
         (mkConfig 1 ["y"%string] ["f"%string] [])
         (fun _ _ _ _ => [1%nat; 0%nat]) [0; 1; 2; 3; 4; 5; 6; 7; 8; 9; 10] 4)
  = snd (@main Z Z string (fun _ _ => false) (fun _ _ _ _ test => Ok test)
           (fun name _ => Ok name)
           (with_multiprocessing
              (mkParams ["kline"%string] ["nn"%string; "gb"%string] 4 4 2
                        (Some 2) true (Some 2)) false)
           (mkConfig 1 ["y"%string] ["f"%string] [])
           (fun _ _ _ _ => []) [0; 1; 2; 3; 4; 5; 6; 7; 8; 9; 10] 4).
Proof.
  exact (proj1 (proj2
    (dispatch_modes_agree Z Z string (fun _ _ => false)
       (fun _ _ _ _ test => Ok test) (fun name _ => Ok name)
       (mkParams ["kline"%string] ["nn"%string; "gb"%string] 4 4 2
                 (Some 2) true (Some 2))
       (mkConfig 1 ["y"%string] ["f"%string] [])
       (fun _ _ _ _ => [1%nat; 0%nat]) (fun _ _ _ _ => [])
       [0; 1; 2; 3; 4; 5; 6; 7; 8; 9; 10] 4
       ltac:(simpl; lia)))).
Defined.

(** ** A training span that ends before the first row *)

Lemma iloc_negative_end {A : Type} (l : list A) (b : Z) :
  b < 0 -> iloc l 0 b = firstn (Z.to_nat (Z.of_nat (length l) + b)) l.
Proof.
  intros Hb. unfold iloc, slice_bound.
  destruct (Z.ltb_spec b 0); [|lia].
  destruct (Z.ltb_spec 0 0); [lia|].
  rewrite Z.min_l by lia. simpl. f_equal.
  lia.
Qed.

Lemma firstn_iloc {A : Type} (l : list A) (k : Z) :
  0 <= k <= Z.of_nat (length l) -> firstn (Z.to_nat k) l = iloc l 0 k.
Proof.
  intros H. rewrite RollingProofs.iloc_in_range by lia.
  simpl. rewrite Z.sub_0_r. reflexivity.
Qed.

(** X14. When the prediction window starts within the first
    [label_horizon + 1] rows, [train_end] is negative and the slice
    [df.iloc[train_start:train_end]] counts it from the end of the table:
    the training rows are then all rows but the last [-train_end], and, for
    a table with at least [stride + label_horizon + 1] rows, they contain
    the very rows the window predicts and rows after them. *)
Theorem training_slice_negative_end {A : Type} (p : Params) (c : Config)
  (df : list A) (prediction_start train_length step : Z) :
  let w := window p c prediction_start train_length step in
  let n := Z.of_nat (length df) in
  0 <= train_length -> 0 <= prediction_length p ->
  0 <= predict_start w -> train_end w < 0 ->
  train_start w = 0
  /\ iloc df (train_start w) (train_end w)
     = firstn (Z.to_nat (n + train_end w)) df
  /\ (prediction_length p + label_horizon c + 1 <= n ->
      iloc df (train_start w) (train_end w)
      = iloc df 0 (predict_start w)
        ++ iloc df (predict_start w) (predict_end w)
        ++ iloc df (predict_end w) (n + train_end w)).
Proof.
  intros w n Hl Hs Hp He.
  assert (Hts : train_start w = 0).
  { unfold w, window in *. cbn [train_start train_end] in *.
    unfold step_train_start.
    destruct (Z.ltb_spec (step_train_end c
                            (step_predict_start p prediction_start step)
                          - train_length) 0); [reflexivity|lia]. }
  split; [exact Hts|]. rewrite Hts.
  split; [apply iloc_negative_end; exact He|].
  intros Hn. rewrite iloc_negative_end by exact He. fold n.
  assert (Hpe : predict_end w = predict_start w + prediction_length p)
    by reflexivity.
  assert (Hte : train_end w = predict_start w - label_horizon c - 1)
    by reflexivity.
  rewrite firstn_iloc by (fold n; lia).
  rewrite !RollingProofs.iloc_app by (fold n; lia).
  reflexivity.
Qed.

Lemma training_slice_negative_end_witness :
  iloc [0; 1; 2; 3; 4; 5; 6; 7; 8; 9; 10; 11] 0 (-3)
  = iloc [0; 1; 2; 3; 4; 5; 6; 7; 8; 9; 10; 11] 0 3
    ++ iloc [0; 1; 2; 3; 4; 5; 6; 7; 8; 9; 10; 11] 3 5
    ++ iloc [0; 1; 2; 3; 4; 5; 6; 7; 8; 9; 10; 11] 5 9.
Proof.
  refine (proj2 (proj2
    (training_slice_negative_end
       (mkParams ["kline"%string] ["nn"%string] 4 4 2 (Some 2) false None)
       (mkConfig 5 ["y"%string] ["f"%string] [])
       [0; 1; 2; 3; 4; 5; 6; 7; 8; 9; 10; 11] 3 4 0 _ _ _ _)) _);
    vm_compute; first [reflexivity|discriminate].
Defined.

(** ** The tasks that run, by dispatch mode *)



Section Events.

Variables Row Pred Score : Type.
Variable train_predict :
  string -> list string -> string -> list Row -> list Row -> result (list Pred).
Variable p : Params.
Variable schedule : option Z -> Z -> string -> string -> list nat.
Variable step : Z.
Variable features : list string.
Variable name_tag : string.
Variable train_df predict_df : list Row.
Variable label : string.

Local Abbreviation Run := (Rolling.M Pred Score).
Local Abbreviation trained a :=
  (@Trained Pred Score step (score_column_name label name_tag a)).





End Events.



(** In the example the gb task fails: the pool has run both tasks, the
    sequential dispatch only the first. *)
Remark sequential_stops_at_failure :
  fst (@train_predict_label Z Z Z
         (fun a _ _ _ test =>
            if String.eqb a "gb" then Raise (OtherError "no booster")
            else Ok test)
         (mkParams ["kline"%string] ["gb"; "nn"]%string 4 4 2 (Some 3)
                   false (Some 2))
         (fun _ _ _ _ => [1%nat]) 0 ["f"%string] "_k_" [1; 2] [3; 4]
         "y" (mkFrame [3; 4] []))
  = [@Trained Z Z 0 "y_k_gb"]
  /\ fst (@train_predict_label Z Z Z
            (fun a _ _ _ test =>
               if String.eqb a "gb" then Raise (OtherError "no booster")
               else Ok test)
            (mkParams ["kline"%string] ["gb"; "nn"]%string 4 4 2 (Some 3)
                      true (Some 2))
            (fun _ _ _ _ => [1%nat]) 0 ["f"%string] "_k_" [1; 2] [3; 4]
            "y" (mkFrame [3; 4] []))
     = [@Trained Z Z 0 "y_k_nn"; @Trained Z Z 0 "y_k_gb"].
Proof. split; reflexivity. Qed.

(** ** The rows of the stored table *)

Lemma firstn_seq (m a len : nat) : firstn m (seq a len) = seq a (Nat.min m len).
Proof.
  revert a len. induction m as [|m IH]; intros a [|len]; try reflexivity.
  simpl. rewrite IH. reflexivity.
Qed.

Lemma iloc_range (n a b : Z) :
  0 <= a <= b -> b <= n ->
  iloc (range n) a b
  = map (fun k => a + Z.of_nat k) (seq 0 (Z.to_nat (b - a))).
Proof.
  intros Hab Hb.
  rewrite RollingProofs.iloc_in_range
    by (rewrite ?RollingProofs.range_length; lia).
  unfold range. rewrite skipn_map, firstn_map, skipn_seq, firstn_seq.
  replace (Nat.min (Z.to_nat (b - a)) (Z.to_nat n - Z.to_nat a))
    with (Z.to_nat (b - a)) by lia.
  generalize (Z.to_nat (b - a)) as m. generalize 0%nat as start.
  intros start m. revert start.
  induction m as [|m IH]; intros start; [reflexivity|].
  cbn [seq map]. f_equal; [lia|].
  replace (S (start + Z.to_nat a)) with (S start + Z.to_nat a)%nat by lia.
  apply IH.
Qed.

Lemma configure_enough (p : Params) (n prediction_start steps : Z) :
  configure p n prediction_start = Ok steps ->
  steps * prediction_length p <= n - prediction_start.
Proof.
  unfold configure. destruct (effective_steps p n prediction_start)
    as [s|e]; cbn [bind]; [|discriminate].
  destruct (Z.ltb_spec (n - prediction_start) (s * prediction_length p))
    as [Hlt|Hge]; [discriminate|].
  intros E. injection E as <-. exact Hge.
Qed.

Lemma map_of_Forall2 {A B C : Type} (f : A -> C) (g : B -> C) (l : list A)
  (l' : list B) :
  Forall2 (fun x y => g y = f x) l l' -> map g l' = map f l.
Proof.
  induction 1 as [|x y l l' H _ IH]; [reflexivity|].
  simpl. rewrite H, IH. reflexivity.
Qed.

(** X16. The stored table holds exactly the rows asked for: when the
    configuration check passes and the loop returns, the index of the
    accumulated table (the blocks of the windows one below the other) is
    [prediction_start], [prediction_start + 1], ... up to
    [steps * stride] rows, each once and in order, and every block has
    [stride] rows with one value per row in each of its columns. *)
Theorem stored_rows (Row Pred Score : Type)
  (has_na : list string -> Row -> bool)
  (train_predict : string -> list string -> string -> list Row -> list Row ->
                   result (list Pred))
  (p : Params) (c : Config)
  (schedule : option Z -> Z -> string -> string -> list nat)
  (df : list Row) (prediction_start steps : Z)
  (frames : list (PredFrame Pred)) :
  0 <= prediction_start -> 0 < prediction_length p -> 0 <= steps ->
  configure p (Z.of_nat (length df)) prediction_start = Ok steps ->
  snd (@rolling_loop Row Pred Score has_na train_predict p c schedule
         df prediction_start steps) = Ok frames ->
  concat (map frame_index frames)
  = map (fun k => prediction_start + Z.of_nat k)
        (seq 0 (Z.to_nat (steps * prediction_length p)))
  /\ Forall (fun t => length (frame_index t) = Z.to_nat (prediction_length p)
                      /\ Forall (fun col => length (snd col)
                                            = Z.to_nat (prediction_length p))
                                (frame_columns t))
            frames.
Proof.
  intros Hps Hs Hsteps Hc Hl. apply configure_enough in Hc.
  pose proof (loop_frames _ _ _ has_na train_predict p c schedule df
                prediction_start steps frames Hl) as Hf.
  assert (Hidx : Forall2
            (fun step t =>
               frame_index t
               = iloc (range (Z.of_nat (length df)))
                      (step_predict_start p prediction_start step)
                      (step_predict_end p prediction_start step)
               /\ aligned t)
            (range steps) frames).
  { clear Hl. induction Hf as [|step t l fs Ht _ IH]; constructor;
      [|exact IH].
    apply RollingProofs.window_ok in Ht. destruct Ht as [_ [Hi Ha]]. auto. }
  split.
  - assert (Hmap : map frame_index frames
                   = map (fun w => iloc (range (Z.of_nat (length df)))
                                        (predict_start w) (predict_end w))
                         (windows p c prediction_start 0 steps)).
    { unfold windows. rewrite map_map. cbn [predict_start predict_end window].
      apply map_of_Forall2. clear - Hidx.
      induction Hidx as [|step t l fs [Ht _] _ IH]; constructor; assumption. }
    rewrite Hmap. rewrite <- (Z2Nat.id steps) at 1 by exact Hsteps.
    rewrite RollingProofs.windows_union
      by (rewrite ?RollingProofs.range_length; lia).
    rewrite Z2Nat.id by exact Hsteps.
    rewrite iloc_range by nia. f_equal. f_equal. lia.
  - apply Forall_forall. intros t Ht.
    assert (Hin : exists step, In step (range steps)
                               /\ frame_index t
                                  = iloc (range (Z.of_nat (length df)))
                                      (step_predict_start p prediction_start
                                                          step)
                                      (step_predict_end p prediction_start
                                                        step)
                               /\ aligned t).
    { clear - Hidx Ht. induction Hidx as [|step t' l fs [H1 H2] _ IH];
        [contradiction|].
      destruct Ht as [<-|Ht].
      - exists step. split; [left; reflexivity|auto].
      - destruct (IH Ht) as [s [Hs H]]. exists s. split; [right; exact Hs|].
        exact H. }
    destruct Hin as [step [Hstep [Hi Ha]]].
    apply RollingProofs.in_range in Hstep.
    assert (Hlen : length (frame_index t) = Z.to_nat (prediction_length p)).
    { rewrite Hi. unfold step_predict_end, step_predict_start.
      rewrite iloc_range by nia. rewrite length_map, length_seq. lia. }
    split; [exact Hlen|]. unfold aligned in Ha. rewrite <- Hlen. exact Ha.
Qed.

Lemma stored_rows_witness :
  concat (map frame_index
            [mkFrame [4; 5] [("y_k_nn"%string, [4; 5])];
             mkFrame [6; 7] [("y_k_nn"%string, [6; 7])]])
  = map (fun k => 4 + Z.of_nat k) (seq 0 (Z.to_nat (2 * 2))).
Proof.
  refine (proj1
    (stored_rows Z Z string (fun _ _ => false)
       (fun _ _ _ _ test => Ok test)
       (mkParams ["kline"%string] ["nn"%string] 4 4 2 (Some 2) true None)
       (mkConfig 1 ["y"%string] ["f"%string] [])
       (fun _ _ _ _ => []) [0; 1; 2; 3; 4; 5; 6; 7; 8; 9; 10] 4 2
       [mkFrame [4; 5] [("y_k_nn"%string, [4; 5])];
        mkFrame [6; 7] [("y_k_nn"%string, [6; 7])]]
       _ _ _ eq_refl eq_refl)); simpl; lia.
Defined.

End RollingExtra.

(* ================================================================== *)
(** * The rolling run: windows, configuration check, early windows *)
(* ================================================================== *)

Module RollingRun.
Import Py Frame Rolling Report.

Lemma Forall2_impl_in {A B : Type} (P Q : A -> B -> Prop) (l : list A)
  (l' : list B) :
  (forall x y, In x l -> P x y -> Q x y) -> Forall2 P l l' -> Forall2 Q l l'.
Proof.
  intros H F. induction F as [|x y l l' Hxy _ IH]; constructor.
  - apply H; [left; reflexivity|exact Hxy].
  - apply IH. intros x' y' Hin. apply H. right. exact Hin.
Qed.

Lemma Forall2_nth_error {A B : Type} (P : A -> B -> Prop) (l : list A)
  (l' : list B) :
  Forall2 P l l' ->
  forall i y, nth_error l' i = Some y ->
              exists x, nth_error l i = Some x /\ P x y.
Proof.
  induction 1 as [|x y l l' Hxy _ IH]; intros [|i] y' Hy; try discriminate.
  - injection Hy as <-. exists x. split; [reflexivity|exact Hxy].
  - apply IH. exact Hy.
Qed.

Lemma NoDup_rows (a : Z) (m : nat) :
  NoDup (map (fun k => a + Z.of_nat k) (seq 0 m)).
Proof.
  apply Finite.Injective_map_NoDup; [|apply seq_NoDup].
  intros x y H. lia.
Qed.

Section Run.

Variables Row Pred Score : Type.
Variable has_na : list string -> Row -> bool.
Variable train_predict :
  string -> list string -> string -> list Row -> list Row -> result (list Pred).
Variable compute_scores : string -> list (PredFrame Pred) -> result Score.
Variable p : Params.
Variable c : Config.
Variable schedule : option Z -> Z -> string -> string -> list nat.
Variable df : list Row.
Variable prediction_start : Z.

Local Abbreviation n := (Z.of_nat (length df)).
Local Abbreviation stride := (prediction_length p).
Local Abbreviation window_table :=
  (@predict_window Row Pred Score has_na train_predict p c schedule df
                   prediction_start).
Local Abbreviation loop :=
  (@rolling_loop Row Pred Score has_na train_predict p c schedule df
                 prediction_start).
Local Abbreviation run :=
  (@main Row Pred Score has_na train_predict compute_scores p c schedule df
         prediction_start).

(** The blocks of a loop that returned: block [i] is the table of window
    [i], over the [stride] rows from [prediction_start + i * stride]. *)
Lemma loop_blocks (steps : Z) (frames : list (PredFrame Pred)) :
  0 <= prediction_start -> 0 < stride ->
  steps * stride <= n - prediction_start ->
  snd (loop steps) = Ok frames ->
  Forall2
    (fun step t =>
       snd (window_table step) = Ok t
       /\ frame_index t
          = iloc (range n) (step_predict_start p prediction_start step)
                           (step_predict_end p prediction_start step)
       /\ frame_index t
          = map (fun k => prediction_start + step * stride + Z.of_nat k)
                (seq 0 (Z.to_nat stride)))
    (range steps) frames.
Proof.
  intros Hps Hs Hn Hl.
  apply (RollingExtra.loop_frames _ _ _ has_na train_predict) in Hl.
  revert Hl. apply Forall2_impl_in. intros step t Hin Ht.
  split; [exact Ht|].
  apply RollingProofs.window_ok in Ht. destruct Ht as [_ [Hi _]].
  split; [exact Hi|]. rewrite Hi.
  apply RollingProofs.in_range in Hin.
  unfold step_predict_end, step_predict_start.
  rewrite RollingExtra.iloc_range by nia. f_equal. f_equal. lia.
Qed.

Lemma loop_length (steps : Z) (frames : list (PredFrame Pred)) :
  snd (loop steps) = Ok frames -> length frames = Z.to_nat steps.
Proof.
  intros Hl.
  apply (RollingExtra.loop_frames _ _ _ has_na train_predict) in Hl.
  apply Forall2_length in Hl. rewrite RollingProofs.range_length in Hl.
  symmetry. exact Hl.
Qed.

(** The index of the accumulated table. *)
Lemma loop_rows (steps : Z) (frames : list (PredFrame Pred)) :
  0 <= prediction_start -> 0 < stride ->
  steps * stride <= n - prediction_start ->
  snd (loop steps) = Ok frames ->
  concat (map frame_index frames)
  = map (fun k => prediction_start + Z.of_nat k)
        (seq 0 (Z.to_nat (steps * stride))).
Proof.
  intros Hps Hs Hn Hl.
  destruct (Z.le_gt_cases 0 steps) as [Hsteps|Hneg].
  - pose proof (loop_blocks steps frames Hps Hs Hn Hl) as Hb.
    assert (Hmap : map frame_index frames
                   = map (fun w => iloc (range n)
                                        (predict_start w) (predict_end w))
                         (windows p c prediction_start 0 steps)).
    { unfold windows. rewrite map_map. cbn [predict_start predict_end window].
      apply RollingExtra.map_of_Forall2. revert Hb.
      apply Forall2_impl_in. intros step t _ [_ [Hi _]]. exact Hi. }
    rewrite Hmap. rewrite <- (Z2Nat.id steps) at 1 by exact Hsteps.
    rewrite RollingProofs.windows_union
      by (rewrite ?RollingProofs.range_length; lia).
    rewrite Z2Nat.id by exact Hsteps.
    rewrite RollingExtra.iloc_range by nia. f_equal. f_equal. lia.
  - apply loop_length in Hl.
    replace (Z.to_nat steps) with 0%nat in Hl by lia.
    destruct frames; [|discriminate].
    replace (Z.to_nat (steps * stride)) with 0%nat by nia. reflexivity.
Qed.


(** *** What a run that raises has logged *)

(** A computation that raises without having logged an event raises the
    error of the pool constructor. *)
Local Abbreviation raises_after_event m :=
  (forall e, snd m = Raise e -> fst m = [] -> e = ValueError bad_max_workers).








End Run.

(** C3. For a valid configuration with
    [N - prediction_start >= step_count * stride] the rolling loop returns
    its table whenever the train-predict tasks return theirs, and the
    table it returns has exactly [step_count] blocks, one per window and
    in window order: block [i] is the prediction table of window [i],
    whose rows are the [stride] rows from
    [predict_start_i = prediction_start + i * stride] up to
    [predict_end_i = predict_start_i + stride]; consecutive windows are
    contiguous ([predict_start_(i+1) = predict_end_i]); no row is
    predicted twice; and the rows of all blocks together are exactly the
    [step_count * stride] rows from [prediction_start], in order. *)
Theorem rolling_loop_windows (Row Pred Score : Type)
  (has_na : list string -> Row -> bool)
  (train_predict : string -> list string -> string -> list Row -> list Row ->
                   result (list Pred))
  (p : Params) (c : Config)
  (schedule : option Z -> Z -> string -> string -> list nat)
  (df : list Row) (prediction_start steps : Z) :
  let n := Z.of_nat (length df) in
  let stride := prediction_length p in
  let loop := @rolling_loop Row Pred Score has_na train_predict p c schedule
                            df prediction_start steps in
  let predict_start i := step_predict_start p prediction_start (Z.of_nat i) in
  let predict_end i := step_predict_end p prediction_start (Z.of_nat i) in
  0 <= prediction_start -> 0 < stride -> 0 <= steps ->
  n - prediction_start >= steps * stride ->
  (pool_check p = Ok tt ->
   all_tasks_return has_na train_predict p c df prediction_start steps ->
   exists frames, snd loop = Ok frames)
  /\ (forall frames, snd loop = Ok frames ->
        Z.of_nat (length frames) = steps
        /\ (forall i t, nth_error frames i = Some t ->
              snd (@predict_window Row Pred Score has_na train_predict p c
                     schedule df prediction_start (Z.of_nat i)) = Ok t
              /\ predict_start i = prediction_start + Z.of_nat i * stride
              /\ predict_end i = predict_start i + stride
              /\ predict_start (S i) = predict_end i
              /\ frame_index t
                 = iloc (range n) (predict_start i) (predict_end i)
              /\ frame_index t
                 = map (fun k => predict_start i + Z.of_nat k)
                       (seq 0 (Z.to_nat stride)))
        /\ NoDup (concat (map frame_index frames))
        /\ concat (map frame_index frames)
           = map (fun k => prediction_start + Z.of_nat k)
                 (seq 0 (Z.to_nat (steps * stride)))
        /\ Z.of_nat (length (concat (map frame_index frames)))
           = steps * stride).
Proof.
  intros n stride loop predict_start predict_end Hps Hs Hsteps Hn.
  split.
  { intros Hpool Hall.
    apply (RollingExtra.loop_succeeds_tasks _ _ _ has_na train_predict
             p c schedule df prediction_start Hpool steps).
    exact Hall. }
  intros frames Hl.
  assert (Hn' : steps * stride <= n - prediction_start) by lia.
  pose proof (loop_blocks _ _ _ has_na train_predict p c schedule df
                prediction_start steps frames Hps Hs Hn' Hl) as Hb.
  pose proof (loop_rows _ _ _ has_na train_predict p c schedule df
                prediction_start steps frames Hps Hs Hn' Hl) as Hr.
  split.
  { rewrite (loop_length _ _ _ has_na train_predict p c schedule df
               prediction_start steps frames Hl).
    apply Z2Nat.id. exact Hsteps. }
  split.
  { intros i t Hi.
    destruct (Forall2_nth_error _ _ _ Hb i t Hi) as [step [Hstep H]].
    apply RollingProofs.nth_error_range in Hstep. destruct Hstep as [-> _].
    destruct H as [Ht [Hi1 Hi2]].
    split; [exact Ht|].
    unfold predict_start, predict_end, step_predict_end, step_predict_start.
    fold stride.
    split; [reflexivity|]. split; [reflexivity|]. split; [lia|].
    split; [exact Hi1|]. rewrite Hi2. reflexivity. }
  split; [rewrite Hr; apply NoDup_rows|].
  split; [exact Hr|].
  rewrite Hr, length_map, length_seq. apply Z2Nat.id. nia.
Qed.

Lemma rolling_loop_windows_witness :
  Z.of_nat (length [mkFrame [4; 5] [("y_k_nn"%string, [4; 5])];
                    mkFrame [6; 7] [("y_k_nn"%string, [6; 7])];
                    mkFrame [8; 9] [("y_k_nn"%string, [8; 9])]]) = 3
  /\ concat (map frame_index
               [mkFrame [4; 5] [("y_k_nn"%string, [4; 5])];
                mkFrame [6; 7] [("y_k_nn"%string, [6; 7])];
                mkFrame [8; 9] [("y_k_nn"%string, [8; 9])]])
     = map (fun k => 4 + Z.of_nat k) (seq 0 (Z.to_nat (3 * 2))).
Proof.
  assert (H0 : 0 <= 4) by lia.
  assert (H1 : 0 < 2) by lia.
  assert (H2 : 0 <= 3) by lia.
  assert (H3 : 11 - 4 >= 3 * 2) by lia.
  pose proof (proj2
    (rolling_loop_windows Z Z Z (fun _ _ => false)
       (fun _ _ _ _ test => Ok test)
       (mkParams ["kline"%string] ["nn"%string] 4 4 2 (Some 3) true None)
       (mkConfig 1 ["y"%string] ["f"%string] [])
       (fun _ _ _ _ => []) [0; 1; 2; 3; 4; 5; 6; 7; 8; 9; 10] 4 3
       H0 H1 H2 H3)
    [mkFrame [4; 5] [("y_k_nn"%string, [4; 5])];
     mkFrame [6; 7] [("y_k_nn"%string, [6; 7])];
     mkFrame [8; 9] [("y_k_nn"%string, [8; 9])]]
    eq_refl) as H.
  split; [exact (proj1 H)|exact (proj1 (proj2 (proj2 (proj2 H))))].
Defined.

(** C4. An early window of the loop, at the table of rows 0 to 11 with
    [prediction_start = 3], [label_horizon = 5], a stride of 2 and a train
    length of 4: [train_end] is [3 - 5 - 1 = -3] and [train_start] is 0,
    and the slice [df.iloc[0:-3]] the loop trains on holds the rows 0 to
    8 - the predicted rows 3 and 4 and the four rows after them among
    them, and more rows than the train length; the trainer is handed
    these rows, and a trainer that answers for each test row whether it
    was among its training rows answers yes for both predicted rows. *)
Theorem early_window_trains_on_predicted_rows :
  let p := mkParams ["kline"%string] ["gb"%string] 4 4 2 (Some 1) false None in
  let c := mkConfig 5 ["y"%string] ["f"%string] [] in
  let df := [0; 1; 2; 3; 4; 5; 6; 7; 8; 9; 10; 11] in
  let w := window p c 3 4 0 in
  configure p (Z.of_nat (length df)) 3 = Ok 1
  /\ w = mkWindow 0 (-3) 3 5
  /\ train_end w = predict_start w - label_horizon c - 1
  /\ iloc df (predict_start w) (predict_end w) = [3; 4]
  /\ iloc df (train_start w) (train_end w) = [0; 1; 2; 3; 4; 5; 6; 7; 8]
  /\ window_task (fun _ _ => false) (fun _ _ _ train _ => Ok train)
       p c df 3 0 (["f"%string], "_k_"%string, 4) "y" "gb"
     = Ok [0; 1; 2; 3; 4; 5; 6; 7; 8]
  /\ @predict_window Z bool unit (fun _ _ => false)
       (fun _ _ _ train test =>
          Ok (map (fun r => existsb (Z.eqb r) train) test))
       p c (fun _ _ _ _ => []) df 3 0
     = ([Trained unit 0 "y_k_gb"%string],
        Ok (mkFrame [3; 4] [("y_k_gb"%string, [true; true])])).
Proof. repeat split. Qed.



End RollingRun.

(* ================================================================== *)
(** * Properties of the signal predicates *)
(* ================================================================== *)

Module SignalsExtra.
Import Py Frame Signals.

Lemma ge_true (row : Row) (fv : string * Q) :
  ge (get_column row (fst fv)) (snd fv) = Ok true <-> reaches row fv.
Proof.
  unfold ge, reaches. destruct (get_column row (fst fv)) as [[q| |]|].
  - split.
    + intros H. injection H as H. apply Qle_bool_iff in H. eauto.
    + intros [q' [H1 H2]]. injection H1 as <-.
      apply Qle_bool_iff in H2. rewrite H2. reflexivity.
  - split; [discriminate|intros [q [H _]]; discriminate].
  - split; [discriminate|intros [q [H _]]; discriminate].
  - split; [discriminate|intros [q [H _]]; discriminate].
Qed.

Lemma le_true (row : Row) (fv : string * Q) :
  le (get_column row (fst fv)) (snd fv) = Ok true <-> stays_under row fv.
Proof.
  unfold le, stays_under. destruct (get_column row (fst fv)) as [[q| |]|].
  - split.
    + intros H. injection H as H. apply Qle_bool_iff in H. eauto.
    + intros [q' [H1 H2]]. injection H1 as <-.
      apply Qle_bool_iff in H2. rewrite H2. reflexivity.
  - split; [discriminate|intros [q [H _]]; discriminate].
  - split; [discriminate|intros [q [H _]]; discriminate].
  - split; [discriminate|intros [q [H _]]; discriminate].
Qed.

Lemma all_higher_fn_one (row : Row) (model : Model) :
  all_higher_fn row model = Ok 1 <-> Forall (reaches row) model.
Proof.
  induction model as [|[f v] model IH]; simpl.
  - split; [constructor|reflexivity].
  - pose proof (ge_true row (f, v)) as Hge. simpl in Hge.
    destruct (ge (get_column row f) v) as [[|]|e]; simpl.
    + rewrite IH. split.
      * intros H. constructor; [apply Hge; reflexivity|exact H].
      * intros H. inversion H; assumption.
    + split; [discriminate|].
      intros H. inversion H as [|? ? H1 _]; subst.
      apply Hge in H1. discriminate.
    + split; [discriminate|].
      intros H. inversion H as [|? ? H1 _]; subst.
      apply Hge in H1. discriminate.
Qed.

Lemma all_lower_fn_one (row : Row) (model : Model) :
  all_lower_fn row model = Ok 1 <-> Forall (stays_under row) model.
Proof.
  induction model as [|[f v] model IH]; simpl.
  - split; [constructor|reflexivity].
  - pose proof (le_true row (f, v)) as Hle. simpl in Hle.
    destruct (le (get_column row f) v) as [[|]|e]; simpl.
    + rewrite IH. split.
      * intros H. constructor; [apply Hle; reflexivity|exact H].
      * intros H. inversion H; assumption.
    + split; [discriminate|].
      intros H. inversion H as [|? ? H1 _]; subst.
      apply Hle in H1. discriminate.
    + split; [discriminate|].
      intros H. inversion H as [|? ? H1 _]; subst.
      apply Hle in H1. discriminate.
Qed.

Lemma all_higher_fn_values (row : Row) (model : Model) :
  all_higher_fn row model = Ok 1 \/ all_higher_fn row model = Ok 0
  \/ all_higher_fn row model = Raise TypeError.
Proof.
  induction model as [|[f v] model IH]; simpl; [auto|].
  unfold ge. destruct (get_column row f) as [[q| |]|]; simpl; auto.
  destruct (Qle_bool v q); auto.
Qed.

Lemma all_lower_fn_values (row : Row) (model : Model) :
  all_lower_fn row model = Ok 1 \/ all_lower_fn row model = Ok 0
  \/ all_lower_fn row model = Raise TypeError.
Proof.
  induction model as [|[f v] model IH]; simpl; [auto|].
  unfold le. destruct (get_column row f) as [[q| |]|]; simpl; auto.
  destruct (Qle_bool q v); auto.
Qed.

(** X17. The buy predicate returns 1 exactly when the row has, for every
    field of the model, a number that is at least the field's threshold,
    and the sell predicate exactly when every such number is at most the
    threshold; a model without fields fires on every row; the predicates
    return 0 or 1 or raise [TypeError] (a field that is missing or no
    number), nothing else. *)
Theorem signal_predicates (row : Row) (model : Model) :
  (all_higher_fn row model = Ok 1 <-> Forall (reaches row) model)
  /\ (all_lower_fn row model = Ok 1 <-> Forall (stays_under row) model)
  /\ all_higher_fn row [] = Ok 1 /\ all_lower_fn row [] = Ok 1
  /\ (all_higher_fn row model = Ok 1 \/ all_higher_fn row model = Ok 0
      \/ all_higher_fn row model = Raise TypeError)
  /\ (all_lower_fn row model = Ok 1 \/ all_lower_fn row model = Ok 0
      \/ all_lower_fn row model = Raise TypeError).
Proof.
  split; [apply all_higher_fn_one|]. split; [apply all_lower_fn_one|].
  split; [reflexivity|]. split; [reflexivity|].
  split; [apply all_higher_fn_values|apply all_lower_fn_values].
Qed.

Lemma forallb_permutation {A : Type} (f : A -> bool) (l l' : list A) :
  Permutation l l' -> forallb f l = forallb f l'.
Proof.
  induction 1 as [|x l l' _ IH|x y l|l l' l'' _ IH1 _ IH2]; simpl.
  - reflexivity.
  - rewrite IH. reflexivity.
  - destruct (f x), (f y); reflexivity.
  - rewrite IH1. exact IH2.
Qed.

Lemma all_higher_fn_comparable (row : Row) (model : Model) :
  Forall (comparable row) model ->
  all_higher_fn row model = Ok (if forallb (reaches_b row) model then 1 else 0).
Proof.
  induction 1 as [|[f v] model Hc _ IH]; [reflexivity|].
  simpl. unfold comparable in Hc. unfold reaches_b at 1. simpl in Hc |- *.
  unfold ge. destruct (get_column row f) as [[q| |]|]; try contradiction.
  - simpl. destruct (Qle_bool v q); [exact IH|reflexivity].
  - reflexivity.
Qed.

Lemma all_lower_fn_comparable (row : Row) (model : Model) :
  Forall (comparable row) model ->
  all_lower_fn row model
  = Ok (if forallb (stays_under_b row) model then 1 else 0).
Proof.
  induction 1 as [|[f v] model Hc _ IH]; [reflexivity|].
  simpl. unfold comparable in Hc. unfold stays_under_b at 1. simpl in Hc |- *.
  unfold le. destruct (get_column row f) as [[q| |]|]; try contradiction.
  - simpl. destruct (Qle_bool q v); [exact IH|reflexivity].
  - reflexivity.
Qed.

(** X18. On a row that has a number or [nan] for every field of the model
    the predicates never raise and their value does not depend on the
    order of the fields in the model dictionary. *)
Theorem signal_order_independent (row : Row) (model model' : Model) :
  Forall (comparable row) model -> Permutation model model' ->
  all_higher_fn row model' = all_higher_fn row model
  /\ all_lower_fn row model' = all_lower_fn row model
  /\ (exists b, all_higher_fn row model = Ok b)
  /\ (exists b, all_lower_fn row model = Ok b).
Proof.
  intros Hc Hp.
  assert (Hc' : Forall (comparable row) model').
  { apply Forall_forall. intros fv Hin. rewrite Forall_forall in Hc.
    apply Hc. apply Permutation_sym in Hp.
    exact (Permutation_in fv Hp Hin). }
  rewrite !all_higher_fn_comparable, !all_lower_fn_comparable by assumption.
  rewrite (forallb_permutation (reaches_b row) model model' Hp).
  rewrite (forallb_permutation (stays_under_b row) model model' Hp).
  repeat split; eauto.
Qed.

Lemma signal_order_independent_witness :
  all_higher_fn [("a"%string, Num 2); ("b"%string, NaN)]
                [("b"%string, 1%Q); ("a"%string, 1%Q)]
  = all_higher_fn [("a"%string, Num 2); ("b"%string, NaN)]
                  [("a"%string, 1%Q); ("b"%string, 1%Q)].
Proof.
  refine (proj1 (signal_order_independent
                   [("a"%string, Num 2); ("b"%string, NaN)]
                   [("a"%string, 1%Q); ("b"%string, 1%Q)]
                   [("b"%string, 1%Q); ("a"%string, 1%Q)] _ _)).
  - repeat constructor.
  - apply perm_swap.
Defined.

(** With a field the row lacks the order matters: the predicate returns 0
    when a failing field comes first and raises when the missing one
    does. *)
Remark signal_order_matters :
  all_higher_fn [("a"%string, Num 0)] [("a"%string, 1%Q); ("b"%string, 0%Q)]
  = Ok 0
  /\ all_higher_fn [("a"%string, Num 0)]
                   [("b"%string, 0%Q); ("a"%string, 1%Q)]
     = Raise TypeError.
Proof. split; reflexivity. Qed.

End SignalsExtra.

(* ================================================================== *)
(** * Properties of the score aggregation *)
(* ================================================================== *)

Module ScoresExtra.
Import Py Frame Scores.

Section Columns.

Variable Col : Type.
Variable add : Col -> Col -> Col.
Variable div : Col -> Col -> Col.
Variable div_by : Col -> Z -> Col.
Variable times : Col -> Z -> Col.
Variable minus : Col -> Q -> Col.

Local Abbreviation Table := (Scores.Table Col).
Local Abbreviation sum_columns := (Scores.sum_columns Col add).
Local Abbreviation sum_from := (Scores.sum_from Col add).
Local Abbreviation kline_block := (Scores.kline_block Col add div_by).
Local Abbreviation futur_block := (Scores.futur_block Col add div_by).
Local Abbreviation generate_score_high_low :=
  (Scores.generate_score_high_low Col add div div_by times minus).
Local Abbreviation combined_relative_score :=
  (Scores.combined_relative_score Col add div times minus).
Local Abbreviation relative := (Scores.relative Col add div times minus).

(** *** Reading after writing *)

Lemma get_after_set (df : Table) (c n : string) (v : Col) :
  get_column (set_column df c v) n
  = if String.eqb c n then Some v else get_column df n.
Proof.
  induction df as [|[c' v'] df IH]; simpl.
  - destruct (String.eqb c n); reflexivity.
  - destruct (String.eqb_spec c' c) as [->|Hne]; simpl.
    + destruct (String.eqb c n); reflexivity.
    + destruct (String.eqb_spec c' n) as [->|Hn].
      * destruct (String.eqb_spec c n) as [->|_]; [contradiction|reflexivity].
      * exact IH.
Qed.

Lemma set_twice (df : Table) (c : string) (v w : Col) :
  set_column (set_column df c v) c w = set_column df c w.
Proof.
  induction df as [|[c' v'] df IH]; simpl.
  - rewrite String.eqb_refl. reflexivity.
  - destruct (String.eqb c' c) eqn:E; simpl; rewrite E; [reflexivity|].
    rewrite IH. reflexivity.
Qed.

Lemma col_set_same (df : Table) (c : string) (v : Col) :
  col (set_column df c v) c = Ok v.
Proof. unfold col. rewrite get_after_set, String.eqb_refl. reflexivity. Qed.

Lemma col_set_other (df : Table) (c n : string) (v : Col) :
  String.eqb c n = false -> col (set_column df c v) n = col df n.
Proof. intros H. unfold col. rewrite get_after_set, H. reflexivity. Qed.

Lemma sum_from_set_other (df : Table) (c : string) (v : Col)
  (names : list string) : forall acc,
  mem c names = false ->
  sum_from (set_column df c v) acc names = sum_from df acc names.
Proof.
  induction names as [|n names IH]; intros acc H; [reflexivity|].
  simpl in H. apply orb_false_iff in H. destruct H as [H1 H2].
  simpl. rewrite col_set_other by exact H1.
  destruct (col df n); simpl; [apply IH; exact H2|reflexivity].
Qed.

Lemma sum_set_other (df : Table) (c : string) (v : Col) (first : string)
  (others : list string) :
  mem c (first :: others) = false ->
  sum_columns (set_column df c v) first others = sum_columns df first others.
Proof.
  intros H. simpl in H. apply orb_false_iff in H. destruct H as [H1 H2].
  unfold Scores.sum_columns. rewrite col_set_other by exact H1.
  destruct (col df first); simpl; [apply sum_from_set_other; exact H2|].
  reflexivity.
Qed.

(** *** A sum returns exactly when its columns are present *)

Lemma col_outcome (df : Table) (n : string) :
  (exists v, col df n = Ok v /\ get_column df n = Some v)
  \/ (col df n = Raise KeyError /\ get_column df n = None).
Proof. unfold col. destruct (get_column df n); simpl; eauto. Qed.

Lemma sum_from_outcome (df : Table) (names : list string) : forall acc,
  (Forall (present df) names /\ exists s, sum_from df acc names = Ok s)
  \/ (~ Forall (present df) names /\ sum_from df acc names = Raise KeyError).
Proof.
  induction names as [|n names IH]; intros acc; simpl.
  - left. split; [constructor|eauto].
  - destruct (col_outcome df n) as [[v [-> Hv]]|[-> Hn]]; simpl.
    + destruct (IH (add acc v)) as [[Hp Hs]|[Hp Hs]].
      * left. split; [|exact Hs]. constructor; [|exact Hp].
        unfold present. congruence.
      * right. split; [|exact Hs]. intros H. inversion H; auto.
    + right. split; [|reflexivity]. intros H. inversion H as [|? ? H1 _].
      apply H1. exact Hn.
Qed.

Lemma sum_outcome (df : Table) (first : string) (others : list string) :
  (Forall (present df) (first :: others)
   /\ exists s, sum_columns df first others = Ok s)
  \/ (~ Forall (present df) (first :: others)
      /\ sum_columns df first others = Raise KeyError).
Proof.
  unfold Scores.sum_columns.
  destruct (col_outcome df first) as [[v [-> Hv]]|[-> Hn]]; simpl.
  - destruct (sum_from_outcome df others v) as [[Hp Hs]|[Hp Hs]].
    + left. split; [|exact Hs]. constructor; [|exact Hp].
      unfold present. congruence.
    + right. split; [|exact Hs]. intros H. inversion H; auto.
  - right. split; [|reflexivity]. intros H. inversion H as [|? ? H1 _].
    apply H1. exact Hn.
Qed.

Lemma sum_from_agree (df1 df2 : Table) (names : list string) : forall acc,
  agree df1 df2 names -> sum_from df1 acc names = sum_from df2 acc names.
Proof.
  induction names as [|n names IH]; intros acc H; [reflexivity|].
  inversion H as [|? ? H1 H2]; subst. simpl. unfold col. rewrite H1.
  destruct (get_column df2 n); simpl; [apply IH; exact H2|reflexivity].
Qed.

Lemma sum_agree (df1 df2 : Table) (first : string) (others : list string) :
  agree df1 df2 (first :: others) ->
  sum_columns df1 first others = sum_columns df2 first others.
Proof.
  intros H. inversion H as [|? ? H1 H2]; subst.
  unfold Scores.sum_columns, col. rewrite H1.
  destruct (get_column df2 first); simpl; [|reflexivity].
  apply sum_from_agree. exact H2.
Qed.

(** *** The blocks in terms of the sums over the table they start from *)

Local Abbreviation total := (Scores.total Col add).
Local Abbreviation average9 := (Scores.average9 Col add div_by).
Local Abbreviation average3 := (Scores.average3 Col add div_by).

Lemma average9_sum (df : Table) (out first : string) (others : list string) :
  average9 df out first others
  = (s <- sum_columns df first others ;;
     Ok (set_column df out (div_by s 9))).
Proof.
  unfold Scores.average9. destruct (sum_columns df first others); simpl;
    [|reflexivity].
  rewrite col_set_same. simpl. rewrite set_twice. reflexivity.
Qed.

Lemma kline_block_sums (df : Table) :
  kline_block df
  = (h <- total df high_k_inputs ;;
     l <- total df low_k_inputs ;;
     a <- total df high_k_nn_inputs ;;
     b <- total df low_k_nn_inputs ;;
     Ok (set_column
           (set_column
              (set_column (set_column df "high_k" (div_by h 9))
                          "low_k" (div_by l 9))
              "high_k_nn" (div_by a 3))
           "low_k_nn" (div_by b 3))).
Proof.
  unfold Scores.kline_block, Scores.total, high_k_inputs, low_k_inputs,
    high_k_nn_inputs, low_k_nn_inputs, Scores.average3.
  rewrite average9_sum.
  destruct (sum_columns df "high_10_k_gb" _) as [h|e]; simpl; [|reflexivity].
  rewrite average9_sum, sum_set_other by reflexivity.
  destruct (sum_columns df "low_10_k_gb" _) as [l|e]; simpl; [|reflexivity].
  rewrite !sum_set_other by reflexivity.
  destruct (sum_columns df "high_10_k_nn" _) as [a|e]; simpl; [|reflexivity].
  rewrite !sum_set_other by reflexivity.
  destruct (sum_columns df "low_10_k_nn" _) as [b|e]; reflexivity.
Qed.

Lemma futur_block_sums (df : Table) :
  futur_block df
  = (h <- total df high_f_inputs ;;
     l <- total df low_f_inputs ;;
     a <- total df high_f_nn_inputs ;;
     b <- total df low_f_nn_inputs ;;
     Ok (set_column
           (set_column
              (set_column (set_column df "high_f" (div_by h 9))
                          "low_f" (div_by l 9))
              "high_f_nn" (div_by a 3))
           "low_f_nn" (div_by b 3))).
Proof.
  unfold Scores.futur_block, Scores.total, high_f_inputs, low_f_inputs,
    high_f_nn_inputs, low_f_nn_inputs, Scores.average3.
  rewrite average9_sum.
  destruct (sum_columns df "high_10_f_gb" _) as [h|e]; simpl; [|reflexivity].
  rewrite average9_sum, sum_set_other by reflexivity.
  destruct (sum_columns df "low_10_f_gb" _) as [l|e]; simpl; [|reflexivity].
  rewrite !sum_set_other by reflexivity.
  destruct (sum_columns df "high_10_f_nn" _) as [a|e]; simpl; [|reflexivity].
  rewrite !sum_set_other by reflexivity.
  destruct (sum_columns df "low_10_f_nn" _) as [b|e]; reflexivity.
Qed.

Local Abbreviation finish := (Scores.finish Col add div times minus).

Lemma generate_finish (df : Table) (feature_sets : list string) :
  generate_score_high_low df feature_sets
  = (df <- (if mem "kline" feature_sets then kline_block df else Ok df) ;;
     df <- (if mem "futur" feature_sets then futur_block df else Ok df) ;;
     finish df).
Proof.
  unfold Scores.generate_score_high_low, Scores.finish, Scores.relative.
  destruct (if mem "kline" feature_sets then kline_block df else Ok df)
    as [df1|e]; simpl; [|reflexivity].
  destruct (if mem "futur" feature_sets then futur_block df1 else Ok df1)
    as [df2|e]; simpl; [|reflexivity].
  destruct (col df2 "high_k") as [hk|e]; simpl; [|reflexivity].
  rewrite col_set_other by reflexivity.
  destruct (col df2 "low_k") as [lk|e]; simpl; [|reflexivity].
  rewrite (col_set_other _ "low" "high") by reflexivity.
  rewrite !col_set_same. reflexivity.
Qed.

(** *** Outcomes *)

Lemma total_outcome (df : Table) (names : list string) :
  names <> [] ->
  (Forall (present df) names /\ exists s, total df names = Ok s)
  \/ (~ Forall (present df) names /\ total df names = Raise KeyError).
Proof.
  destruct names as [|first others]; [contradiction|]. intros _.
  apply sum_outcome.
Qed.

Lemma total_present (df : Table) (names : list string) :
  names <> [] -> Forall (present df) names -> exists s, total df names = Ok s.
Proof.
  intros Hn Hp. destruct (total_outcome df names Hn) as [[_ H]|[H _]];
    [exact H|contradiction].
Qed.

Lemma total_set_other (df : Table) (c : string) (v : Col)
  (names : list string) :
  mem c names = false -> total (set_column df c v) names = total df names.
Proof.
  destruct names as [|first others]; [reflexivity|]. apply sum_set_other.
Qed.

Lemma nn_inputs_included :
  incl high_k_nn_inputs high_k_inputs /\ incl low_k_nn_inputs low_k_inputs
  /\ incl high_f_nn_inputs high_f_inputs /\ incl low_f_nn_inputs low_f_inputs.
Proof.
  repeat split; intros x H; simpl in H; simpl; tauto.
Qed.

Lemma kline_outcome (df : Table) :
  (Forall (present df) (high_k_inputs ++ low_k_inputs)
   /\ exists h l a b,
        total df high_k_inputs = Ok h /\ total df low_k_inputs = Ok l
        /\ kline_block df
           = Ok (write_all df [("high_k"%string, div_by h 9);
                               ("low_k"%string, div_by l 9);
                               ("high_k_nn"%string, div_by a 3);
                               ("low_k_nn"%string, div_by b 3)]))
  \/ (~ Forall (present df) (high_k_inputs ++ low_k_inputs)
      /\ kline_block df = Raise KeyError).
Proof.
  rewrite kline_block_sums, Forall_app.
  destruct (total_outcome df high_k_inputs ltac:(discriminate))
    as [[Hh [h Eh]]|[Hh Eh]]; rewrite Eh; [|right; split; [tauto|reflexivity]].
  destruct (total_outcome df low_k_inputs ltac:(discriminate))
    as [[Hl [l El]]|[Hl El]]; rewrite El; [|right; split; [tauto|reflexivity]].
  destruct nn_inputs_included as [I1 [I2 _]].
  destruct (total_present df high_k_nn_inputs ltac:(discriminate)
              (incl_Forall I1 Hh)) as [a Ea].
  destruct (total_present df low_k_nn_inputs ltac:(discriminate)
              (incl_Forall I2 Hl)) as [b Eb].
  rewrite Ea, Eb. left. split; [tauto|]. exists h, l, a, b. auto.
Qed.

Lemma futur_outcome (df : Table) :
  (Forall (present df) (high_f_inputs ++ low_f_inputs)
   /\ exists h l a b,
        futur_block df
        = Ok (write_all df [("high_f"%string, div_by h 9);
                            ("low_f"%string, div_by l 9);
                            ("high_f_nn"%string, div_by a 3);
                            ("low_f_nn"%string, div_by b 3)]))
  \/ (~ Forall (present df) (high_f_inputs ++ low_f_inputs)
      /\ futur_block df = Raise KeyError).
Proof.
  rewrite futur_block_sums, Forall_app.
  destruct (total_outcome df high_f_inputs ltac:(discriminate))
    as [[Hh [h Eh]]|[Hh Eh]]; rewrite Eh; [|right; split; [tauto|reflexivity]].
  destruct (total_outcome df low_f_inputs ltac:(discriminate))
    as [[Hl [l El]]|[Hl El]]; rewrite El; [|right; split; [tauto|reflexivity]].
  destruct nn_inputs_included as [_ [_ [I1 I2]]].
  destruct (total_present df high_f_nn_inputs ltac:(discriminate)
              (incl_Forall I1 Hh)) as [a Ea].
  destruct (total_present df low_f_nn_inputs ltac:(discriminate)
              (incl_Forall I2 Hl)) as [b Eb].
  rewrite Ea, Eb. left. split; [tauto|]. exists h, l, a, b. auto.
Qed.

Lemma finish_outcome (df : Table) :
  (exists hk lk,
     get_column df "high_k" = Some hk /\ get_column df "low_k" = Some lk
     /\ finish df
        = Ok (write_all df [("high"%string, hk); ("low"%string, lk);
                            ("score"%string, relative hk lk)]))
  \/ (~ Forall (present df) ["high_k"; "low_k"]%string
      /\ finish df = Raise KeyError).
Proof.
  unfold Scores.finish.
  destruct (col_outcome df "high_k") as [[hk [-> Hh]]|[-> Hh]]; simpl.
  - destruct (col_outcome df "low_k") as [[lk [-> Hl]]|[-> Hl]]; simpl.
    + left. exists hk, lk. auto.
    + right. split; [|reflexivity]. intros H.
      inversion H as [|? ? _ H']; subst. inversion H' as [|? ? H1 _]; subst.
      apply H1. exact Hl.
  - right. split; [|reflexivity]. intros H.
    inversion H as [|? ? H1 _]; subst. apply H1. exact Hh.
Qed.

(** *** Tables after a list of assignments *)

Lemma write_all_app (df : Table) (l1 l2 : list (string * Col)) :
  write_all (write_all df l1) l2 = write_all df (l1 ++ l2).
Proof. unfold write_all. rewrite fold_left_app. reflexivity. Qed.

Lemma get_write_all_other (n : string) (l : list (string * Col)) :
  forall df : Table,
    ~ In n (map fst l) -> get_column (write_all df l) n = get_column df n.
Proof.
  induction l as [|[c v] l IH]; intros df H; [reflexivity|].
  simpl in H. change (write_all df ((c, v) :: l))
    with (write_all (set_column df c v) l).
  rewrite IH by tauto. rewrite get_after_set.
  destruct (String.eqb_spec c n) as [->|_]; [tauto|reflexivity].
Qed.

Lemma present_write_all (n : string) (l : list (string * Col)) :
  forall df : Table, present df n -> present (write_all df l) n.
Proof.
  induction l as [|[c v] l IH]; intros df H; [exact H|].
  change (write_all df ((c, v) :: l)) with (write_all (set_column df c v) l).
  apply IH. unfold present. rewrite get_after_set.
  destruct (String.eqb c n); [discriminate|exact H].
Qed.

Lemma written_present (n : string) (l : list (string * Col)) :
  forall df : Table, In n (map fst l) -> present (write_all df l) n.
Proof.
  induction l as [|[c v] l IH]; intros df H; [contradiction|].
  change (write_all df ((c, v) :: l)) with (write_all (set_column df c v) l).
  destruct (in_dec string_dec n (map fst l)) as [Hin|Hout].
  - apply IH. exact Hin.
  - destruct H as [H|H]; [|contradiction]. simpl in H. subst c.
    unfold present. rewrite get_write_all_other by exact Hout.
    rewrite get_after_set, String.eqb_refl. discriminate.
Qed.

Lemma present_others (df : Table) (l : list (string * Col))
  (names : list string) :
  (forall n, In n names -> ~ In n (map fst l)) ->
  (Forall (present (write_all df l)) names <-> Forall (present df) names).
Proof.
  intros Hd. rewrite !Forall_forall. split; intros H n Hn.
  - specialize (H n Hn). unfold present in *.
    rewrite get_write_all_other in H by (apply Hd; exact Hn). exact H.
  - apply present_write_all. apply H. exact Hn.
Qed.

Lemma columns_write_all (l : list (string * Col)) : forall df : Table,
  columns (write_all df l)
  = fold_left Rolling.add_name (map fst l) (columns df).
Proof.
  induction l as [|[c v] l IH]; intros df; [reflexivity|].
  change (write_all df ((c, v) :: l)) with (write_all (set_column df c v) l).
  rewrite IH, RollingProofs.columns_after_assign. reflexivity.
Qed.

(** *** The whole function *)

Lemma generate_outcome (df : Table) (feature_sets : list string) :
  (Forall (present df) (inputs feature_sets)
   /\ exists values,
        map fst values = outputs feature_sets
        /\ generate_score_high_low df feature_sets
           = Ok (write_all df values))
  \/ (~ Forall (present df) (inputs feature_sets)
      /\ generate_score_high_low df feature_sets = Raise KeyError).
Proof.
  rewrite generate_finish. unfold inputs, outputs.
  destruct (mem "kline" feature_sets).
  - destruct (kline_outcome df) as [[Hk [h [l [a [b [_ [_ ->]]]]]]]|[Hk ->]];
      [|right; split; [rewrite Forall_app; tauto|reflexivity]].
    cbn [bind]. set (K := [("high_k"%string, div_by h 9); _; _; _]).
    destruct (mem "futur" feature_sets).
    + destruct (futur_outcome (write_all df K))
        as [[Hf [h' [l' [a' [b' ->]]]]]|[Hf ->]].
      * cbn [bind]. rewrite write_all_app.
        set (F := [("high_f"%string, div_by h' 9); _; _; _]).
        destruct (finish_outcome (write_all df (K ++ F)))
          as [[hk [lk [_ [_ ->]]]]|[Hn _]].
        -- left. split.
           ++ rewrite Forall_app. split; [exact Hk|].
              apply (present_others df K) in Hf; [exact Hf|].
              intros n Hn. simpl in Hn |- *. intros Hc.
              repeat (destruct Hn as [<-|Hn];
                      [repeat (destruct Hc as [Hc|Hc];
                               [discriminate|]); exact Hc|]).
              exact Hn.
           ++ rewrite write_all_app. eexists. split; [|reflexivity].
              reflexivity.
        -- exfalso. apply Hn.
           repeat constructor; apply written_present; simpl; tauto.
      * right. split; [|reflexivity]. rewrite Forall_app. intros [_ H].
        apply Hf. apply (present_others df K); [|exact H].
        intros n Hn. simpl in Hn |- *. intros Hc.
        repeat (destruct Hn as [<-|Hn];
                [repeat (destruct Hc as [Hc|Hc]; [discriminate|]);
                 exact Hc|]).
        exact Hn.
    + cbn [bind].
      destruct (finish_outcome (write_all df K))
        as [[hk [lk [_ [_ ->]]]]|[Hn _]].
      * left. split; [rewrite app_nil_r; exact Hk|].
        rewrite write_all_app. eexists. split; [|reflexivity]. reflexivity.
      * exfalso. apply Hn.
        repeat constructor; apply written_present; simpl; tauto.
  - cbn [bind]. destruct (mem "futur" feature_sets).
    + destruct (futur_outcome df) as [[Hf [h' [l' [a' [b' ->]]]]]|[Hf ->]];
        [|right; split; [rewrite Forall_app; tauto|reflexivity]].
      cbn [bind]. set (F := [("high_f"%string, div_by h' 9); _; _; _]).
      destruct (finish_outcome (write_all df F))
        as [[hk [lk [Hh [Hl ->]]]]|[Hn ->]].
      * left. split.
        -- rewrite Forall_app. split; [|exact Hf].
           rewrite get_write_all_other in Hh, Hl
             by (simpl; intuition discriminate).
           repeat constructor; unfold present; congruence.
        -- rewrite write_all_app. eexists. split; [|reflexivity].
           reflexivity.
      * right. split; [|reflexivity]. rewrite Forall_app. intros [H _].
        apply Hn. apply (present_others df F); [|exact H].
        intros n Hn'. simpl in Hn' |- *. intros Hc.
        repeat (destruct Hn' as [<-|Hn'];
                [repeat (destruct Hc as [Hc|Hc]; [discriminate|]);
                 exact Hc|]).
        exact Hn'.
    + cbn [bind].
      destruct (finish_outcome df) as [[hk [lk [Hh [Hl ->]]]]|[Hn ->]].
      * left. split.
        -- rewrite app_nil_r. repeat constructor; unfold present; congruence.
        -- eexists. split; [|reflexivity]. reflexivity.
      * right. split; [|reflexivity]. rewrite app_nil_r. exact Hn.
Qed.

Lemma set_same_value (df : Table) (c : string) (v : Col) :
  get_column df c = Some v -> set_column df c v = df.
Proof.
  induction df as [|[c' v'] df IH]; simpl; [discriminate|].
  destruct (String.eqb c' c); [intros H; injection H as ->; reflexivity|].
  intros H. rewrite IH by exact H. reflexivity.
Qed.

Lemma finish_result (df df' : Table) :
  finish df = Ok df' ->
  exists hk lk,
    get_column df "high_k" = Some hk /\ get_column df "low_k" = Some lk
    /\ get_column df' "high" = Some hk /\ get_column df' "low" = Some lk
    /\ get_column df' "score" = Some (relative hk lk).
Proof.
  destruct (finish_outcome df) as [[hk [lk [Hh [Hl ->]]]]|[_ ->]];
    [|discriminate].
  intros H. injection H as <-. exists hk, lk.
  split; [exact Hh|]. split; [exact Hl|]. simpl.
  rewrite !get_after_set. simpl. auto.
Qed.

Lemma generate_kline (df df' : Table) (feature_sets : list string) :
  mem "kline" feature_sets = true ->
  generate_score_high_low df feature_sets = Ok df' ->
  exists h l,
    total df high_k_inputs = Ok h /\ total df low_k_inputs = Ok l
    /\ get_column df' "high" = Some (div_by h 9)
    /\ get_column df' "low" = Some (div_by l 9)
    /\ get_column df' "score"
       = Some (relative (div_by h 9) (div_by l 9)).
Proof.
  intros Hk. rewrite generate_finish, Hk.
  destruct (kline_outcome df) as [[_ [h [l [a [b [Eh [El ->]]]]]]]|[_ ->]];
    [|discriminate].
  cbn [bind]. set (K := [("high_k"%string, div_by h 9); _; _; _]).
  assert (Hread : forall F : list (string * Col),
             ~ In "high_k"%string (map fst F) ->
             ~ In "low_k"%string (map fst F) ->
             forall df', finish (write_all (write_all df K) F) = Ok df' ->
             get_column df' "high" = Some (div_by h 9)
             /\ get_column df' "low" = Some (div_by l 9)
             /\ get_column df' "score"
                = Some (relative (div_by h 9) (div_by l 9))).
  { intros F H1 H2 t Ht. apply finish_result in Ht.
    destruct Ht as [hk [lk [Hh [Hl Hrest]]]].
    rewrite get_write_all_other in Hh, Hl by assumption.
    unfold K in Hh, Hl. simpl in Hh, Hl.
    rewrite !get_after_set in Hh, Hl. simpl in Hh, Hl.
    injection Hh as <-. injection Hl as <-. exact Hrest. }
  destruct (mem "futur" feature_sets).
  - destruct (futur_outcome (write_all df K))
      as [[_ [h' [l' [a' [b' ->]]]]]|[_ ->]]; [|discriminate].
    cbn [bind]. intros H. exists h, l. split; [exact Eh|].
    split; [exact El|].
    refine (Hread _ _ _ df' H); simpl; intuition discriminate.
  - cbn [bind]. intros H. exists h, l. split; [exact Eh|].
    split; [exact El|].
    apply (Hread [] ltac:(simpl; tauto) ltac:(simpl; tauto) df' H).
Qed.

Lemma total_agree (df1 df2 : Table) (names : list string) :
  agree df1 df2 names -> total df1 names = total df2 names.
Proof.
  destruct names as [|first others]; [reflexivity|]. apply sum_agree.
Qed.

(** X19. [generate_score_high_low] returns exactly when the table has
    every column the call reads: the eighteen kline predictions when
    ["kline"] is among the feature sets and otherwise [high_k] and [low_k]
    themselves, plus the eighteen futur predictions when ["futur"] is; in
    every other case it raises [KeyError].  So a call without ["kline"] on
    a table without a [high_k] column always fails. *)
Theorem generate_score_high_low_inputs (df : Table)
  (feature_sets : list string) :
  ((exists df', generate_score_high_low df feature_sets = Ok df')
   <-> Forall (present df) (inputs feature_sets))
  /\ (forall e, generate_score_high_low df feature_sets = Raise e ->
                e = KeyError)
  /\ (mem "kline" feature_sets = false ->
      get_column df "high_k" = None ->
      generate_score_high_low df feature_sets = Raise KeyError).
Proof.
  destruct (generate_outcome df feature_sets)
    as [[Hp [values [_ E]]]|[Hp E]]; rewrite E.
  - split; [split; [intros _; exact Hp|eauto]|].
    split; [discriminate|].
    intros Hk Hn. exfalso. unfold inputs in Hp. rewrite Hk in Hp.
    apply Forall_app in Hp. destruct Hp as [Hp _].
    inversion Hp as [|? ? H1 _]; subst. apply H1. exact Hn.
  - split; [split; [intros [? H]; discriminate|contradiction]|].
    split; [intros e H; injection H as <-; reflexivity|reflexivity].
Qed.

(** X20. A call that returns leaves the table as it was except for the
    columns it writes: the four kline aggregates when ["kline"] is among
    the feature sets, the four futur aggregates when ["futur"] is, then
    [high], [low] and [score]; new columns are appended in that order and
    every other column keeps its value. *)
Theorem generate_score_high_low_frame (df df' : Table)
  (feature_sets : list string) :
  generate_score_high_low df feature_sets = Ok df' ->
  columns df'
  = fold_left Rolling.add_name (outputs feature_sets) (columns df)
  /\ Forall (present df') (outputs feature_sets)
  /\ (forall n, ~ In n (outputs feature_sets) ->
                get_column df' n = get_column df n).
Proof.
  destruct (generate_outcome df feature_sets)
    as [[_ [values [Hv E]]]|[_ E]]; rewrite E; [|discriminate].
  intros H. injection H as <-. rewrite <- Hv.
  split; [apply columns_write_all|]. split.
  - apply Forall_forall. intros n Hn. apply written_present. exact Hn.
  - intros n Hn. apply get_write_all_other. exact Hn.
Qed.

(** X21. The final score of a call with ["kline"] among the feature sets
    is the relative score of [high] and [low], which are the averages of
    the nine kline high and the nine kline low predictions; so two calls
    on tables that agree on these eighteen columns give the same [high],
    [low] and [score], whatever the other columns hold and whether or not
    ["futur"] is among the feature sets: the futur predictions do not
    enter the score.  The score column is the one
    [combined_relative_score] computes from [high] and [low]: applying it
    to the result changes nothing. *)
Theorem generate_score_high_low_kline_only (df1 df2 df1' df2' : Table)
  (feature_sets1 feature_sets2 : list string) :
  mem "kline" feature_sets1 = true -> mem "kline" feature_sets2 = true ->
  agree df1 df2 (high_k_inputs ++ low_k_inputs) ->
  generate_score_high_low df1 feature_sets1 = Ok df1' ->
  generate_score_high_low df2 feature_sets2 = Ok df2' ->
  (exists h l,
     total df1 high_k_inputs = Ok h /\ total df1 low_k_inputs = Ok l
     /\ get_column df1' "high" = Some (div_by h 9)
     /\ get_column df1' "low" = Some (div_by l 9)
     /\ get_column df1' "score"
        = Some (relative (div_by h 9) (div_by l 9)))
  /\ combined_relative_score df1' "high" "low" "score"
     = Ok (df1', "score"%string)
  /\ get_column df1' "high" = get_column df2' "high"
  /\ get_column df1' "low" = get_column df2' "low"
  /\ get_column df1' "score" = get_column df2' "score".
Proof.
  intros Hk1 Hk2 Ha H1 H2.
  destruct (generate_kline df1 df1' feature_sets1 Hk1 H1)
    as [h [l [Eh [El [Hh [Hl Hs]]]]]].
  destruct (generate_kline df2 df2' feature_sets2 Hk2 H2)
    as [h2 [l2 [Eh2 [El2 [Hh2 [Hl2 Hs2]]]]]].
  unfold agree in Ha. apply Forall_app in Ha. destruct Ha as [A1 A2].
  rewrite (total_agree df1 df2 _ A1) in Eh.
  rewrite (total_agree df1 df2 _ A2) in El.
  assert (h2 = h) by congruence. assert (l2 = l) by congruence. subst.
  split.
  - exists h, l. rewrite (total_agree df1 df2 _ A1), (total_agree df1 df2 _ A2).
    auto.
  - split; [|rewrite Hh, Hl, Hs, Hh2, Hl2, Hs2; auto].
    unfold Scores.combined_relative_score, col. rewrite Hh, Hl. simpl.
    rewrite set_same_value by exact Hs. reflexivity.
Qed.

End Columns.

Local Abbreviation q_generate :=
  (Scores.generate_score_high_low QCol q_add q_div q_div_by q_times q_minus).

Lemma generate_score_high_low_frame_witness :
  exists df',
    q_generate [("high_k"%string, [1%Q]); ("low_k"%string, [3%Q]);
                ("close"%string, [7%Q])] []
    = Ok df'
    /\ columns df' = ["high_k"; "low_k"; "close"; "high"; "low"; "score"]%string
    /\ get_column df' "close" = Some [7%Q].
Proof.
  let r := eval vm_compute in
       (q_generate [("high_k"%string, [1%Q]); ("low_k"%string, [3%Q]);
                    ("close"%string, [7%Q])] []) in
  match r with
  | Ok ?t =>
      exists t;
      assert (H : q_generate [("high_k"%string, [1%Q]); ("low_k"%string, [3%Q]);
                              ("close"%string, [7%Q])] [] = Ok t)
        by (vm_compute; reflexivity);
      pose proof (generate_score_high_low_frame QCol q_add q_div q_div_by
                    q_times q_minus _ _ _ H) as [Hc [_ Hk]];
      split; [exact H|split; [exact Hc|]];
      apply (Hk "close"%string); simpl; intuition discriminate
  end.
Defined.

Lemma generate_score_high_low_kline_only_witness :
  exists df1' df2',
    q_generate (constant_table (high_k_inputs ++ low_k_inputs) [1%Q])
               ["kline"%string]
    = Ok df1'
    /\ q_generate
         (constant_table (high_k_inputs ++ low_k_inputs) [1%Q]
          ++ constant_table (high_f_inputs ++ low_f_inputs) [5%Q])
         ["futur"; "kline"]%string
       = Ok df2'
    /\ get_column df1' "score" = get_column df2' "score".
Proof.
  let r1 := eval vm_compute in
       (q_generate (constant_table (high_k_inputs ++ low_k_inputs) [1%Q])
                   ["kline"%string]) in
  let r2 := eval vm_compute in
       (q_generate
          (constant_table (high_k_inputs ++ low_k_inputs) [1%Q]
           ++ constant_table (high_f_inputs ++ low_f_inputs) [5%Q])
          ["futur"; "kline"]%string) in
  match r1 with
  | Ok ?t1 =>
      match r2 with
      | Ok ?t2 =>
          exists t1, t2;
          assert (H1 : q_generate
                         (constant_table (high_k_inputs ++ low_k_inputs) [1%Q])
                         ["kline"%string] = Ok t1)
            by (vm_compute; reflexivity);
          assert (H2 : q_generate
                         (constant_table (high_k_inputs ++ low_k_inputs) [1%Q]
                          ++ constant_table (high_f_inputs ++ low_f_inputs)
                               [5%Q])
                         ["futur"; "kline"]%string = Ok t2)
            by (vm_compute; reflexivity);
          split; [exact H1|split; [exact H2|]];
          refine (proj2 (proj2 (proj2 (proj2
                    (generate_score_high_low_kline_only QCol q_add q_div
                       q_div_by q_times q_minus _ _ _ _
                       ["kline"%string] ["futur"; "kline"]%string
                       eq_refl eq_refl _ H1 H2)))));
          unfold agree; repeat constructor
      end
  end.
Defined.

End ScoresExtra.

(* ================================================================== *)
(** * Properties of the model store *)
(* ================================================================== *)

Module ModelStoreExtra.
Import Py Frame ModelStore.

(** ** [get_model] *)

Lemma next_named_first (l : list Dict) (name : string) (x : Dict) :
  next_named l name = Ok x ->
  exists before after,
    l = before ++ x :: after
    /\ eq_str (get x "name") name = true
    /\ Forall (fun y => eq_str (get y "name") name = false) before.
Proof.
  induction l as [|y l IH]; simpl; [discriminate|].
  destruct (eq_str (get y "name") name) eqn:E.
  - intros H. injection H as <-. exists [], l. auto.
  - intros H. destruct (IH H) as [before [after [-> [Hx Hb]]]].
    exists (y :: before), after. auto.
Qed.

Lemma next_named_none (l : list Dict) (name : string) :
  next_named l name = Raise StopIteration
  <-> Forall (fun y => eq_str (get y "name") name = false) l.
Proof.
  induction l as [|y l IH]; simpl.
  - split; [constructor|reflexivity].
  - destruct (eq_str (get y "name") name) eqn:E.
    + split; [discriminate|]. intros H. inversion H; congruence.
    + rewrite IH. split; [auto|]. intros H. inversion H; assumption.
Qed.

Lemma eq_str_true (v : Value) (name : string) :
  eq_str v name = true <-> v = VStr name.
Proof.
  destruct v; simpl; try (split; discriminate).
  rewrite String.eqb_eq. split; [intros ->; reflexivity|].
  intros H. injection H as ->. reflexivity.
Qed.

(** X22. [get_model] returns the first description registered under the
    name and raises [StopIteration] when there is none.  With the
    descriptions of the module: the lookup returns exactly for the six
    registered names, each name has one description, whose algorithm is
    one of nn, lc and gb; in particular every algorithm the rolling
    predictions dispatch has a description, of that algorithm, so the
    lookups made when the tasks are submitted do not raise. *)
Theorem get_model_registered (name : string) :
  (forall x, get_model name = Ok x ->
             In x models /\ get x "name" = VStr name
             /\ (forall y, In y models -> get y "name" = VStr name -> y = x)
             /\ exists algo, get x "algo" = VStr algo
                             /\ In algo ["nn"; "lc"; "gb"]%string)
  /\ ((exists x, get_model name = Ok x) <-> In name registered)
  /\ (~ In name registered -> get_model name = Raise StopIteration)
  /\ (forall p, In name (Rolling.enabled_algorithms p) ->
                exists x, get_model name = Ok x
                          /\ get x "algo" = VStr name).
Proof.
  assert (Hreg : In name registered ->
            exists x, get_model name = Ok x
                      /\ In x models /\ get x "name" = VStr name
                      /\ (forall y, In y models ->
                                    get y "name" = VStr name -> y = x)
                      /\ exists algo, get x "algo" = VStr algo
                                      /\ In algo ["nn"; "lc"; "gb"]%string).
  { intros H. simpl in H.
    repeat (destruct H as [<-|H];
            [eexists; split; [reflexivity|];
             split; [simpl; tauto|]; split; [reflexivity|]; split;
             [intros y Hy Hn; simpl in Hy;
              repeat (destruct Hy as [<-|Hy];
                      [first [reflexivity|discriminate]|]);
              contradiction
             |eexists; split; [reflexivity|simpl; tauto]]|]).
    contradiction. }
  assert (Hnot : ~ In name registered -> get_model name = Raise StopIteration).
  { intros H. apply next_named_none. unfold models.
    repeat (constructor;
            [apply not_true_iff_false; intros E; apply eq_str_true in E;
             injection E as E; apply H; rewrite <- E; simpl; tauto|]).
    constructor. }
  split; [|split; [|split]].
  - intros x Hx. destruct (in_dec string_dec name registered) as [Hin|Hout].
    + destruct (Hreg Hin) as [x' [Hx' H]]. rewrite Hx in Hx'.
      injection Hx' as <-. exact H.
    + rewrite (Hnot Hout) in Hx. discriminate.
  - split.
    + intros [x Hx]. destruct (in_dec string_dec name registered)
        as [Hin|Hout]; [exact Hin|].
      rewrite (Hnot Hout) in Hx. discriminate.
    + intros H. destruct (Hreg H) as [x [Hx _]]. eauto.
  - exact Hnot.
  - intros p H. unfold Rolling.enabled_algorithms in H.
    apply filter_In in H. destruct H as [H _]. simpl in H.
    destruct H as [<-|[<-|[<-|[]]]]; eexists; split; reflexivity.
Qed.

(** ** [load_models] *)

Lemma get_column_set {S : Type} (d : list (string * S)) (c n : string) (v : S) :
  get_column (set_column d c v) n
  = if String.eqb c n then Some v else get_column d n.
Proof.
  induction d as [|[c' v'] d IH]; simpl.
  - destruct (String.eqb c n); reflexivity.
  - destruct (String.eqb_spec c' c) as [->|Hne]; simpl.
    + destruct (String.eqb c n); reflexivity.
    + destruct (String.eqb_spec c' n) as [->|Hn].
      * destruct (String.eqb_spec c n) as [->|_]; [contradiction|reflexivity].
      * exact IH.
Qed.

Lemma in_columns_get {S : Type} (d : list (string * S)) (n : string) :
  In n (columns d) <-> get_column d n <> None.
Proof.
  unfold columns. induction d as [|[c v] d IH]; simpl.
  - split; [contradiction|congruence].
  - destruct (String.eqb_spec c n) as [->|Hne].
    + split; [discriminate|auto].
    + rewrite <- IH. split; [intros [H|H]; [contradiction|exact H]|auto].
Qed.

Lemma NoDup_set_column {S : Type} (d : list (string * S)) (c : string) (v : S) :
  NoDup (columns d) -> NoDup (columns (set_column d c v)).
Proof.
  intros H. rewrite RollingProofs.columns_after_assign.
  unfold Rolling.add_name.
  destruct (Rolling.mem c (columns d)) eqn:E; [exact H|].
  apply NoDup_app; [exact H|repeat constructor; auto|].
  intros x Hx [Hc|[]]. subst x. unfold Rolling.mem in E.
  assert (Ht : existsb (String.eqb c) (columns d) = true).
  { apply existsb_exists. exists c. split; [exact Hx|apply String.eqb_refl]. }
  congruence.
Qed.

Lemma length_set_column {V : Type} (d : list (string * V)) (c : string) (v : V) :
  (length (set_column d c v) <= S (length d))%nat.
Proof.
  induction d as [|[c' v'] d IH]; simpl; [lia|].
  destruct (String.eqb c' c); simpl; lia.
Qed.

Lemma product_length (labels train_features algorithms : list string) :
  length (product labels train_features algorithms)
  = (length labels * length train_features * length algorithms)%nat.
Proof.
  assert (Hin : forall l : string,
            length (flat_map
                      (fun f => map (fun a => (l, f, a)) algorithms)
                      train_features)
            = (length train_features * length algorithms)%nat).
  { intros l. induction train_features as [|f fs IH]; [reflexivity|].
    cbn [flat_map length]. rewrite length_app, length_map, IH. lia. }
  unfold product. induction labels as [|l labels IH]; [reflexivity|].
  cbn [flat_map length]. rewrite length_app, IH, Hin. lia.
Qed.

Lemma in_product (labels train_features algorithms : list string)
  (l f a : string) :
  In (l, f, a) (product labels train_features algorithms)
  <-> In l labels /\ In f train_features /\ In a algorithms.
Proof.
  unfold product. rewrite in_flat_map. split.
  - intros [l' [Hl H]]. apply in_flat_map in H. destruct H as [f' [Hf H]].
    apply in_map_iff in H. destruct H as [a' [E Ha]]. injection E as -> -> ->.
    auto.
  - intros [Hl [Hf Ha]]. exists l. split; [exact Hl|].
    apply in_flat_map. exists f. split; [exact Hf|].
    apply in_map_iff. exists a. auto.
Qed.

Section Load.

Variable Pair : Type.
Variable load_model_pair : string -> result Pair.

Local Abbreviation load_from := (ModelStore.load_from Pair load_model_pair).
Local Abbreviation load_models := (ModelStore.load_models Pair load_model_pair).
Local Abbreviation loads := (ModelStore.loads Pair load_model_pair).

Lemma load_from_succeeds (todo : list (string * string * string)) :
  forall acc, (exists m, load_from acc todo = Ok m) <-> Forall loads todo.
Proof.
  induction todo as [|t todo IH]; intros acc; simpl.
  - split; [constructor|eauto].
  - destruct (score_column_name t) as [name|e] eqn:En; simpl.
    + destruct (load_model_pair name) as [pair|e] eqn:E; simpl.
      * rewrite IH. split.
        -- intros H. constructor; [|exact H]. exists name, pair. auto.
        -- intros H. inversion H; assumption.
      * split; [intros [m H]; discriminate|].
        intros H. inversion H as [|? ? [n [p [Hn Hp]]] _]; subst.
        rewrite En in Hn. injection Hn as <-. congruence.
    + split; [intros [m H]; discriminate|].
      intros H. inversion H as [|? ? [n [p [Hn Hp]]] _]; subst.
      rewrite En in Hn. discriminate.
Qed.

(** What the dictionary holds: pairs loaded under a name of some
    combination met so far. *)
Local Abbreviation sound := (ModelStore.sound Pair load_model_pair).

Lemma load_from_sound (all todo : list (string * string * string)) :
  incl todo all ->
  forall acc m, sound all acc -> load_from acc todo = Ok m -> sound all m.
Proof.
  induction todo as [|t todo IH]; intros Hi acc m Hs; simpl.
  - intros H. injection H as <-. exact Hs.
  - destruct (score_column_name t) as [name|e] eqn:En; simpl; [|discriminate].
    destruct (load_model_pair name) as [pair|e] eqn:E; simpl; [|discriminate].
    apply IH; [intros x Hx; apply Hi; right; exact Hx|].
    intros n p. rewrite get_column_set.
    destruct (String.eqb_spec name n) as [<-|Hne]; [|apply Hs].
    intros H. injection H as <-. split; [exact E|].
    exists t. split; [apply Hi; left; reflexivity|exact En].
Qed.

Lemma load_from_keeps (todo : list (string * string * string)) :
  forall acc m n,
    load_from acc todo = Ok m -> get_column acc n <> None ->
    get_column m n <> None.
Proof.
  induction todo as [|t todo IH]; intros acc m n; simpl.
  - intros H. injection H as <-. auto.
  - destruct (score_column_name t) as [name|e]; simpl; [|discriminate].
    destruct (load_model_pair name) as [pair|e]; simpl; [|discriminate].
    intros H Hn. apply (IH _ _ _ H). rewrite get_column_set.
    destruct (String.eqb name n); [discriminate|exact Hn].
Qed.

Lemma load_from_complete (todo : list (string * string * string)) :
  forall acc m t n,
    load_from acc todo = Ok m -> In t todo -> score_column_name t = Ok n ->
    get_column m n <> None.
Proof.
  induction todo as [|t0 todo IH]; intros acc m t n; simpl; [contradiction|].
  destruct (score_column_name t0) as [name|e] eqn:En; simpl; [|discriminate].
  destruct (load_model_pair name) as [pair|e]; simpl; [|discriminate].
  intros H [->|Hin] Hn.
  - apply (load_from_keeps _ _ _ _ H). rewrite get_column_set.
    assert (name = n) by congruence. subst.
    rewrite String.eqb_refl. discriminate.
  - exact (IH _ _ _ _ H Hin Hn).
Qed.

Lemma load_from_shape (todo : list (string * string * string)) :
  forall acc m,
    load_from acc todo = Ok m -> NoDup (columns acc) ->
    NoDup (columns m) /\ (length m <= length acc + length todo)%nat.
Proof.
  induction todo as [|t todo IH]; intros acc m; simpl.
  - intros H. injection H as <-. split; [assumption|lia].
  - destruct (score_column_name t) as [name|e]; simpl; [|discriminate].
    destruct (load_model_pair name) as [pair|e]; simpl; [|discriminate].
    intros H Hnd. apply IH in H; [|apply NoDup_set_column; exact Hnd].
    destruct H as [H1 H2]. split; [exact H1|].
    pose proof (length_set_column acc name pair). lia.
Qed.

End Load.

(** X23. [load_models] returns exactly when every combination of a label,
    a train feature set and an algorithm has a name (the feature set's name
    is not empty) and its model pair loads.  The dictionary returned then
    has the names of the combinations as its keys, each once, holding the
    pair loaded under that name; it has at most one entry per combination.
    With an empty feature-set name among the arguments (and a label and an
    algorithm to combine it with) the call never returns. *)
Theorem load_models_dictionary (Pair : Type)
  (load_model_pair : string -> result Pair)
  (labels train_features algorithms : list string) :
  let todo := product labels train_features algorithms in
  let call := load_models Pair load_model_pair labels train_features
                          algorithms in
  ((exists m, call = Ok m) <-> Forall (loads Pair load_model_pair) todo)
  /\ (forall m, call = Ok m ->
        NoDup (columns m)
        /\ (length m
            <= length labels * length train_features * length algorithms)%nat
        /\ forall n pair,
             get_column m n = Some pair
             <-> (exists t, In t todo /\ score_column_name t = Ok n)
                 /\ load_model_pair n = Ok pair)
  /\ (forall l a, In l labels -> In ""%string train_features ->
                  In a algorithms -> forall m, call <> Ok m).
Proof.
  intros todo call. unfold call, load_models. fold todo.
  split; [apply load_from_succeeds|]. split.
  - intros m Hm.
    destruct (load_from_shape Pair load_model_pair todo [] m Hm
                ltac:(constructor)) as [Hnd Hlen].
    split; [exact Hnd|]. split.
    + unfold todo in Hlen. rewrite product_length in Hlen. exact Hlen.
    + assert (Hs : sound Pair load_model_pair todo m).
      { apply (load_from_sound Pair load_model_pair todo todo
                 (incl_refl _) [] m); [|exact Hm].
        intros n p H. discriminate. }
      intros n pair. split.
      * intros H. destruct (Hs n pair H) as [Hl Ht]. auto.
      * intros [[t [Hin Ht]] Hl].
        pose proof (load_from_complete Pair load_model_pair todo [] m t n
                      Hm Hin Ht) as Hc.
        destruct (get_column m n) as [p'|] eqn:E; [|contradiction].
        destruct (Hs n p' E) as [Hl' _]. congruence.
  - intros l a Hl Hf Ha m Hm.
    assert (H : exists m, load_from Pair load_model_pair [] todo = Ok m)
      by eauto.
    apply load_from_succeeds in H. rewrite Forall_forall in H.
    destruct (H (l, ""%string, a)) as [n [p [Hn _]]].
    + apply in_product. auto.
    + discriminate.
Qed.

(** ** The names of the loaded models and the prediction columns *)

Lemma append_assoc (a b c : string) :
  String.append (String.append a b) c = String.append a (String.append b c).
Proof. induction a as [|ch a IH]; simpl; [reflexivity|]. rewrite IH. reflexivity. Qed.

Lemma score_column_name_kline (label algorithm : string) :
  score_column_name (label, "kline"%string, algorithm)
  = Ok (Rolling.score_column_name label "_k_" algorithm)
  /\ score_column_name (label, "futur"%string, algorithm)
     = Ok (Rolling.score_column_name label "_f_" algorithm).
Proof.
  unfold score_column_name, Rolling.score_column_name. simpl.
  rewrite !append_assoc. simpl. auto.
Qed.

Lemma in_fold_add_name (n : string) (l : list string) : forall acc,
  In n (fold_left Rolling.add_name l acc) <-> In n acc \/ In n l.
Proof.
  induction l as [|x l IH]; intros acc; simpl; [tauto|].
  rewrite IH. unfold Rolling.add_name, Rolling.mem.
  destruct (existsb (String.eqb x) acc) eqn:E.
  - apply existsb_exists in E. destruct E as [y [Hy E]].
    apply String.eqb_eq in E. subst y.
    split; [tauto|]. intros [H|[<-|H]]; auto.
  - rewrite in_app_iff. simpl. tauto.
Qed.

Lemma in_iteration_names (p : Rolling.Params) (c : Rolling.Config)
  (n : string) :
  In n (Rolling.iteration_names p c)
  <-> exists label f a,
        In label (Rolling.labels c) /\ In f (trained_feature_sets p)
        /\ In a (Rolling.enabled_algorithms p)
        /\ score_column_name (label, f, a) = Ok n.
Proof.
  unfold Rolling.iteration_names, Rolling.feature_set_blocks,
    trained_feature_sets.
  rewrite in_flat_map. split.
  - intros [block [Hb H]]. apply in_flat_map in H.
    destruct H as [label [Hl H]]. apply in_map_iff in H.
    destruct H as [a [<- Ha]]. apply in_app_or in Hb.
    destruct Hb as [Hb|Hb].
    + destruct (Rolling.mem "kline" _); [|contradiction].
      destruct Hb as [<-|[]]. exists label, "kline"%string, a.
      repeat split; try assumption; [left; reflexivity|].
      apply score_column_name_kline.
    + destruct (Rolling.mem "futur" _); [|contradiction].
      destruct Hb as [<-|[]]. exists label, "futur"%string, a.
      repeat split; try assumption;
        [apply in_or_app; right; left; reflexivity|].
      apply score_column_name_kline.
  - intros [label [f [a [Hl [Hf [Ha Hn]]]]]]. apply in_app_or in Hf.
    destruct Hf as [Hf|Hf].
    + destruct (Rolling.mem "kline" (Rolling.feature_sets p));
        [|contradiction].
      destruct Hf as [<-|[]].
      exists (Rolling.features_kline c, "_k_"%string,
              Rolling.kline_train_length p).
      split; [left; reflexivity|]. apply in_flat_map. exists label.
      split; [exact Hl|]. apply in_map_iff. exists a. split; [|exact Ha].
      destruct (score_column_name_kline label a) as [E _].
      cbn [fst snd]. congruence.
    + destruct (Rolling.mem "futur" (Rolling.feature_sets p));
        [|contradiction].
      destruct Hf as [<-|[]].
      exists (Rolling.features_futur c, "_f_"%string,
              Rolling.futur_train_length p).
      split; [apply in_or_app; right; left; reflexivity|].
      apply in_flat_map. exists label.
      split; [exact Hl|]. apply in_map_iff. exists a. split; [|exact Ha].
      destruct (score_column_name_kline label a) as [_ E].
      cbn [fst snd]. congruence.
Qed.

(** X24. The models are stored under the names of the prediction columns:
    the dictionary [load_models] returns for the configured labels, the
    feature sets the rolling predictions run and the algorithms they
    dispatch has exactly the columns of a prediction window as its keys
    (the name of the combination of a label, ["kline"] or ["futur"] and an
    algorithm is the label, [_k_] or [_f_], and the algorithm). *)
Theorem load_models_prediction_columns (Pair : Type)
  (load_model_pair : string -> result Pair)
  (p : Rolling.Params) (c : Rolling.Config) (m : list (string * Pair)) :
  load_models Pair load_model_pair (Rolling.labels c)
              (trained_feature_sets p) (Rolling.enabled_algorithms p)
  = Ok m ->
  (forall name, In name (columns m) <-> In name (Rolling.window_columns p c))
  /\ (forall label algorithm,
        score_column_name (label, "kline"%string, algorithm)
        = Ok (Rolling.score_column_name label "_k_" algorithm)
        /\ score_column_name (label, "futur"%string, algorithm)
           = Ok (Rolling.score_column_name label "_f_" algorithm)).
Proof.
  intros Hm. split; [|apply score_column_name_kline].
  intros name. unfold Rolling.window_columns.
  rewrite in_fold_add_name, in_iteration_names, in_columns_get.
  assert (Hs : sound Pair load_model_pair
                 (product (Rolling.labels c) (trained_feature_sets p)
                          (Rolling.enabled_algorithms p)) m).
  { apply (load_from_sound Pair load_model_pair _ _ (incl_refl _) [] m);
      [|exact Hm].
    intros n q H. discriminate. }
  split.
  - intros H. right. destruct (get_column m name) as [pair|] eqn:E;
      [|contradiction].
    apply Hs in E. destruct E as [_ [[[l f] a] [Hin Hn]]].
    apply in_product in Hin. destruct Hin as [Hl [Hf Ha]].
    exists l, f, a. auto.
  - intros [[]|[l [f [a [Hl [Hf [Ha Hn]]]]]]].
    apply (load_from_complete Pair load_model_pair _ [] m (l, f, a) name Hm);
      [|exact Hn].
    apply in_product. auto.
Qed.

Lemma load_models_prediction_columns_witness :
  In "y_k_nn"%string (columns [("y_k_nn"%string, 7)])
  <-> In "y_k_nn"%string
         (Rolling.window_columns
            (Rolling.mkParams ["kline"%string] ["nn"%string] 4 4 2 (Some 3)
                              true None)
            (Rolling.mkConfig 1 ["y"%string] ["f"%string] [])).
Proof.
  exact (proj1 (load_models_prediction_columns Z (fun _ => Ok 7)
                  (Rolling.mkParams ["kline"%string] ["nn"%string] 4 4 2
                                    (Some 3) true None)
                  (Rolling.mkConfig 1 ["y"%string] ["f"%string] [])
                  [("y_k_nn"%string, 7)] eq_refl)
               "y_k_nn"%string).
Defined.

End ModelStoreExtra.

(* ================================================================== *)
(** * Properties of the threshold features *)
(* ================================================================== *)

Module ThresholdsExtra.
Import Py Frame Interval Thresholds.

Lemma get_present_after_set (df : DataFrame) (c n : string) (s : Series) :
  get_column df n <> None -> get_column (set_column df c s) n <> None.
Proof.
  rewrite ModelStoreExtra.get_column_set.
  destruct (String.eqb c n); [discriminate|auto].
Qed.

Lemma skipn_nth_error {A : Type} (l : list A) : forall (i : nat) (x : A),
  nth_error l i = Some x -> skipn i l = x :: skipn (S i) l.
Proof.
  induction l as [|y l IH]; intros [|i] x H; try discriminate.
  - injection H as ->. reflexivity.
  - simpl in H. apply IH in H. exact H.
Qed.

(** The loop from index [i], on a table that has the column. *)
Lemma loop_outcome (column_name : string) (out_names : list string)
  (thresholds : list Q) : forall (df : DataFrame) (i : nat),
  get_column df column_name <> None -> (i <= length out_names)%nat ->
  ((i + length thresholds <= length out_names)%nat
   /\ exists df',
        loop df column_name i thresholds out_names = Ok df'
        /\ columns df'
           = fold_left Rolling.add_name
               (firstn (length thresholds) (skipn i out_names)) (columns df)
        /\ (forall n, ~ In n (firstn (length thresholds) (skipn i out_names)) ->
                      get_column df' n = get_column df n))
  \/ ((length out_names < i + length thresholds)%nat
      /\ loop df column_name i thresholds out_names = Raise IndexError).
Proof.
  induction thresholds as [|t thresholds IH]; intros df i Hc Hi.
  - left. split; [simpl; lia|]. exists df. simpl. auto.
  - cbn [loop length].
    destruct (nth_error out_names i) as [name|] eqn:En.
    + assert (Hlt : (i < length out_names)%nat)
        by (apply nth_error_Some; congruence).
      cbn [of_option bind].
      destruct (get_column df column_name) as [col|] eqn:Ec;
        [|contradiction].
      cbn [of_option bind].
      rewrite (skipn_nth_error out_names i name En). cbn [firstn].
      destruct (IH (set_column df name (flag col t)) (S i))
        as [[Hlen [df' [Hl [Hcols Hget]]]]|[Hlen Hl]].
      * apply get_present_after_set. congruence.
      * lia.
      * left. split; [lia|]. exists df'. split; [exact Hl|]. split.
        -- rewrite Hcols, RollingProofs.columns_after_assign. reflexivity.
        -- intros n Hn. rewrite Hget by (intros H; apply Hn; right; exact H).
           rewrite ModelStoreExtra.get_column_set.
           destruct (String.eqb_spec name n) as [->|_]; [|reflexivity].
           exfalso. apply Hn. left. reflexivity.
      * right. split; [lia|exact Hl].
    + apply nth_error_None in En. right. split; [lia|reflexivity].
Qed.

(** X25. [add_threshold_feature] by input.  Without thresholds it returns
    the table unchanged.  With thresholds it returns exactly when the table
    has the column and there is an output name for every threshold; it
    raises [IndexError] when the names run out (before anything else when
    there is no name at all) and [KeyError] when the column is missing.
    When it returns, the returned list is [out_names] as given, also the
    names beyond the thresholds, for which no column is made; the table
    has one assigned column per threshold, new names appended in order, and
    every other column as before. *)
Theorem add_threshold_feature_outcome (df : DataFrame) (column_name : string)
  (thresholds : list Q) (out_names : list string) :
  let call := add_threshold_feature df column_name thresholds out_names in
  (thresholds = [] -> call = Ok (df, out_names))
  /\ (thresholds <> [] ->
      ((exists r, call = Ok r)
       <-> get_column df column_name <> None
           /\ (length thresholds <= length out_names)%nat)
      /\ (out_names = [] -> call = Raise IndexError)
      /\ (out_names <> [] -> get_column df column_name = None ->
          call = Raise KeyError)
      /\ (get_column df column_name <> None ->
          (length out_names < length thresholds)%nat ->
          call = Raise IndexError))
  /\ (forall df' names,
        call = Ok (df', names) ->
        names = out_names
        /\ columns df'
           = fold_left Rolling.add_name (written thresholds out_names)
                       (columns df)
        /\ (forall n, ~ In n (written thresholds out_names) ->
                      get_column df' n = get_column df n)).
Proof.
  intros call. unfold call, add_threshold_feature, written.
  destruct thresholds as [|t thresholds].
  - split; [reflexivity|]. split; [congruence|].
    intros df' names H. simpl in H. injection H as <- <-. simpl. auto.
  - split; [discriminate|].
    destruct (get_column df column_name) as [col|] eqn:Ec.
    + assert (Hc : get_column df column_name <> None) by congruence.
      destruct (loop_outcome column_name out_names (t :: thresholds) df 0
                  Hc ltac:(lia)) as [[Hlen [df1 [Hl [Hcols Hget]]]]|[Hlen Hl]];
        rewrite Hl; cbn [bind skipn] in *.
      * split.
        -- cbn [length] in Hlen. intros _.
           split; [split; [intros _; split; [discriminate|cbn [length]; lia]
                          |eauto]|].
           split; [intros ->; simpl in Hlen; lia|].
           split; [discriminate|]. intros _ H. cbn [length] in H. lia.
        -- intros df' names H. injection H as <- <-. auto.
      * split.
        -- intros _. split.
           ++ split; [intros [r H]; discriminate|]. intros [_ H]. lia.
           ++ split; [reflexivity|]. split; [discriminate|reflexivity].
        -- intros df' names H. discriminate.
    + split.
      * intros _. split.
        -- split; [|intros [H _]; contradiction].
           intros [r H]. destruct out_names as [|nm rest]; simpl in H;
             [discriminate|]. rewrite Ec in H. discriminate.
        -- split; [intros ->; reflexivity|]. split.
           ++ intros Hn _. destruct out_names as [|nm out_names];
                [contradiction|]. simpl. rewrite Ec. reflexivity.
           ++ intros H. contradiction.
      * intros df' names H. destruct out_names as [|nm rest]; simpl in H;
          [discriminate|]. rewrite Ec in H. discriminate.
Qed.

(** ** The assigned columns *)

Lemma loop_flags (column_name : string) (col : Series)
  (out_names : list string) (thresholds : list Q) :
  forall (df : DataFrame) (i : nat),
    get_column df column_name = Some col ->
    (i + length thresholds <= length out_names)%nat ->
    NoDup (firstn (length thresholds) (skipn i out_names)) ->
    ~ In column_name (firstn (length thresholds) (skipn i out_names)) ->
    exists df',
      loop df column_name i thresholds out_names = Ok df'
      /\ Forall2 (fun name t => get_column df' name = Some (flag col t))
                 (firstn (length thresholds) (skipn i out_names)) thresholds
      /\ (forall n,
            ~ In n (firstn (length thresholds) (skipn i out_names)) ->
            get_column df' n = get_column df n).
Proof.
  induction thresholds as [|t thresholds IH]; intros df i Hc Hlen Hnd Hout.
  - exists df. simpl. split; [reflexivity|]. split; [constructor|auto].
  - cbn [loop length] in *.
    destruct (nth_error out_names i) as [name|] eqn:En;
      [|apply nth_error_None in En; lia].
    rewrite (skipn_nth_error out_names i name En) in *. cbn [firstn] in *.
    rewrite Hc. cbn [of_option bind].
    inversion Hnd as [|? ? Hfresh Hnd']; subst.
    destruct (IH (set_column df name (flag col t)) (S i))
      as [df' [Hl [Hflags Hget]]].
    + rewrite ModelStoreExtra.get_column_set.
      destruct (String.eqb_spec name column_name) as [->|_]; [|exact Hc].
      exfalso. apply Hout. left. reflexivity.
    + lia.
    + exact Hnd'.
    + intros H. apply Hout. right. exact H.
    + exists df'. split; [exact Hl|]. split.
      * constructor; [|exact Hflags].
        rewrite Hget by exact Hfresh.
        rewrite ModelStoreExtra.get_column_set, String.eqb_refl. reflexivity.
      * intros n Hn. rewrite Hget by (intros H; apply Hn; right; exact H).
        rewrite ModelStoreExtra.get_column_set.
        destruct (String.eqb_spec name n) as [->|_]; [|reflexivity].
        exfalso. apply Hn. left. reflexivity.
Qed.

Lemma Qle_bool_opp (x y : Q) : Qle_bool (- x) (- y) = Qle_bool y x.
Proof.
  destruct (Qle_bool y x) eqn:E.
  - apply Qle_bool_iff. apply Qle_bool_iff in E. apply Qopp_le_compat. exact E.
  - apply not_true_iff_false. intros H. apply not_true_iff_false in E.
    apply E. apply Qle_bool_iff. apply Qle_bool_iff in H.
    apply Qopp_le_compat in H. rewrite !Qopp_involutive in H. exact H.
Qed.

Lemma Qle_bool_eq_r (x y z : Q) : (y == z)%Q -> Qle_bool x y = Qle_bool x z.
Proof.
  intros H. destruct (Qle_bool x z) eqn:E.
  - apply Qle_bool_iff. apply Qle_bool_iff in E. rewrite H. exact E.
  - apply not_true_iff_false. intros H'. apply not_true_iff_false in E.
    apply E. apply Qle_bool_iff. apply Qle_bool_iff in H'. rewrite <- H.
    exact H'.
Qed.

Lemma Qle_bool_eq_l (x y z : Q) : (x == y)%Q -> Qle_bool x z = Qle_bool y z.
Proof.
  intros H. destruct (Qle_bool y z) eqn:E.
  - apply Qle_bool_iff. apply Qle_bool_iff in E. rewrite H. exact E.
  - apply not_true_iff_false. intros H'. apply not_true_iff_false in E.
    apply E. apply Qle_bool_iff. apply Qle_bool_iff in H'. rewrite <- H.
    exact H'.
Qed.

Lemma inject_Z_opp_bool (b : bool) :
  (inject_Z (- int_of_bool b) == - inject_Z (int_of_bool b))%Q.
Proof. destruct b; reflexivity. Qed.

Lemma ge_negate (col : Series) (t : Q) :
  ge_threshold (negate col) (- t) = le_threshold col t.
Proof.
  destruct col as [l|l|l]; simpl; rewrite ?map_map; apply map_ext; intros x.
  - rewrite (Qle_bool_eq_r _ _ _ (inject_Z_opp_bool x)). apply Qle_bool_opp.
  - rewrite (Qle_bool_eq_r _ _ (- inject_Z x)) by (unfold Qeq; simpl; lia).
    apply Qle_bool_opp.
  - apply Qle_bool_opp.
Qed.

Lemma le_negate (col : Series) (t : Q) :
  le_threshold (negate col) (- t) = ge_threshold col t.
Proof.
  destruct col as [l|l|l]; simpl; rewrite ?map_map; apply map_ext; intros x.
  - rewrite (Qle_bool_eq_l _ _ _ (inject_Z_opp_bool x)). apply Qle_bool_opp.
  - rewrite (Qle_bool_eq_l _ (- inject_Z x)) by (unfold Qeq; simpl; lia).
    apply Qle_bool_opp.
  - apply Qle_bool_opp.
Qed.

Lemma positive_opp (t : Q) : ~ (t == 0)%Q -> positive (- t) = negb (positive t).
Proof.
  intros Hne. unfold positive. rewrite negb_involutive.
  destruct (Qle_bool t 0) eqn:E.
  - apply negb_true_iff. apply not_true_iff_false. intros H.
    apply Qle_bool_iff in E, H.
    apply Hne. apply Qle_antisym; [exact E|].
    apply Qopp_le_compat in H. rewrite Qopp_involutive in H. exact H.
  - apply negb_false_iff. apply Qle_bool_iff.
    apply not_true_iff_false in E.
    destruct (Qlt_le_dec 0 t) as [Hlt|Hle].
    + apply Qlt_le_weak in Hlt. apply Qopp_le_compat in Hlt. exact Hlt.
    + exfalso. apply E. apply Qle_bool_iff. exact Hle.
Qed.

Lemma large_opp (t : Q) : large (- t) = large t.
Proof. unfold large. apply Qle_bool_eq_r. apply Qabs_opp. Qed.

(** X26. With an output name for every threshold, the names distinct and
    none of them the compared column, the call returns and the column
    assigned for each threshold holds, row by row, the comparison of the
    column with that threshold.  The comparison is mirrored for the two
    signs: a threshold and the negated threshold give the same flags on a
    column and on the negated column, for every threshold but 0. *)
Theorem add_threshold_feature_flags (df : DataFrame) (column_name : string)
  (thresholds : list Q) (out_names : list string) (col : Series) :
  get_column df column_name = Some col ->
  (length thresholds <= length out_names)%nat ->
  NoDup (written thresholds out_names) ->
  ~ In column_name (written thresholds out_names) ->
  (exists df',
     add_threshold_feature df column_name thresholds out_names
     = Ok (df', out_names)
     /\ Forall2 (fun name t => get_column df' name = Some (flag col t))
                (written thresholds out_names) thresholds)
  /\ (forall t, ~ (t == 0)%Q -> flag (negate col) (- t) = flag col t).
Proof.
  intros Hc Hlen Hnd Hout. split.
  - destruct (loop_flags column_name col out_names thresholds df 0 Hc
                ltac:(lia) Hnd Hout) as [df' [Hl [Hf _]]].
    exists df'. unfold add_threshold_feature. rewrite Hl. auto.
  - intros t Ht. unfold flag.
    rewrite (positive_opp t Ht), large_opp, ge_negate, le_negate.
    destruct (positive t), (large t); reflexivity.
Qed.

Lemma add_threshold_feature_flags_witness :
  exists df',
    add_threshold_feature [("high_max"%string, NumCol [1%Q; 2%Q; (1 # 2)%Q])]
      "high_max" [1%Q; (1 # 2)%Q] ["high_10"; "high_05"; "spare"]%string
    = Ok (df', ["high_10"; "high_05"; "spare"]%string)
    /\ Forall2
         (fun name t =>
            get_column df' name = Some (flag (NumCol [1%Q; 2%Q; (1 # 2)%Q]) t))
         ["high_10"; "high_05"]%string [1%Q; (1 # 2)%Q].
Proof.
  refine (proj1 (add_threshold_feature_flags
                   [("high_max"%string, NumCol [1%Q; 2%Q; (1 # 2)%Q])]
                   "high_max" [1%Q; (1 # 2)%Q]
                   ["high_10"; "high_05"; "spare"]%string
                   (NumCol [1%Q; 2%Q; (1 # 2)%Q]) eq_refl _ _ _)).
  - simpl. lia.
  - repeat constructor; simpl; intuition discriminate.
  - simpl. intuition discriminate.
Defined.

(** When an output name is the compared column itself, the next threshold
    is compared with the flags just assigned, not with the values. *)
Remark add_threshold_feature_aliasing :
  add_threshold_feature [("x"%string, NumCol [2%Q])] "x" [1%Q; 2%Q]
                        ["x"; "y"]%string
  = Ok ([("x"%string, BoolCol [true]); ("y"%string, BoolCol [false])],
        ["x"; "y"]%string)
  /\ add_threshold_feature [("x"%string, NumCol [2%Q])] "x" [1%Q; 2%Q]
                           ["z"; "y"]%string
     = Ok ([("x"%string, NumCol [2%Q]); ("z"%string, BoolCol [true]);
            ("y"%string, BoolCol [true])],
           ["z"; "y"]%string).
Proof. split; reflexivity. Qed.

End ThresholdsExtra.
